(** * FreqShow (WQ7T panadapter): model.py and views.py, embedded and verified

    The development follows the Python sources:

    - [freqshow.py]: the constants [SDR_SAMPLE_SIZE] and [WATERFALL_GRAD];
    - [model.py]: the class [FreqShowModel] (its setters, [_clear_intensity],
      [get_freq_step] and [get_data]);
    - [views.py]: [lerp], [rgb_lerp], [gradient_func], [clamp], the frame
      history of [InstantSpectrogram], the text editing of [NumberDialog],
      [BooleanDialog] with the handlers of [SettingsList] that take its
      value, and what the two spectrogram views draw from a frame.

    Python floats are idealised as exact rationals ([Q]); the values numpy
    produces from [log10] are rationals extended with the two infinities and
    NaN.  Python exceptions are values of [exn]; code that mutates [self] is
    written in a state-and-exception monad over the record of the object. *)

From Stdlib Require Import ZArith QArith Qround Qabs Lia Lqa Bool String Ascii.
From stdpp Require Import base list.

Open Scope Z_scope.

(** ** Python values, exceptions and sequences *)

Module Py.

Inductive exn : Set :=
  | ZeroDivisionError
  | ValueError
  | TypeError
  | IndexError
  | UnboundLocalError
  | IOError.

Inductive result (A : Type) : Type :=
  | Ok (a : A)
  | Raise (e : exn).
Arguments Ok {A} a.
Arguments Raise {A} e.

Definition rbind {A B} (r : result A) (k : A -> result B) : result B :=
    match r with
    | Ok a => k a
    | Raise e => Raise e
    end.

(** A Python object compared with [== True] and [== False]: [POther] stands
      for any value equal to neither. *)
Inductive pyflag : Set := PTrue | PFalse | POther.

Definition is_boolean (f : pyflag) : Prop := f = PTrue \/ f = PFalse.

(** [int(x)] of a float: truncation toward zero. *)
Definition py_int (q : Q) : Z := Z.quot (Qnum q) (Z.pos (Qden q)).

(** [math.floor]. *)
Definition py_floor (q : Q) : Z := Qfloor q.

(** Float division, which raises on a zero divisor. *)
Definition py_div (a b : Q) : result Q :=
    if Qeq_bool b 0 then Raise ZeroDivisionError else Ok (a / b)%Q.

(** Float [%]: the result takes the sign of the divisor. *)
Definition py_mod (a b : Q) : result Q :=
    if Qeq_bool b 0 then Raise ZeroDivisionError
    else Ok (a - b * inject_Z (Qfloor (a / b)))%Q.

Definition Qltb (a b : Q) : bool := negb (Qle_bool b a).

(** A slice bound as CPython normalises it for a sequence of [len] items. *)
Definition clip_index (len i : Z) : Z :=
    if i <? 0 then Z.max 0 (len + i) else Z.min i len.

(** [l[lo:hi]]. *)
Definition py_slice {A} (lo hi : Z) (l : list A) : list A :=
    let n := Z.of_nat (length l) in
    let a := clip_index n lo in
    let b := clip_index n hi in
    take (Z.to_nat (b - a)) (drop (Z.to_nat a) l).

(** The position that index [i] names in a sequence of [len] items, negative
    indices counting from the end. *)
Definition py_index (len : nat) (i : Z) : result nat :=
  let n := Z.of_nat len in
  let j := if i <? 0 then i + n else i in
  if (0 <=? j) && (j <? n) then Ok (Z.to_nat j) else Raise IndexError.

(** [l[i]]. *)
Definition py_getitem {A} (l : list A) (i : Z) : result A :=
  match py_index (length l) i with
  | Ok k => match l !! k with
            | Some a => Ok a
            | None => Raise IndexError
            end
  | Raise e => Raise e
  end.

(** [range(a, b)]. *)
Definition py_range (a b : Z) : list Z :=
  map (fun k => a + Z.of_nat k) (seq 0 (Z.to_nat (b - a))).

End Py.
Import Py.

#[global] Instance result_ret : MRet result := @Ok.
#[global] Instance result_bind : MBind result := fun A B k r => rbind r k.

(** ** views.py: colour gradient *)

Module Gradient.

Definition color : Type := (Z * Z * Z)%type.

(** freqshow.py: [WATERFALL_GRAD]. *)
Definition WATERFALL_GRAD : list color :=
    [(0, 0, 255); (0, 255, 255); (255, 255, 0); (255, 0, 0)].

(** [lerp(x, x0, x1, y0, y1)]. *)
Definition lerp (x x0 x1 y0 y1 : Q) : result Q :=
    t ← py_div (x - x0) (x1 - x0);
    Ok (y0 + (y1 - y0) * t)%Q.

(** [rgb_lerp(x, x0, x1, c0, c1)]: each channel interpolated, then floored. *)
Definition rgb_lerp (x x0 x1 : Q) (c0 c1 : color) : result color :=
    let '(r0, g0, b0) := c0 in
    let '(r1, g1, b1) := c1 in
    r ← lerp x x0 x1 (inject_Z r0) (inject_Z r1);
    g ← lerp x x0 x1 (inject_Z g0) (inject_Z g1);
    b ← lerp x x0 x1 (inject_Z b0) (inject_Z b1);
    Ok (py_floor r, py_floor g, py_floor b).

(** The closure [_fun] that [gradient_func] returns. *)
Definition gradient_fun (colors : list color) (grad_width value : Q)
    : result color :=
    if Qle_bool value 0 then py_getitem colors 0
    else if Qle_bool 1 value then py_getitem colors (-1)
    else
      q ← py_div value grad_width;
      let pos := py_int q in
      c0 ← py_getitem colors pos;
      c1 ← py_getitem colors (pos + 1);
      r ← py_mod value grad_width;
      x ← py_div r grad_width;
      rgb_lerp x 0 1 c0 c1.

(** [gradient_func(colors)]: [grad_width] is computed once, when the
      closure is built. *)
Definition gradient_func (colors : list color) : result (Q -> result color) :=
    grad_width ← py_div 1 (inject_Z (Z.of_nat (length colors)) - 1);
    Ok (gradient_fun colors grad_width).

(** [clamp(x, x0, x1)] on finite values; [clamp_f] is the function on every
    float64, NaN included. *)
Definition clamp (x x0 x1 : Q) : Q :=
    if Qltb x1 x then x1 else if Qltb x x0 then x0 else x.

(** [self.color_func = gradient_func(freqshow.WATERFALL_GRAD)] applied to a
      value, as both spectrogram views do. *)
Definition color_func (value : Q) : result color :=
    f ← gradient_func WATERFALL_GRAD; f value.

End Gradient.

(** ** numpy scalars and reductions *)

Module Numpy.

(** A float64 as numpy can return it from [log10]: a finite value (an exact
    rational here), an infinity, or NaN. *)
Inductive fval : Type :=
| NaN
| NegInf
| Fin (q : Q)
| PosInf.

Definition is_finite (v : fval) : Prop :=
  match v with Fin _ => True | _ => False end.

Definition is_nan (v : fval) : bool :=
  match v with NaN => true | _ => false end.

(** IEEE [<]: false as soon as one side is NaN. *)
Definition flt (a b : fval) : bool :=
  match a, b with
  | NaN, _ => false
  | _, NaN => false
  | NegInf, NegInf => false
  | NegInf, _ => true
  | Fin _, NegInf => false
  | Fin x, Fin y => Qltb x y
  | Fin _, PosInf => true
  | PosInf, _ => false
  end.

(** IEEE [<=]. *)
Definition fle (a b : fval) : bool :=
  match a, b with
  | NaN, _ => false
  | _, NaN => false
  | NegInf, _ => true
  | Fin _, NegInf => false
  | Fin x, Fin y => Qle_bool x y
  | Fin _, PosInf => true
  | PosInf, PosInf => true
  | PosInf, _ => false
  end.

(** Value equality of floats: rationals up to [Qeq], NaN equal to nothing. *)
Definition feq (a b : fval) : Prop :=
  match a, b with
  | NegInf, NegInf => True
  | PosInf, PosInf => True
  | Fin x, Fin y => (x == y)%Q
  | _, _ => False
  end.

(** Python's builtin [min(a, b)]: [b] when [b < a], else [a]. *)
Definition py_min (a b : fval) : fval := if flt b a then b else a.

(** Python's builtin [max(a, b)]: [b] when [b > a], else [a]. *)
Definition py_max (a b : fval) : fval := if flt a b then b else a.

(** [np.minimum] and [np.maximum]: NaN wins. *)
Definition np_minimum (a b : fval) : fval :=
  if is_nan a then a else if is_nan b then b else if flt b a then b else a.

Definition np_maximum (a b : fval) : fval :=
  if is_nan a then a else if is_nan b then b else if flt a b then b else a.

(** [np.min(a)] and [np.max(a)] of a 1-d array; an empty array raises. *)
Definition np_min (a : list fval) : result fval :=
  match a with
  | [] => Raise ValueError
  | x :: xs => Ok (foldl np_minimum x xs)
  end.

Definition np_max (a : list fval) : result fval :=
  match a with
  | [] => Raise ValueError
  | x :: xs => Ok (foldl np_maximum x xs)
  end.

(** Float subtraction. *)
Definition fsub (a b : fval) : fval :=
  match a, b with
  | NaN, _ => NaN
  | _, NaN => NaN
  | Fin x, Fin y => Fin (x - y)
  | Fin _, NegInf => PosInf
  | Fin _, PosInf => NegInf
  | PosInf, PosInf => NaN
  | PosInf, _ => PosInf
  | NegInf, NegInf => NaN
  | NegInf, _ => NegInf
  end.

(** Float addition. *)
Definition fadd (a b : fval) : fval :=
  match a, b with
  | NaN, _ => NaN
  | _, NaN => NaN
  | Fin x, Fin y => Fin (x + y)
  | Fin _, NegInf => NegInf
  | Fin _, PosInf => PosInf
  | PosInf, NegInf => NaN
  | PosInf, _ => PosInf
  | NegInf, PosInf => NaN
  | NegInf, _ => NegInf
  end.

(** Multiplication and division by a positive finite constant. *)
Definition fscale (c : Q) (a : fval) : fval :=
  match a with
  | Fin x => Fin (c * x)
  | other => other
  end.

(** [np.log10] of a real array element, given the logarithm of positive
    values: zero goes to minus infinity and a negative value to NaN (numpy
    warns and carries on). *)
Definition np_log10 (log10 : Q -> Q) (x : Q) : fval :=
  if Qltb 0 x then Fin (log10 x)
  else if Qeq_bool x 0 then NegInf
  else NaN.

(** [np.copyto(dst, src)] on 1-d arrays: [src] is broadcast to the shape of
    [dst], which succeeds for equal lengths and for a [src] of one element. *)
Definition np_copyto {A} (dst src : list A) : result (list A) :=
  if Nat.eqb (length src) (length dst) then Ok src
  else match src with
       | [x] => Ok (replicate (length dst) x)
       | _ => Raise ValueError
       end.

(** [a * b] on 1-d arrays, with numpy's broadcasting. *)
Definition np_multiply {A B C} (f : A -> B -> C) (a : list A) (b : list B)
  : result (list C) :=
  if Nat.eqb (length a) (length b) then Ok (zip_with f a b)
  else match a, b with
       | _, [y] => Ok (map (fun x => f x y) a)
       | [x], _ => Ok (map (f x) b)
       | _, _ => Raise ValueError
       end.

(** [np.fft.fftshift] of a 1-d array: a rotation by [n // 2]. *)
Definition fftshift {A} (a : list A) : list A :=
  let n := length a in
  let k := Nat.div n 2 in
  drop (n - k)%nat a ++ take (n - k)%nat a.

(** A 2-d array is the list of its rows, all of one length. *)
Abbreviation array2 := (list (list fval)).

(** [np.tile(row, (reps, 1))]. *)
Definition np_tile (row : list fval) (reps : Z) : result array2 :=
  if reps <? 0 then Raise ValueError else Ok (replicate (Z.to_nat reps) row).

(** [np.copyto(a[i], src)]: row [i] of [a] is overwritten in place. *)
Definition copyto_row (a : array2) (i : Z) (src : list fval) : result array2 :=
  k ← py_index (length a) i;
  dst ← py_getitem a i;
  row ← np_copyto dst src;
  Ok (<[k := row]> a).

(** [np.max(a, axis=0)]: the maximum down each column; an array without
    rows raises. *)
Definition np_max_axis0 (a : array2) : result (list fval) :=
  match a with
  | [] => Raise ValueError
  | r :: rs => Ok (foldl (zip_with np_maximum) r rs)
  end.

(** [np.average(a, axis=0)]: the sum down each column over the number of
    rows.  (For an array without rows numpy returns NaNs; the callers below
    never pass one.) *)
Definition np_average_axis0 (a : array2) : result (list fval) :=
  match a with
  | [] => Raise ValueError
  | r :: rs =>
      let n := inject_Z (Z.of_nat (length a)) in
      Ok (map (fscale (1 / n)) (foldl (zip_with fadd) r rs))
  end.

End Numpy.
Import Numpy.

(** ** The numeric libraries and the tuner

    [scipy.signal], [scipy.fftpack.fft], [np.absolute] and [np.log10] are
    not code of this repository: the model takes them as an interface.  A
    window generator is given by its coefficient function (length, index);
    the transform by the magnitude of each output bin, so that the number of
    bins is the number of samples by construction. *)

Class SignalLib : Type := {
  sample : Type;
  (** a complex sample times a real window coefficient *)
  smul : sample -> Q -> sample;
  (** [np.absolute(fft(x))[k]] *)
  dft_mag : list sample -> nat -> Q;
  (** [log10] of a positive value *)
  log10 : Q -> Q;
  (** [signal.kaiser(M, beta, False)[n]] and the other tapers *)
  kaiser : nat -> Q -> nat -> Q;
  hann : nat -> nat -> Q;
  hamming : nat -> nat -> Q;
  blackman : nat -> nat -> Q;
  blackmanharris : nat -> nat -> Q;
  bartlett : nat -> nat -> Q;
  barthann : nat -> nat -> Q;
  nuttall : nat -> nat -> Q
}.

(** freqshow.py: [SDR_SAMPLE_SIZE]. *)
Definition SDR_SAMPLE_SIZE : Z := 8192.

(** What a call into the tuner driver did: returned, or raised [IOError]. *)
Inductive io_outcome : Set := IoOk | IoFails.

Section Model.
Context `{SignalLib}.

(** A window of [M] coefficients from its coefficient function. *)
Definition window_of (coef : nat -> nat -> Q) (M : Z) : list Q :=
  map (coef (Z.to_nat M)) (seq 0 (Z.to_nat M)).

(** [signal.boxcar(M, False)]: [np.ones(M)]. *)
Definition boxcar (M : nat) (n : nat) : Q := 1%Q.

(** [np.absolute(fft(samples))]; fftpack refuses an empty array. *)
Definition fft_abs (samples : list sample) : result (list Q) :=
  match samples with
  | [] => Raise ValueError
  | _ => Ok (map (dft_mag samples) (seq 0 (length samples)))
  end.

(** The state of the [RtlSdr] object that the model reads and writes, and
    the outcome of each future [read_samples] call, by call number.  The
    driver's [sample_rate] property is a float, so that
    [self.sdr.sample_rate/1000000] is a true division, as
    [get_sample_rate() / 1000000.0] is. *)
Record RtlSdr : Type := {
  sdr_sample_rate : Q;
  sdr_center_freq : Q;
  sdr_gain : Q;
  sdr_manual_gain : bool;
  sdr_reads : nat;
  sdr_stream : nat -> result (list sample)
}.

(** [self.fft_ave]: an integer, or the bound method [self.get_fft_ave] that
    [set_fft_ave] stores for an argument of at most 1. *)
Inductive fft_ave_value : Set :=
| AveInt (n : Z)
| AveBoundMethod.

(** The attributes of a [FreqShowModel] that the functions below use. *)
Record FreqShowModel : Type := {
  width : Z;
  height : Z;
  min_auto_scale : bool;
  max_auto_scale : bool;
  min_intensity : option fval;
  max_intensity : option fval;
  range : option fval;
  sdr : RtlSdr;
  swap_iq : pyflag;
  zoom_fac : Q;
  lo_offset : Q;
  center_freq : Q;
  auto_gain : bool;
  fft_ave : fft_ave_value;
  peak : pyflag;
  filter : string;
  kaiser_beta : Q;
  sample_rate : option Q
}.

(** *** Attribute assignment *)

Definition with_min_auto_scale (b : bool) (m : FreqShowModel) : FreqShowModel :=
  {| width := width m; height := height m; min_auto_scale := b;
     max_auto_scale := max_auto_scale m; min_intensity := min_intensity m;
     max_intensity := max_intensity m; range := range m; sdr := sdr m;
     swap_iq := swap_iq m; zoom_fac := zoom_fac m; lo_offset := lo_offset m;
     center_freq := center_freq m; auto_gain := auto_gain m;
     fft_ave := fft_ave m; peak := peak m; filter := filter m;
     kaiser_beta := kaiser_beta m; sample_rate := sample_rate m |}.

Definition with_max_auto_scale (b : bool) (m : FreqShowModel) : FreqShowModel :=
  {| width := width m; height := height m; min_auto_scale := min_auto_scale m;
     max_auto_scale := b; min_intensity := min_intensity m;
     max_intensity := max_intensity m; range := range m; sdr := sdr m;
     swap_iq := swap_iq m; zoom_fac := zoom_fac m; lo_offset := lo_offset m;
     center_freq := center_freq m; auto_gain := auto_gain m;
     fft_ave := fft_ave m; peak := peak m; filter := filter m;
     kaiser_beta := kaiser_beta m; sample_rate := sample_rate m |}.

Definition with_min_intensity (v : option fval) (m : FreqShowModel) : FreqShowModel :=
  {| width := width m; height := height m; min_auto_scale := min_auto_scale m;
     max_auto_scale := max_auto_scale m; min_intensity := v;
     max_intensity := max_intensity m; range := range m; sdr := sdr m;
     swap_iq := swap_iq m; zoom_fac := zoom_fac m; lo_offset := lo_offset m;
     center_freq := center_freq m; auto_gain := auto_gain m;
     fft_ave := fft_ave m; peak := peak m; filter := filter m;
     kaiser_beta := kaiser_beta m; sample_rate := sample_rate m |}.

Definition with_max_intensity (v : option fval) (m : FreqShowModel) : FreqShowModel :=
  {| width := width m; height := height m; min_auto_scale := min_auto_scale m;
     max_auto_scale := max_auto_scale m; min_intensity := min_intensity m;
     max_intensity := v; range := range m; sdr := sdr m;
     swap_iq := swap_iq m; zoom_fac := zoom_fac m; lo_offset := lo_offset m;
     center_freq := center_freq m; auto_gain := auto_gain m;
     fft_ave := fft_ave m; peak := peak m; filter := filter m;
     kaiser_beta := kaiser_beta m; sample_rate := sample_rate m |}.

Definition with_range (v : option fval) (m : FreqShowModel) : FreqShowModel :=
  {| width := width m; height := height m; min_auto_scale := min_auto_scale m;
     max_auto_scale := max_auto_scale m; min_intensity := min_intensity m;
     max_intensity := max_intensity m; range := v; sdr := sdr m;
     swap_iq := swap_iq m; zoom_fac := zoom_fac m; lo_offset := lo_offset m;
     center_freq := center_freq m; auto_gain := auto_gain m;
     fft_ave := fft_ave m; peak := peak m; filter := filter m;
     kaiser_beta := kaiser_beta m; sample_rate := sample_rate m |}.

Definition with_sdr (d : RtlSdr) (m : FreqShowModel) : FreqShowModel :=
  {| width := width m; height := height m; min_auto_scale := min_auto_scale m;
     max_auto_scale := max_auto_scale m; min_intensity := min_intensity m;
     max_intensity := max_intensity m; range := range m; sdr := d;
     swap_iq := swap_iq m; zoom_fac := zoom_fac m; lo_offset := lo_offset m;
     center_freq := center_freq m; auto_gain := auto_gain m;
     fft_ave := fft_ave m; peak := peak m; filter := filter m;
     kaiser_beta := kaiser_beta m; sample_rate := sample_rate m |}.

Definition with_swap_iq (f : pyflag) (m : FreqShowModel) : FreqShowModel :=
  {| width := width m; height := height m; min_auto_scale := min_auto_scale m;
     max_auto_scale := max_auto_scale m; min_intensity := min_intensity m;
     max_intensity := max_intensity m; range := range m; sdr := sdr m;
     swap_iq := f; zoom_fac := zoom_fac m; lo_offset := lo_offset m;
     center_freq := center_freq m; auto_gain := auto_gain m;
     fft_ave := fft_ave m; peak := peak m; filter := filter m;
     kaiser_beta := kaiser_beta m; sample_rate := sample_rate m |}.

Definition with_zoom_fac (z : Q) (m : FreqShowModel) : FreqShowModel :=
  {| width := width m; height := height m; min_auto_scale := min_auto_scale m;
     max_auto_scale := max_auto_scale m; min_intensity := min_intensity m;
     max_intensity := max_intensity m; range := range m; sdr := sdr m;
     swap_iq := swap_iq m; zoom_fac := z; lo_offset := lo_offset m;
     center_freq := center_freq m; auto_gain := auto_gain m;
     fft_ave := fft_ave m; peak := peak m; filter := filter m;
     kaiser_beta := kaiser_beta m; sample_rate := sample_rate m |}.

Definition with_lo_offset (z : Q) (m : FreqShowModel) : FreqShowModel :=
  {| width := width m; height := height m; min_auto_scale := min_auto_scale m;
     max_auto_scale := max_auto_scale m; min_intensity := min_intensity m;
     max_intensity := max_intensity m; range := range m; sdr := sdr m;
     swap_iq := swap_iq m; zoom_fac := zoom_fac m; lo_offset := z;
     center_freq := center_freq m; auto_gain := auto_gain m;
     fft_ave := fft_ave m; peak := peak m; filter := filter m;
     kaiser_beta := kaiser_beta m; sample_rate := sample_rate m |}.

Definition with_center_freq (z : Q) (m : FreqShowModel) : FreqShowModel :=
  {| width := width m; height := height m; min_auto_scale := min_auto_scale m;
     max_auto_scale := max_auto_scale m; min_intensity := min_intensity m;
     max_intensity := max_intensity m; range := range m; sdr := sdr m;
     swap_iq := swap_iq m; zoom_fac := zoom_fac m; lo_offset := lo_offset m;
     center_freq := z; auto_gain := auto_gain m;
     fft_ave := fft_ave m; peak := peak m; filter := filter m;
     kaiser_beta := kaiser_beta m; sample_rate := sample_rate m |}.

Definition with_auto_gain (b : bool) (m : FreqShowModel) : FreqShowModel :=
  {| width := width m; height := height m; min_auto_scale := min_auto_scale m;
     max_auto_scale := max_auto_scale m; min_intensity := min_intensity m;
     max_intensity := max_intensity m; range := range m; sdr := sdr m;
     swap_iq := swap_iq m; zoom_fac := zoom_fac m; lo_offset := lo_offset m;
     center_freq := center_freq m; auto_gain := b;
     fft_ave := fft_ave m; peak := peak m; filter := filter m;
     kaiser_beta := kaiser_beta m; sample_rate := sample_rate m |}.

Definition with_fft_ave (a : fft_ave_value) (m : FreqShowModel) : FreqShowModel :=
  {| width := width m; height := height m; min_auto_scale := min_auto_scale m;
     max_auto_scale := max_auto_scale m; min_intensity := min_intensity m;
     max_intensity := max_intensity m; range := range m; sdr := sdr m;
     swap_iq := swap_iq m; zoom_fac := zoom_fac m; lo_offset := lo_offset m;
     center_freq := center_freq m; auto_gain := auto_gain m;
     fft_ave := a; peak := peak m; filter := filter m;
     kaiser_beta := kaiser_beta m; sample_rate := sample_rate m |}.

Definition with_peak (f : pyflag) (m : FreqShowModel) : FreqShowModel :=
  {| width := width m; height := height m; min_auto_scale := min_auto_scale m;
     max_auto_scale := max_auto_scale m; min_intensity := min_intensity m;
     max_intensity := max_intensity m; range := range m; sdr := sdr m;
     swap_iq := swap_iq m; zoom_fac := zoom_fac m; lo_offset := lo_offset m;
     center_freq := center_freq m; auto_gain := auto_gain m;
     fft_ave := fft_ave m; peak := f; filter := filter m;
     kaiser_beta := kaiser_beta m; sample_rate := sample_rate m |}.

Definition with_filter (s : string) (m : FreqShowModel) : FreqShowModel :=
  {| width := width m; height := height m; min_auto_scale := min_auto_scale m;
     max_auto_scale := max_auto_scale m; min_intensity := min_intensity m;
     max_intensity := max_intensity m; range := range m; sdr := sdr m;
     swap_iq := swap_iq m; zoom_fac := zoom_fac m; lo_offset := lo_offset m;
     center_freq := center_freq m; auto_gain := auto_gain m;
     fft_ave := fft_ave m; peak := peak m; filter := s;
     kaiser_beta := kaiser_beta m; sample_rate := sample_rate m |}.

Definition with_sample_rate (r : option Q) (m : FreqShowModel) : FreqShowModel :=
  {| width := width m; height := height m; min_auto_scale := min_auto_scale m;
     max_auto_scale := max_auto_scale m; min_intensity := min_intensity m;
     max_intensity := max_intensity m; range := range m; sdr := sdr m;
     swap_iq := swap_iq m; zoom_fac := zoom_fac m; lo_offset := lo_offset m;
     center_freq := center_freq m; auto_gain := auto_gain m;
     fft_ave := fft_ave m; peak := peak m; filter := filter m;
     kaiser_beta := kaiser_beta m; sample_rate := r |}.

Definition with_kaiser_beta (b : Q) (m : FreqShowModel) : FreqShowModel :=
  {| width := width m; height := height m; min_auto_scale := min_auto_scale m;
     max_auto_scale := max_auto_scale m; min_intensity := min_intensity m;
     max_intensity := max_intensity m; range := range m; sdr := sdr m;
     swap_iq := swap_iq m; zoom_fac := zoom_fac m; lo_offset := lo_offset m;
     center_freq := center_freq m; auto_gain := auto_gain m;
     fft_ave := fft_ave m; peak := peak m; filter := filter m;
     kaiser_beta := b; sample_rate := sample_rate m |}.

(** *** The monad of methods: the object is threaded, an exception ends the
    call. *)

Definition M (A : Type) : Type := FreqShowModel -> result (A * FreqShowModel).

Definition ret {A} (a : A) : M A := fun m => Ok (a, m).

Definition bind {A B} (c : M A) (k : A -> M B) : M B :=
  fun m => match c m with
           | Ok (a, m') => k a m'
           | Raise e => Raise e
           end.

Definition raise {A} (e : exn) : M A := fun _ => Raise e.

Definition lift {A} (r : result A) : M A :=
  fun m => match r with Ok a => Ok (a, m) | Raise e => Raise e end.

Definition gets {A} (f : FreqShowModel -> A) : M A := fun m => Ok (f m, m).

Definition modify (f : FreqShowModel -> FreqShowModel) : M unit :=
  fun m => Ok (tt, f m).

#[global] Instance M_ret : MRet M := @ret.
#[global] Instance M_bind : MBind M := fun A B k c => bind c k.

(** *** model.py: the setters *)

(** The argument of a setter that takes either the string ['AUTO'] or a
    number. *)
Inductive setting : Type :=
| AUTO
| Value (q : Q).

(** [_clear_intensity]. *)
Definition _clear_intensity : M unit :=
  a ← gets min_auto_scale;
  (if a : bool then modify (with_min_intensity None) else ret tt);;
  b ← gets max_auto_scale;
  (if b : bool then modify (with_max_intensity None) else ret tt);;
  modify (with_range None).

Definition get_swap_iq : M pyflag := gets swap_iq.
Definition set_swap_iq (v : pyflag) : M unit := modify (with_swap_iq v).

Definition get_peak : M pyflag := gets peak.
Definition set_peak (v : pyflag) : M unit := modify (with_peak v).

Definition get_lo_offset : M Q := gets lo_offset.
Definition set_lo_offset (v : Q) : M unit := modify (with_lo_offset v).

Definition get_center_freq : M Q := gets center_freq.

Definition get_zoom_fac : M Q := gets zoom_fac.

(** [get_sample_rate]: the tuner's rate in megahertz. *)
Definition get_sample_rate : M Q :=
  gets (fun m => sdr_sample_rate (sdr m) / 1000000)%Q.

(** The driver calls, each with what the driver did. *)
Definition sdr_set_center_freq (hz : Q) (io : io_outcome) : M unit :=
  match io with
  | IoFails => raise IOError
  | IoOk => modify (fun m =>
      let d := sdr m in
      with_sdr {| sdr_sample_rate := sdr_sample_rate d; sdr_center_freq := hz;
                  sdr_gain := sdr_gain d; sdr_manual_gain := sdr_manual_gain d;
                  sdr_reads := sdr_reads d; sdr_stream := sdr_stream d |} m)
  end.

Definition sdr_set_sample_rate (hz : Q) (io : io_outcome) : M unit :=
  match io with
  | IoFails => raise IOError
  | IoOk => modify (fun m =>
      let d := sdr m in
      with_sdr {| sdr_sample_rate := hz; sdr_center_freq := sdr_center_freq d;
                  sdr_gain := sdr_gain d; sdr_manual_gain := sdr_manual_gain d;
                  sdr_reads := sdr_reads d; sdr_stream := sdr_stream d |} m)
  end.

Definition sdr_set_gain (db : Q) (io : io_outcome) : M unit :=
  match io with
  | IoFails => raise IOError
  | IoOk => modify (fun m =>
      let d := sdr m in
      with_sdr {| sdr_sample_rate := sdr_sample_rate d;
                  sdr_center_freq := sdr_center_freq d;
                  sdr_gain := db; sdr_manual_gain := true;
                  sdr_reads := sdr_reads d; sdr_stream := sdr_stream d |} m)
  end.

Definition sdr_set_manual_gain_enabled (b : bool) (io : io_outcome) : M unit :=
  match io with
  | IoFails => raise IOError
  | IoOk => modify (fun m =>
      let d := sdr m in
      with_sdr {| sdr_sample_rate := sdr_sample_rate d;
                  sdr_center_freq := sdr_center_freq d;
                  sdr_gain := sdr_gain d; sdr_manual_gain := b;
                  sdr_reads := sdr_reads d; sdr_stream := sdr_stream d |} m)
  end.

(** The tuner after one more [read_samples] call. *)
Definition sdr_advance (d : RtlSdr) : RtlSdr :=
  {| sdr_sample_rate := sdr_sample_rate d; sdr_center_freq := sdr_center_freq d;
     sdr_gain := sdr_gain d; sdr_manual_gain := sdr_manual_gain d;
     sdr_reads := S (sdr_reads d); sdr_stream := sdr_stream d |}.

(** [sdr.read_samples(count)]: the next batch of the stream.  The driver's
    contract is that a batch holds [count] samples. *)
Definition read_samples (count : Z) : M (list sample) :=
  fun m =>
    match sdr_stream (sdr m) (sdr_reads (sdr m)) with
    | Ok raw => Ok (raw, with_sdr (sdr_advance (sdr m)) m)
    | Raise e => Raise e
    end.

(** [try: c except IOError: pass]. *)
Definition except_IOError_pass (c : M unit) : M unit :=
  fun m => match c m with
           | Raise IOError => Ok (tt, m)
           | other => other
           end.

(** [set_center_freq(value)]. *)
Definition set_center_freq (value : Q) (io : io_outcome) : M unit :=
  modify (with_center_freq value);;
  sr ← get_sample_rate;
  zf ← get_zoom_fac;
  a ← lift (py_div sr zf);
  lo ← get_lo_offset;
  b ← lift (py_div lo zf);
  cf ← get_center_freq;
  let freq_hz :=
    if Qltb (b - zf / 2) (a / 2) then ((cf + lo) * 1000000)%Q
    else (cf * 1000000)%Q in
  sdr_set_center_freq freq_hz io;;
  _clear_intensity.

(** [set_sample_rate(sample_rate_mhz)]. *)
Definition set_sample_rate (sample_rate_mhz : Q) (io : io_outcome) : M unit :=
  if (Qle_bool (225001 # 1000000) sample_rate_mhz
      && Qle_bool sample_rate_mhz (3 # 10))
     || (Qle_bool (900001 # 1000000) sample_rate_mhz
         && Qle_bool sample_rate_mhz (32 # 10))
  then except_IOError_pass (sdr_set_sample_rate (sample_rate_mhz * 1000000) io)
  else r ← get_sample_rate; modify (with_sample_rate (Some r)).

(** [set_gain(gain_db)]. *)
Definition set_gain (gain_db : setting) (io : io_outcome) : M unit :=
  match gain_db with
  | AUTO =>
      sdr_set_manual_gain_enabled false io;;
      modify (with_auto_gain true);;
      _clear_intensity
  | Value db =>
      except_IOError_pass
        (sdr_set_gain db io;;
         modify (with_auto_gain false);;
         _clear_intensity)
  end.

(** [set_min_intensity(intensity)]. *)
Definition set_min_intensity (intensity : setting) : M unit :=
  match intensity with
  | AUTO => modify (with_min_auto_scale true)
  | Value q =>
      modify (with_min_auto_scale false);;
      modify (with_min_intensity (Some (Fin q)))
  end;;
  _clear_intensity.

(** [set_max_intensity(intensity)]. *)
Definition set_max_intensity (intensity : setting) : M unit :=
  match intensity with
  | AUTO => modify (with_max_auto_scale true)
  | Value q =>
      modify (with_max_auto_scale false);;
      modify (with_max_intensity (Some (Fin q)))
  end;;
  _clear_intensity.

(** [set_fft_ave(fft_ave)]: the else branch stores the method, not its
    result. *)
Definition set_fft_ave (v : Q) : M unit :=
  if Qltb 1 v then modify (with_fft_ave (AveInt (py_int v)))
  else modify (with_fft_ave AveBoundMethod).

(** [set_zoom_fac(zoom_fac)]. *)
Definition set_zoom_fac (v : Q) : M unit := modify (with_zoom_fac v).

Definition set_filter (name : string) : M unit := modify (with_filter name).

Definition set_kaiser_beta (v : Q) : M unit := modify (with_kaiser_beta v).

(** *** model.py: [get_freq_step] and [get_data] *)

(** The block that opens both [get_freq_step] and [get_data]: the zoom bin
    count, and the reset of [zoom_fac] when it is not below the sample
    rate. *)
Definition zoom_bins : M Z :=
  zf ← gets zoom_fac;
  sr ← gets (fun m => sdr_sample_rate (sdr m) / 1000000)%Q;
  if Qltb zf sr then
    r ← lift (py_div sr zf);
    w ← gets width;
    ret (py_int (inject_Z w * r))
  else
    w ← gets width;
    r ← get_sample_rate;
    modify (with_zoom_fac r);;
    ret w.

(** [get_freq_step]. *)
Definition get_freq_step : M Q :=
  zoom ← zoom_bins;
  hz ← gets (fun m => sdr_sample_rate (sdr m));
  lift (py_div hz (inject_Z (zoom + 2))).

(** What [window] is bound to before [samples = freqbins * window]: an
    array of coefficients, or the integer [1] of the final [else]. *)
Inductive window_value : Type :=
| WArray (w : list Q)
| WScalar (c : Q).

(** The [if]/[elif] chain on [self.filter]. *)
Definition select_window (name : string) (beta : Q) (zoom : Z) : window_value :=
  let cut coef := WArray (py_slice 0 (zoom + 2) (window_of coef SDR_SAMPLE_SIZE)) in
  if String.eqb name "kaiser" then cut (fun M => kaiser M beta)
  else if String.eqb name "boxcar" then cut boxcar
  else if String.eqb name "hann" then cut hann
  else if String.eqb name "hamming" then cut hamming
  else if String.eqb name "blackman" then cut blackman
  else if String.eqb name "blackmanharris" then cut blackmanharris
  else if String.eqb name "bartlett" then cut bartlett
  else if String.eqb name "barthann" then cut barthann
  else if String.eqb name "nuttall" then cut nuttall
  else WScalar 1.

(** [freqbins * window]. *)
Definition apply_window (freqbins : list sample) (window : window_value)
  : result (list sample) :=
  match window with
  | WArray w => np_multiply smul freqbins w
  | WScalar c => Ok (map (fun s => smul s c) freqbins)
  end.

(** The crop offsets of [get_data]: [lextra], bound only on the paths the
    source binds it, and [rextra]. *)
Definition crop_offsets (size w shiftsweep : Z) (swap : pyflag) : result (Z * Z) :=
  let extra_samples := (size - w) / 2 in
  lextra ←
    (if Z.abs shiftsweep <? extra_samples then
       match swap with
       | PTrue => Ok (extra_samples + shiftsweep)
       | PFalse => Ok (extra_samples - shiftsweep)
       | POther => Raise UnboundLocalError
       end
     else Ok extra_samples);
  Ok (lextra, size - (lextra + w)).

(** The body of [if freqs.size > self.width:], given the LO offset in
    pixels. *)
Definition crop_at {A} (shiftsweep : Z) (swap : pyflag) (w : Z) (freqs : list A)
  : result (list A) :=
  '(lextra, rextra) ← crop_offsets (Z.of_nat (length freqs)) w shiftsweep swap;
  Ok (py_slice lextra (- rextra) freqs).

(** The body of [if freqs.size > self.width:]. *)
Definition crop (freqs : list Q) : M (list Q) :=
  freq_step ← get_freq_step;
  lo ← get_lo_offset;
  q ← lift (py_div (lo * 1000000) freq_step);
  let shiftsweep := py_int q in
  w ← gets width;
  swap ← get_swap_iq;
  lift (crop_at shiftsweep swap w freqs).

(** [20.0*np.log10(freqs)]. *)
Definition to_decibels (freqs : list Q) : list fval :=
  map (fun x => fscale 20 (np_log10 log10 x)) freqs.

(** The end of [get_data], statement by statement: the auto-scaled lower
    bound, the auto-scaled upper bound, and [self.range]. *)
Definition track_min (freqs : list fval) : M unit :=
  a ← gets min_auto_scale;
  if a : bool then
    lo ← lift (np_min freqs);
    cur ← gets min_intensity;
    modify (with_min_intensity
              (Some (match cur with None => lo | Some c => py_min lo c end)))
  else ret tt.

Definition track_max (freqs : list fval) : M unit :=
  b ← gets max_auto_scale;
  if b : bool then
    hi ← lift (np_max freqs);
    cur ← gets max_intensity;
    modify (with_max_intensity
              (Some (match cur with None => hi | Some c => py_max hi c end)))
  else ret tt.

Definition set_range : M unit :=
  hi ← gets max_intensity;
  lo ← gets min_intensity;
  match hi, lo with
  | Some h, Some l => modify (with_range (Some (fsub h l)))
  | _, _ => raise TypeError
  end.

Definition update_intensity (freqs : list fval) : M unit :=
  track_min freqs;;
  track_max freqs;;
  set_range.

(** The second [if] of [get_data]: the guard on the acquisition size. *)
Definition guard_zoom (zoom : Z) : M Z :=
  if zoom <? SDR_SAMPLE_SIZE then ret zoom
  else
    w ← gets width;
    r ← get_sample_rate;
    modify (with_zoom_fac r);;
    ret w.

(** [get_data], up to the magnitudes that are converted to decibels. *)
Definition get_magnitudes : M (list Q) :=
  zoom ← zoom_bins;
  zoom ← guard_zoom zoom;
  raw ← read_samples SDR_SAMPLE_SIZE;
  let freqbins := py_slice 0 (zoom + 2) raw in
  name ← gets filter;
  beta ← gets kaiser_beta;
  samples ← lift (apply_window freqbins (select_window name beta zoom));
  freqs ← lift (fft_abs samples);
  let freqs := py_slice 1 (-1) freqs in
  swap ← gets swap_iq;
  let freqs := match swap with PTrue => reverse freqs | _ => freqs end in
  let freqs := fftshift freqs in
  w ← gets width;
  if w <? Z.of_nat (length freqs) then crop freqs else ret freqs.

(** [get_data]. *)
Definition get_data : M (list fval) :=
  mags ← get_magnitudes;
  let freqs := to_decibels mags in
  update_intensity freqs;;
  ret freqs.

(** [FreqShowModel.__init__(width, height)] on a freshly opened tuner, the
    driver accepting every call.  The calls that only store an attribute no
    function here reads ([set_freq_correction], [set_tune_rate],
    [set_sig_strength]) are left out. *)
Definition model_init (w h : Z) (dev : RtlSdr) : result (unit * FreqShowModel) :=
  (set_min_intensity (Value (-10));;
   set_max_intensity (Value 50);;
   set_swap_iq PTrue;;
   set_sample_rate (230 # 1000) IoOk;;
   set_zoom_fac (5 # 100);;
   set_lo_offset (3 # 100);;
   set_center_freq (704515 # 10000) IoOk;;
   set_gain AUTO IoOk;;
   set_fft_ave 3;;
   set_kaiser_beta (86 # 10);;
   set_peak PTrue;;
   set_filter "nuttall")
    {| width := w; height := h; min_auto_scale := true; max_auto_scale := true;
       min_intensity := None; max_intensity := None; range := None;
       sdr := dev; swap_iq := POther; zoom_fac := 0; lo_offset := 0;
       center_freq := 0; auto_gain := false; fft_ave := AveBoundMethod;
       peak := POther; filter := ""; kaiser_beta := 0; sample_rate := None |}.

End Model.

(** ** views.py: the frame history of [InstantSpectrogram] *)

Section Views.
Context `{SignalLib}.

(** The attributes of an [InstantSpectrogram] that hold frames. *)
Record InstantSpectrogram : Type := {
  checkfirst : Z;
  freqsfirst : list fval;
  freqsinit : array2;
  freqgrabs : array2
}.

(** [self.model.fft_ave], where an integer is needed. *)
Definition fft_ave_int : M Z :=
  a ← gets fft_ave;
  match a with
  | AveInt n => ret n
  | AveBoundMethod => raise TypeError
  end.

(** The four assignments that build the history, in [__init__] and in the
    reinitialisation branch of [render_spectrogram]. *)
Definition fill_history : M InstantSpectrogram :=
  n ← fft_ave_int;
  let checkfirst := n + 1 in
  freqsfirst ← get_data;
  freqsinit ← lift (np_tile freqsfirst checkfirst);
  ret {| checkfirst := checkfirst; freqsfirst := freqsfirst;
         freqsinit := freqsinit; freqgrabs := freqsinit |}.

(** [InstantSpectrogram.__init__]. *)
Definition InstantSpectrogram_init : M InstantSpectrogram := fill_history.

(** [for i in range(1, fft_ave+1): np.copyto(freqgrabs[i-1], freqgrabs[i])]. *)
Fixpoint shift_rows (a : array2) (indices : list Z) : result array2 :=
  match indices with
  | [] => Ok a
  | i :: rest =>
      src ← py_getitem a i;
      a' ← copyto_row a (i - 1) src;
      shift_rows a' rest
  end.

(** The reduction of the history to the displayed frame. *)
Definition reduce_history (pk : pyflag) (a : array2) : result (list fval) :=
  match pk with
  | PTrue => np_max_axis0 a
  | PFalse => np_average_axis0 a
  | POther => Raise UnboundLocalError
  end.

(** [render_spectrogram] of [InstantSpectrogram], down to the reduced
    [freqs] that the drawing code scales and plots. *)
Definition render_spectrogram (v : InstantSpectrogram)
  : M (list fval * InstantSpectrogram) :=
  freqslast ← get_data;
  n ← fft_ave_int;
  v ← (if negb (Nat.eqb (length (freqsfirst v)) (length freqslast))
          || negb (checkfirst v =? n + 1)
       then fill_history
       else ret v);
  n ← fft_ave_int;
  grabs ← lift (shift_rows (freqgrabs v) (py_range 1 (n + 1)));
  grabs ← lift (copyto_row grabs n freqslast);
  pk ← get_peak;
  freqs ← lift (reduce_history pk grabs);
  ret (freqs, {| checkfirst := checkfirst v; freqsfirst := freqsfirst v;
                 freqsinit := freqsinit v; freqgrabs := grabs |}).

End Views.


(** ** Sequences of calls, and the predicates of the statements *)

Section Calls.
Context `{SignalLib}.

(** The tuner's sample rate in megahertz, as [get_sample_rate] returns it. *)
Definition full_rate (m : FreqShowModel) : Q :=
  (sdr_sample_rate (sdr m) / 1000000)%Q.

(** A call of one of the model's setters, with its argument and, where the
    setter talks to the tuner, with what the driver did. *)
Inductive setter_call : Type :=
| Call_set_center_freq (value : Q) (io : io_outcome)
| Call_set_sample_rate (sample_rate_mhz : Q) (io : io_outcome)
| Call_set_gain (gain_db : setting) (io : io_outcome)
| Call_set_zoom_fac (zoom_fac : Q)
| Call_set_min_intensity (intensity : setting)
| Call_set_max_intensity (intensity : setting)
| Call_set_swap_iq (swap_iq : pyflag)
| Call_set_peak (peak : pyflag)
| Call_set_lo_offset (lo_offset : Q)
| Call_set_fft_ave (fft_ave : Q)
| Call_set_filter (name : string)
| Call_set_kaiser_beta (beta : Q).

Definition run_call (c : setter_call) : M unit :=
  match c with
  | Call_set_center_freq v io => set_center_freq v io
  | Call_set_sample_rate v io => set_sample_rate v io
  | Call_set_gain g io => set_gain g io
  | Call_set_zoom_fac v => set_zoom_fac v
  | Call_set_min_intensity i => set_min_intensity i
  | Call_set_max_intensity i => set_max_intensity i
  | Call_set_swap_iq v => set_swap_iq v
  | Call_set_peak v => set_peak v
  | Call_set_lo_offset v => set_lo_offset v
  | Call_set_fft_ave v => set_fft_ave v
  | Call_set_filter s => set_filter s
  | Call_set_kaiser_beta v => set_kaiser_beta v
  end.

Fixpoint run_calls (cs : list setter_call) : M unit :=
  match cs with
  | [] => ret tt
  | c :: rest => run_call c;; run_calls rest
  end.

(** The calls that reach [_clear_intensity]: [set_center_freq], [set_gain]
    unless the driver refused a numeric gain, and the two intensity
    setters. *)
Definition reaches_clear (c : setter_call) : bool :=
  match c with
  | Call_set_center_freq _ _ => true
  | Call_set_gain AUTO _ => true
  | Call_set_gain (Value _) IoOk => true
  | Call_set_gain (Value _) IoFails => false
  | Call_set_min_intensity _ => true
  | Call_set_max_intensity _ => true
  | _ => false
  end.

(** Every bound in auto mode is unresolved, and so is the range. *)
Definition intensity_cleared (m : FreqShowModel) : Prop :=
  (min_auto_scale m = true -> min_intensity m = None)
  /\ (max_auto_scale m = true -> max_intensity m = None)
  /\ range m = None.

(** A bound that is not auto-scaled holds the value the user set. *)
Definition fixed_bounds_set (m : FreqShowModel) : Prop :=
  (min_auto_scale m = false -> min_intensity m <> None)
  /\ (max_auto_scale m = false -> max_intensity m <> None).

(** A bound is unresolved or finite. *)
Definition finite_or_unset (b : option fval) : Prop :=
  match b with
  | None => True
  | Some v => is_finite v
  end.

(** The driver's contract for the next [read_samples(SDR_SAMPLE_SIZE)]. *)
Definition next_read_full (m : FreqShowModel) : Prop :=
  exists raw, sdr_stream (sdr m) (sdr_reads (sdr m)) = Ok raw
              /\ Z.of_nat (length raw) = SDR_SAMPLE_SIZE.

(** [n] calls of [get_data] in a row, with the frames they return. *)
Fixpoint get_frames (n : nat) : M (list (list fval)) :=
  match n with
  | O => ret []
  | S k =>
      frame ← get_data;
      frames ← get_frames k;
      ret (frame :: frames)
  end.

(** The history is a 2-d array of [checkfirst] rows as long as
    [freqsfirst]. *)
Definition history_shaped (v : InstantSpectrogram) : Prop :=
  Z.of_nat (length (freqgrabs v)) = checkfirst v
  /\ Forall (fun row => length row = length (freqsfirst v)) (freqgrabs v).

(** Column [i] of a 2-d array. *)
Definition column (i : nat) (a : array2) : list fval :=
  omap (fun row => row !! i) a.

(** [r] is the maximum of the values [col] as [np.max] defines it: one of
    the values, NaN if one of them is, and otherwise no smaller than any. *)
Definition is_np_max (r : fval) (col : list fval) : Prop :=
  r ∈ col
  /\ (Exists (fun x => is_nan x = true) col -> is_nan r = true)
  /\ (Forall (fun x => is_nan x = false) col ->
      Forall (fun x => fle x r = true) col).

(** A computation keeps a relation between the object before and after
    it, whenever it returns. *)
Definition keeps {A} (P : FreqShowModel -> FreqShowModel -> Prop) (c : M A) : Prop :=
  forall m a m', c m = Ok (a, m') -> P m m'.

(** The attributes that acquiring a frame never writes. *)
Definition same_settings (m m' : FreqShowModel) : Prop :=
  width m' = width m
  /\ min_auto_scale m' = min_auto_scale m
  /\ max_auto_scale m' = max_auto_scale m
  /\ swap_iq m' = swap_iq m
  /\ lo_offset m' = lo_offset m
  /\ fft_ave m' = fft_ave m
  /\ peak m' = peak m
  /\ filter m' = filter m
  /\ sdr_sample_rate (sdr m') = sdr_sample_rate (sdr m)
  /\ sdr_stream (sdr m') = sdr_stream (sdr m).

Definition same_bounds (m m' : FreqShowModel) : Prop :=
  same_settings m m'
  /\ min_intensity m' = min_intensity m
  /\ max_intensity m' = max_intensity m.

(** The window shapes that [get_data] tests for. *)
Definition recognized_shapes : list string :=
  ["kaiser"; "boxcar"; "hann"; "hamming"; "blackman"; "blackmanharris";
   "bartlett"; "barthann"; "nuttall"]%string.

(** What a frame does to the bounds in auto mode: each is resolved and
    finite afterwards, the lower one no higher and the upper one no lower
    than before. *)
Definition widened (m m' : FreqShowModel) : Prop :=
  (exists lo', min_intensity m' = Some lo' /\ is_finite lo'
     /\ forall lo, min_intensity m = Some lo -> fle lo' lo = true)
  /\ (exists hi', max_intensity m' = Some hi' /\ is_finite hi'
     /\ forall hi, max_intensity m = Some hi -> fle hi hi' = true).

(** The lower bound is left as it was. *)
Definition same_min (m m' : FreqShowModel) : Prop :=
  min_intensity m' = min_intensity m.

(** A rectangular array: every row has [n] entries. *)
Definition rows_of_length (n : nat) (a : array2) : Prop :=
  Forall (fun row => length row = n) a.

(** A configuration on which [get_data] is meant to run. *)
Definition valid_config (m : FreqShowModel) : Prop :=
  1 <= width m <= SDR_SAMPLE_SIZE - 2
  /\ (0 < zoom_fac m)%Q
  /\ (0 < full_rate m)%Q
  /\ (exists z m1, zoom_bins m = Ok (z, m1) /\ z < SDR_SAMPLE_SIZE)
  /\ is_boolean (swap_iq m)
  /\ fixed_bounds_set m
  /\ (forall k, exists raw,
        sdr_stream (sdr m) k = Ok raw
        /\ Z.of_nat (length raw) = SDR_SAMPLE_SIZE).

End Calls.

(** ** An executable instance and sample objects

    The theorems below hold for every [SignalLib].  To run the functions on
    data, this instance takes real-valued samples, the identity in place of
    the transform, a coarse rational logarithm and flat tapers. *)

Definition bench_log10 (q : Q) : Q :=
  (inject_Z (Z.log2 (Qnum q) - Z.log2 (Z.pos (Qden q))) * (30103 # 100000))%Q.

Definition BenchLib : SignalLib :=
  {| sample := Q;
     smul := Qmult;
     dft_mag := fun xs k => Qabs (nth k xs 0%Q);
     log10 := bench_log10;
     kaiser := fun _ _ _ => 1%Q;
     hann := fun _ _ => 1%Q;
     hamming := fun _ _ => 1%Q;
     blackman := fun _ _ => 1%Q;
     blackmanharris := fun _ _ => 1%Q;
     bartlett := fun _ _ => 1%Q;
     barthann := fun _ _ => 1%Q;
     nuttall := fun _ _ => 1%Q |}.

(** The sample that fills batch number [k]: 1, 2, 4, then 8 for ever. *)
Definition bench_level (k : nat) : @sample BenchLib :=
  match k with
  | O => 1%Q
  | S O => 2%Q
  | S (S O) => 4%Q
  | _ => 8%Q
  end.

(** The levels in decibels that [BenchLib] gives those batches. *)
Definition db0 : Q := 0 # 100000.
Definition db6 : Q := 602060 # 100000.
Definition db12 : Q := 1204120 # 100000.
Definition db18 : Q := 1806180 # 100000.

(** A tuner that delivers full batches of a constant sample. *)
Definition bench_sdr : @RtlSdr BenchLib :=
  {| sdr_sample_rate := 0; sdr_center_freq := 0; sdr_gain := 0;
     sdr_manual_gain := false; sdr_reads := 0;
     sdr_stream := fun k =>
       Ok (replicate (Z.to_nat SDR_SAMPLE_SIZE) (bench_level k)) |}.

Definition bench_sdr_tuned (reads : nat) : @RtlSdr BenchLib :=
  {| sdr_sample_rate := (230 # 1000) * 1000000;
     sdr_center_freq := ((704515 # 10000) + (3 # 100)) * 1000000;
     sdr_gain := 0; sdr_manual_gain := false; sdr_reads := reads;
     sdr_stream := sdr_stream bench_sdr |}.

(** The object that [FreqShowModel(320, 240)] builds on that tuner. *)
Definition bench_model : @FreqShowModel BenchLib :=
  {| width := 320; height := 240;
     min_auto_scale := false; max_auto_scale := false;
     min_intensity := Some (Fin (-10)); max_intensity := Some (Fin 50);
     range := None; sdr := bench_sdr_tuned 0;
     swap_iq := PTrue; zoom_fac := 5 # 100; lo_offset := 3 # 100;
     center_freq := 704515 # 10000; auto_gain := true;
     fft_ave := AveInt 3; peak := PTrue; filter := "nuttall";
     kaiser_beta := 86 # 10; sample_rate := None |}.

(** The same object on a display 8191 pixels wide, the zoom span set to the
    sample rate. *)
Definition wide_model : @FreqShowModel BenchLib :=
  with_zoom_fac (230 # 1000)
    {| width := 8191; height := 240;
       min_auto_scale := false; max_auto_scale := false;
       min_intensity := Some (Fin (-10)); max_intensity := Some (Fin 50);
       range := None; sdr := bench_sdr_tuned 0;
       swap_iq := PTrue; zoom_fac := 5 # 100; lo_offset := 3 # 100;
       center_freq := 704515 # 10000; auto_gain := true;
       fft_ave := AveInt 3; peak := PTrue; filter := "nuttall";
       kaiser_beta := 86 # 10; sample_rate := None |}.

(** [bench_model] after [set_zoom_fac(0.008985)]: 8191 zoom bins. *)
Definition edge_model : @FreqShowModel BenchLib :=
  with_zoom_fac (8985 # 1000000) bench_model.

(** [bench_model] after [set_zoom_fac(0.005)]: 14720 zoom bins. *)
Definition deep_zoom_model : @FreqShowModel BenchLib :=
  with_zoom_fac (5 # 1000) bench_model.

(** [bench_model] after [set_min_intensity('AUTO')] and
    [set_max_intensity('AUTO')]. *)
Definition auto_model : @FreqShowModel BenchLib :=
  with_range None
    (with_max_intensity None
       (with_max_auto_scale true
          (with_range None
             (with_min_intensity None (with_min_auto_scale true bench_model))))).

(** A tuner whose batches are all zero, and [auto_model] on it. *)
Definition silent_sdr : @RtlSdr BenchLib :=
  {| sdr_sample_rate := sdr_sample_rate (bench_sdr_tuned 0);
     sdr_center_freq := sdr_center_freq (bench_sdr_tuned 0);
     sdr_gain := 0; sdr_manual_gain := false; sdr_reads := 0;
     sdr_stream := fun _ =>
       Ok (replicate (Z.to_nat SDR_SAMPLE_SIZE) (0%Q : @sample BenchLib)) |}.

Definition silent_model : @FreqShowModel BenchLib := with_sdr silent_sdr auto_model.

(** An auto-scaled model on a display four pixels wide, showing the full
    sample rate. *)
Definition small_model : @FreqShowModel BenchLib :=
  {| width := 4; height := 3;
     min_auto_scale := true; max_auto_scale := true;
     min_intensity := None; max_intensity := None;
     range := None; sdr := bench_sdr_tuned 0;
     swap_iq := PTrue; zoom_fac := 230 # 1000; lo_offset := 3 # 100;
     center_freq := 704515 # 10000; auto_gain := true;
     fft_ave := AveInt 3; peak := PTrue; filter := "nuttall";
     kaiser_beta := 86 # 10; sample_rate := None |}.

(** [small_model] after [k] frames, with the bounds that auto-scaling has
    reached. *)
Definition small_model_after (k : nat) (lo hi : Q) : @FreqShowModel BenchLib :=
  with_range (Some (Fin (hi - lo)))
    (with_max_intensity (Some (Fin hi))
       (with_min_intensity (Some (Fin lo))
          (with_zoom_fac (full_rate small_model)
             (with_sdr (bench_sdr_tuned k) small_model)))).

(** The [InstantSpectrogram] built on [small_model]: four rows of the first
    frame. *)
Definition small_view : @InstantSpectrogram :=
  {| checkfirst := 4;
     freqsfirst := replicate 4 (Fin db0);
     freqsinit := replicate 4 (replicate 4 (Fin db0));
     freqgrabs := replicate 4 (replicate 4 (Fin db0)) |}.

(** [small_view] after the frame of batch 1 has been pushed. *)
Definition small_view_pushed : @InstantSpectrogram :=
  {| checkfirst := 4;
     freqsfirst := replicate 4 (Fin db0);
     freqsinit := replicate 4 (replicate 4 (Fin db0));
     freqgrabs := replicate 3 (replicate 4 (Fin db0)) ++ [replicate 4 (Fin db6)] |}.

(** The history rebuilt for [fft_ave = 2] from the frame of batch 2, the
    frame of batch 1 pushed into it. *)
Definition small_view_rebuilt : @InstantSpectrogram :=
  {| checkfirst := 3;
     freqsfirst := replicate 4 (Fin db12);
     freqsinit := replicate 3 (replicate 4 (Fin db12));
     freqgrabs := replicate 2 (replicate 4 (Fin db12)) ++ [replicate 4 (Fin db6)] |}.


(** ** views.py: the text that [NumberDialog] edits *)

Module NumberDialog.

(** [s[lo:hi]] on a str. *)
Definition str_slice (lo hi : Z) (s : string) : string :=
  string_of_list_ascii (py_slice lo hi (list_ascii_of_string s)).

(** [s.find(c)] for a single character [c]: the first position of [c], or
    -1. *)
Fixpoint str_find (c : ascii) (s : string) : Z :=
  match s with
  | EmptyString => -1
  | String a rest =>
      if Ascii.eqb a c then 0
      else let k := str_find c rest in if k <? 0 then -1 else k + 1
  end.

(** [auto_click]. *)
Definition auto_click (value : string) : string := "AUTO".

(** [clear_click]. *)
Definition clear_click (value : string) : string := "0".

(** [delete_click]. *)
Definition delete_click (value : string) : string :=
  if String.eqb value "AUTO" then value
  else if 1 <? Z.of_nat (String.length value) then str_slice 0 (-1) value
  else "0".

(** [decimal_click]. *)
Definition decimal_click (value : string) : string :=
  if String.eqb value "AUTO" then "0."
  else if str_find "." value =? -1 then (value ++ ".")%string
  else value.

(** [number_click], for a button whose text is [text]. *)
Definition number_click (text value : string) : string :=
  if String.eqb value "0" || String.eqb value "AUTO" then text
  else (value ++ text)%string.

(** [posneg_click]; [self.value[0]] raises on the empty string. *)
Definition posneg_click (value : string) : result string :=
  if String.eqb value "AUTO" then Ok value
  else
    c ← py_getitem (list_ascii_of_string value) 0;
    if Ascii.eqb c "-"
    then Ok (str_slice 1 (Z.of_nat (String.length value)) value)
    else Ok ("-" ++ value)%string.

(** The buttons of the dialog that edit the value. *)
Inductive key : Type :=
| Key_digit (text : string)
| Key_decimal
| Key_delete
| Key_clear
| Key_posneg
| Key_auto.

(** The texts of the ten buttons that [__init__] binds to [number_click]. *)
Definition digit_texts : list string :=
  ["1"; "2"; "3"; "4"; "5"; "6"; "7"; "8"; "9"; "0"]%string.

(** The buttons that [__init__] adds: CLEAR unless [allow_negative], +/-
    with it, AUTO with [has_auto]. *)
Definition has_key (has_auto allow_negative : bool) (k : key) : Prop :=
  match k with
  | Key_digit text => text ∈ digit_texts
  | Key_clear => allow_negative = false
  | Key_posneg => allow_negative = true
  | Key_auto => has_auto = true
  | Key_decimal | Key_delete => True
  end.

(** A click on one button, and on several in a row. *)
Definition click (k : key) (value : string) : result string :=
  match k with
  | Key_digit text => Ok (number_click text value)
  | Key_decimal => Ok (decimal_click value)
  | Key_delete => Ok (delete_click value)
  | Key_clear => Ok (clear_click value)
  | Key_posneg => posneg_click value
  | Key_auto => Ok (auto_click value)
  end.

Fixpoint clicks (ks : list key) (value : string) : result string :=
  match ks with
  | [] => Ok value
  | k :: rest => v ← click k value; clicks rest v
  end.

(** The number of decimal points in a text. *)
Definition dots (s : string) : nat :=
  count_occ ascii_dec (list_ascii_of_string s) "."%char.

(** A text that is not ['AUTO'] and starts with a character other than the
    minus sign. *)
Definition unsigned (value : string) : Prop :=
  value <> "AUTO"%string
  /\ exists c rest, value = String c rest /\ c <> "-"%char.

End NumberDialog.

(** Every channel of a colour lies between [lo] and [hi]. *)
Definition channels_within (lo hi : Z) (c : Gradient.color) : Prop :=
  let '(r, g, b) := c in lo <= r <= hi /\ lo <= g <= hi /\ lo <= b <= hi.

(** ** What the views do to the model, one step after the other *)

Section Sessions.
Context `{SignalLib}.

(** A setter call, or a frame acquired with [get_data] and drawn. *)
Inductive action : Type :=
| Do_call (c : setter_call)
| Do_frame.

Definition run_action (a : action) : M unit :=
  match a with
  | Do_call c => run_call c
  | Do_frame => get_data;; ret tt
  end.

Fixpoint run_actions (acts : list action) : M unit :=
  match acts with
  | [] => ret tt
  | a :: rest => run_action a;; run_actions rest
  end.

Definition sets_min (a : action) : bool :=
  match a with Do_call (Call_set_min_intensity _) => true | _ => false end.

Definition sets_max (a : action) : bool :=
  match a with Do_call (Call_set_max_intensity _) => true | _ => false end.

(** The lower bound's mode is kept, and so is the bound when it is fixed. *)
Definition min_side_kept (m m' : FreqShowModel) : Prop :=
  min_auto_scale m' = min_auto_scale m
  /\ (min_auto_scale m = false -> min_intensity m' = min_intensity m).

Definition max_side_kept (m m' : FreqShowModel) : Prop :=
  max_auto_scale m' = max_auto_scale m
  /\ (max_auto_scale m = false -> max_intensity m' = max_intensity m).

(** The zoom span is kept or reset to the sample rate, which is kept. *)
Definition zoom_kept_or_reset (m m' : FreqShowModel) : Prop :=
  full_rate m' = full_rate m
  /\ (zoom_fac m' = zoom_fac m \/ zoom_fac m' = full_rate m).

(** The two bands of sample rates, in megahertz, that [set_sample_rate]
    passes on to the tuner. *)
Definition in_rate_band (v : Q) : Prop :=
  ((225001 # 1000000) <= v <= (3 # 10))%Q
  \/ ((900001 # 1000000) <= v <= (32 # 10))%Q.

End Sessions.

(** [small_model] after [set_min_intensity(-5)]. *)
Definition small_fixed_model : @FreqShowModel BenchLib :=
  with_range None
    (with_min_intensity (Some (Fin (-5))) (with_min_auto_scale false small_model)).

(** [small_fixed_model] after [set_zoom_fac(0.1)], one frame and
    [set_center_freq(70.5)]. *)
Definition small_fixed_model_later : @FreqShowModel BenchLib :=
  with_range None
    (with_max_intensity None
       (with_sdr
          {| sdr_sample_rate := sdr_sample_rate (bench_sdr_tuned 1);
             sdr_center_freq := ((705 # 10) + (3 # 100)) * 1000000;
             sdr_gain := 0; sdr_manual_gain := false; sdr_reads := 1;
             sdr_stream := sdr_stream bench_sdr |}
          (with_center_freq (705 # 10)
             (with_min_intensity (Some (Fin (-5)))
                (with_zoom_fac (1 # 10)
                   (with_min_auto_scale false small_model)))))).

(** ** views.py: [BooleanDialog] and the handlers of [SettingsList] that take
    its value *)

Section BooleanDialog.
Context `{SignalLib}.









End BooleanDialog.


(** ** views.py: scaling a frame and drawing it *)

(** float64 division as numpy does it on arrays: nothing is raised, a zero
    divisor gives an infinity or NaN.  (A zero divisor here is the [+0.0]
    that a difference of equal floats gives.) *)
Definition fdiv (a b : fval) : fval :=
  match a, b with
  | NaN, _ => NaN
  | _, NaN => NaN
  | Fin x, Fin y =>
      if Qeq_bool y 0 then
        if Qeq_bool x 0 then NaN else if Qltb 0 x then PosInf else NegInf
      else Fin (x / y)
  | Fin _, PosInf => Fin 0
  | Fin _, NegInf => Fin 0
  | PosInf, Fin y => if Qltb y 0 then NegInf else PosInf
  | NegInf, Fin y => if Qltb y 0 then PosInf else NegInf
  | PosInf, PosInf => NaN
  | PosInf, NegInf => NaN
  | NegInf, PosInf => NaN
  | NegInf, NegInf => NaN
  end.

(** A float64 times a Python int. *)
Definition fmul_int (a : fval) (k : Z) : fval :=
  match a with
  | NaN => NaN
  | Fin x => Fin (x * inject_Z k)
  | PosInf => if k =? 0 then NaN else if 0 <? k then PosInf else NegInf
  | NegInf => if k =? 0 then NaN else if 0 <? k then NegInf else PosInf
  end.

(** [np.floor]. *)
Definition np_floor (a : fval) : fval :=
  match a with
  | Fin x => Fin (inject_Z (Qfloor x))
  | other => other
  end.

(** [clamp(x, x0, x1)] on float64 values: both comparisons are false on
    NaN, which is returned as it is. *)
Definition clamp_f (x x0 x1 : fval) : fval :=
  if flt x1 x then x1 else if flt x x0 then x0 else x.

(** [self.color_func(power)] of [WaterfallSpectrogram] on a float64: the
    two comparisons of [_fun] decide for the infinities, and [int()] refuses
    NaN. *)
Definition color_func_f (power : fval) : result Gradient.color :=
  match power with
  | Fin q => Gradient.color_func q
  | NegInf => py_getitem Gradient.WATERFALL_GRAD 0
  | PosInf => py_getitem Gradient.WATERFALL_GRAD (-1)
  | NaN => Raise ValueError
  end.

(** A [for] loop that collects what its body returns and stops at the first
    exception. *)
Fixpoint for_each {A B} (body : A -> result B) (l : list A) : result (list B) :=
  match l with
  | [] => Ok []
  | a :: rest =>
      b ← body a;
      bs ← for_each body rest;
      Ok (b :: bs)
  end.

(** One element of [(freqs - min_intensity) / range]. *)
Definition scale_value (lo r v : fval) : fval := fdiv (fsub v lo) r.

(** One element of [height - np.floor(scaled * height)]. *)
Definition plot_height (height : Z) (t : fval) : fval :=
  fsub (Fin (inject_Z height)) (np_floor (fmul_int t height)).

(** A point and a line segment of [pygame.draw.line]. *)
Definition point : Type := (Z * fval)%type.
Definition line : Type := (point * point)%type.

(** The loop that joins the bins of [InstantSpectrogram.render_spectrogram]:
    for every [i], the trace segment and the shadow below it. *)
Fixpoint plot_lines_from (height : Z) (freqs : list fval) (ylast : fval)
    (indices : list Z) : result (list line) :=
  match indices with
  | [] => Ok []
  | i :: rest =>
      y ← py_getitem freqs (i - 1);
      lines ← plot_lines_from height freqs y rest;
      Ok (((i - 1, ylast), (i, y))
          :: ((i, fadd y (Fin 3)), (i, Fin (inject_Z height)))
          :: lines)
  end.

(** [ylast = freqs[0]] and the loop over [range(1, width)]. *)
Definition plot_lines (height width : Z) (freqs : list fval) : result (list line) :=
  ylast ← py_getitem freqs 0;
  plot_lines_from height freqs ylast (py_range 1 width).

Section Drawing.
Context `{SignalLib}.

(** [(freqs - self.model.min_intensity) / self.model.range]. *)
Definition normalise (freqs : list fval) : M (list fval) :=
  lo ← gets min_intensity;
  r ← gets range;
  match lo, r with
  | Some lo, Some r => ret (map (scale_value lo r) freqs)
  | _, _ => raise TypeError
  end.

(** [WaterfallSpectrogram.render_spectrogram]: the colours set at the pixels
    [(i, wheight - 1)] of the waterfall, for [i] in [range(width)] of the
    screen. *)
Definition waterfall_row (screen_width : Z) : M (list Gradient.color) :=
  freqs ← get_data;
  freqs ← normalise freqs;
  lift (for_each
          (fun i => v ← py_getitem freqs i;
                    color_func_f (clamp_f v (Fin 0) (Fin 1)))
          (py_range 0 screen_width)).

(** [InstantSpectrogram.render_spectrogram] after the reduction: the
    heights of the bins on a screen [height] pixels high. *)
Definition plot_heights (height : Z) (freqs : list fval) : M (list fval) :=
  scaled ← normalise freqs;
  ret (map (plot_height height) scaled).

End Drawing.

(** ** views.py and model.py: the averaging depth from its dialog *)

Section FftAveDialog.
Context `{SignalLib}.

(** [int(text)] on a str, Python's builtin. *)
Variable int_of_str : string -> result Z.



End FftAveDialog.



(** ** Facts about the Python primitives *)

Lemma clip_index_range (len i : Z) :
  0 <= len -> 0 <= clip_index len i <= len.
Proof. unfold clip_index. destruct (i <? 0) eqn:E; lia. Qed.

Lemma py_slice_length {A} (lo hi : Z) (l : list A) :
  Z.of_nat (length (py_slice lo hi l)) =
  Z.max 0 (clip_index (Z.of_nat (length l)) hi
           - clip_index (Z.of_nat (length l)) lo).
Proof.
  unfold py_slice. rewrite length_take, length_drop.
  pose proof (clip_index_range (Z.of_nat (length l)) lo ltac:(lia)).
  pose proof (clip_index_range (Z.of_nat (length l)) hi ltac:(lia)).
  lia.
Qed.

(** A slice from the start: [l[0:k]] for a positive [k]. *)
Lemma py_slice_prefix_length {A} (k : Z) (l : list A) :
  0 <= k ->
  Z.of_nat (length (py_slice 0 k l)) = Z.min k (Z.of_nat (length l)).
Proof.
  intros Hk. rewrite py_slice_length. unfold clip_index.
  destruct (k <? 0) eqn:E; [lia|]. simpl. lia.
Qed.

(** [l[1:-1]] drops both ends. *)
Lemma py_slice_trim_length {A} (l : list A) :
  Z.of_nat (length (py_slice 1 (-1) l)) = Z.max 0 (Z.of_nat (length l) - 2).
Proof. rewrite py_slice_length. unfold clip_index. simpl. lia. Qed.

Lemma fftshift_length {A} (a : list A) : length (fftshift a) = length a.
Proof.
  unfold fftshift. rewrite length_app, length_drop, length_take.
  pose proof (Nat.Div0.div_le_upper_bound (length a) 2 (length a)). lia.
Qed.

Lemma Qltb_true (a b : Q) : Qltb a b = true <-> (a < b)%Q.
Proof.
  unfold Qltb. rewrite negb_true_iff. split.
  - intros E. apply Qnot_le_lt. intros L. apply Qle_bool_iff in L. congruence.
  - intros L. destruct (Qle_bool b a) eqn:E; [|reflexivity].
    apply Qle_bool_iff in E. exfalso. exact (Qlt_not_le _ _ L E).
Qed.

Lemma Qltb_false (a b : Q) : Qltb a b = false <-> (b <= a)%Q.
Proof.
  unfold Qltb. rewrite negb_false_iff. apply Qle_bool_iff.
Qed.

(** [int(q)] of a float no smaller than a non-negative integer [w]. *)
Lemma py_int_lower (q : Q) (w : Z) :
  0 <= w -> (inject_Z w <= q)%Q -> w <= py_int q.
Proof.
  intros Hw Hq. unfold py_int. destruct q as [n d]; simpl Qnum; simpl Qden.
  assert (0 <= n).
  { assert (0 <= n # d)%Q as H0.
    { eapply Qle_trans; [|exact Hq]. unfold Qle; simpl. lia. }
    unfold Qle in H0; simpl in H0. lia. }
  rewrite Z.quot_div_nonneg by lia.
  change (n / Z.pos d) with (Qfloor (n # d)).
  rewrite <- (Qfloor_Z w). apply Qfloor_resp_le. exact Hq.
Qed.

(** ** The crop of [get_data]

    Python 2 divides the two integers of [extra_samples] with a floor, so
    the margin left of the window is never the larger one. *)

Lemma crop_offsets_bounds (size w shiftsweep : Z) (swap : pyflag) :
  w < size -> is_boolean swap ->
  exists lextra rextra,
    crop_offsets size w shiftsweep swap = Ok (lextra, rextra)
    /\ 0 <= lextra /\ 1 <= rextra /\ lextra + w + rextra = size.
Proof.
  intros Hw Hb. unfold crop_offsets.
  pose proof (Z.div_mod (size - w) 2 ltac:(lia)) as Hdm.
  pose proof (Z.mod_pos_bound (size - w) 2 ltac:(lia)) as Hm.
  set (e := (size - w) / 2) in *.
  destruct (Z.abs shiftsweep <? e) eqn:E.
  - apply Z.ltb_lt in E.
    destruct Hb as [-> | ->]; cbn;
      eexists _, _; (split; [reflexivity|]); lia.
  - cbn. eexists _, _; (split; [reflexivity|]). lia.
Qed.

Lemma crop_at_ok {A} (freqs : list A) (w shiftsweep : Z) (swap : pyflag) :
  0 < w -> w < Z.of_nat (length freqs) -> is_boolean swap ->
  exists lextra rextra,
    crop_offsets (Z.of_nat (length freqs)) w shiftsweep swap = Ok (lextra, rextra)
    /\ 0 <= lextra /\ 1 <= rextra
    /\ crop_at shiftsweep swap w freqs = Ok (py_slice lextra (- rextra) freqs)
    /\ Z.of_nat (length (py_slice lextra (- rextra) freqs)) = w
    /\ py_slice lextra (- rextra) freqs <> [].
Proof.
  intros Hpos Hw Hb.
  destruct (crop_offsets_bounds _ w shiftsweep swap Hw Hb)
    as (lextra & rextra & Hoff & Hl & Hr & Hsum).
  exists lextra, rextra.
  assert (Z.of_nat (length (py_slice lextra (- rextra) freqs)) = w) as Hlen.
  { rewrite py_slice_length. unfold clip_index.
    destruct (lextra <? 0) eqn:E1; [lia|].
    destruct (- rextra <? 0) eqn:E2; [|lia]. lia. }
  repeat split; try assumption.
  - unfold crop_at. rewrite Hoff. reflexivity.
  - intros E. rewrite E in Hlen. simpl in Hlen. lia.
Qed.

(** C10.  In the crop step of [get_data], for a spectrum strictly longer
    than the (positive) display width and a boolean [swap_iq]: [lextra] is
    bound and non-negative, [rextra] is at least 1, and the slice
    [freqs[lextra:-rextra]] is non-empty and holds exactly [width] values,
    whatever the LO offset in pixels is. *)
Theorem crop_slice_has_width {A} (freqs : list A) (w shiftsweep : Z) (swap : pyflag) :
  0 < w -> w < Z.of_nat (length freqs) -> is_boolean swap ->
  exists lextra rextra,
    crop_offsets (Z.of_nat (length freqs)) w shiftsweep swap = Ok (lextra, rextra)
    /\ 0 <= lextra /\ 1 <= rextra
    /\ crop_at shiftsweep swap w freqs = Ok (py_slice lextra (- rextra) freqs)
    /\ Z.of_nat (length (py_slice lextra (- rextra) freqs)) = w
    /\ py_slice lextra (- rextra) freqs <> [].
Proof. exact (crop_at_ok freqs w shiftsweep swap). Qed.

Lemma crop_slice_witness :
  exists lextra rextra,
    crop_offsets 10 4 1 PTrue = Ok (lextra, rextra)
    /\ 0 <= lextra /\ 1 <= rextra
    /\ crop_at 1 PTrue 4 [0;1;2;3;4;5;6;7;8;9] = Ok (py_slice lextra (- rextra) [0;1;2;3;4;5;6;7;8;9])
    /\ Z.of_nat (length (py_slice lextra (- rextra) [0;1;2;3;4;5;6;7;8;9])) = 4
    /\ py_slice lextra (- rextra) [0;1;2;3;4;5;6;7;8;9] <> [].
Proof.
  apply (crop_slice_has_width [0;1;2;3;4;5;6;7;8;9] 4 1 PTrue).
  - lia.
  - simpl. lia.
  - left. reflexivity.
Defined.

(** ** The colour gradient on the end-to-end scenario *)

(** C4, as amended.  For the input 0.1667 the gradient built from
    [WATERFALL_GRAD] returns (0, 127, 255): the input falls in segment 0 at
    x = 0.5001, and the green channel 255 * 0.5001 = 127.5255 is floored. *)
Theorem gradient_scenario_color :
  Gradient.color_func (1667 # 10000) = Ok (0, 127, 255).
Proof. vm_compute. reflexivity. Qed.

(** C4 as stated fails: the colour is not (0, 128, 255). *)
Lemma gradient_scenario_not_128 :
  Gradient.color_func (1667 # 10000) <> Ok (0, 128, 255).
Proof. vm_compute. discriminate. Qed.

(** The exact midpoint 1/6 of segment 0 floors to 127 as well. *)
Example gradient_midpoint : Gradient.color_func (1 # 6) = Ok (0, 127, 255).
Proof. vm_compute. reflexivity. Qed.

Example gradient_ends :
  Gradient.color_func 0 = Ok (0, 0, 255) /\ Gradient.color_func 1 = Ok (255, 0, 0).
Proof. split; reflexivity. Qed.

(** ** Running methods *)

Section Running.
Context `{SignalLib}.

Lemma run_bind {A B} (c : M A) (k : A -> M B) (m : FreqShowModel) :
  (c ≫= k) m = match c m with Ok (a, m') => k a m' | Raise e => Raise e end.
Proof. reflexivity. Qed.

Lemma run_bind_ok {A B} (c : M A) (k : A -> M B) m a m1 :
  c m = Ok (a, m1) -> (c ≫= k) m = k a m1.
Proof. intros E. rewrite run_bind, E. reflexivity. Qed.

Lemma bind_ok_inv {A B} (c : M A) (k : A -> M B) m b m' :
  (c ≫= k) m = Ok (b, m') ->
  exists a m1, c m = Ok (a, m1) /\ k a m1 = Ok (b, m').
Proof.
  rewrite run_bind. destruct (c m) as [[a m1]|e]; [|discriminate].
  intros E. exists a, m1. split; [reflexivity|exact E].
Qed.

Lemma bind_raise_inv {A B} (c : M A) (k : A -> M B) m e :
  (c ≫= k) m = Raise e ->
  c m = Raise e \/ exists a m1, c m = Ok (a, m1) /\ k a m1 = Raise e.
Proof.
  rewrite run_bind. destruct (c m) as [[a m1]|e']; [|intros [= ->]; left; reflexivity].
  intros E. right. exists a, m1. split; [reflexivity|exact E].
Qed.

Lemma run_gets {A B} (f : FreqShowModel -> A) (k : A -> M B) m :
  (gets f ≫= k) m = k (f m) m.
Proof. reflexivity. Qed.

Lemma run_lift_ok {A B} (r : result A) (k : A -> M B) m a :
  r = Ok a -> (lift r ≫= k) m = k a m.
Proof. intros ->. reflexivity. Qed.

Lemma run_modify {B} (f : FreqShowModel -> FreqShowModel) (k : unit -> M B) m :
  (modify f ≫= k) m = k tt (f m).
Proof. reflexivity. Qed.

End Running.

Ltac run_m :=
  cbv beta iota delta
    [mbind mret M_bind M_ret bind ret gets modify lift raise
     get_sample_rate get_zoom_fac get_lo_offset get_center_freq
     get_swap_iq get_peak].

Tactic Notation "inv_bind" integer(n) hyp(E) :=
  do n (apply bind_ok_inv in E as (? & ? & _ & E); cbv beta zeta in E).

(** ** The zoom bin count and the guard on the acquisition size *)

Section Zoom.
Context `{SignalLib}.

Lemma with_zoom_fac_twice (r : Q) (m : FreqShowModel) :
  with_zoom_fac r (with_zoom_fac r m) = with_zoom_fac r m.
Proof. reflexivity. Qed.

Lemma zoom_bins_cases (m : FreqShowModel) :
  (Qltb (zoom_fac m) (full_rate m) = true /\
   zoom_bins m =
     match py_div (full_rate m) (zoom_fac m) with
     | Ok r => Ok (py_int (inject_Z (width m) * r), m)
     | Raise e => Raise e
     end)
  \/ (Qltb (zoom_fac m) (full_rate m) = false /\
      zoom_bins m = Ok (width m, with_zoom_fac (full_rate m) m)).
Proof.
  unfold zoom_bins, full_rate.
  destruct (Qltb (zoom_fac m) (sdr_sample_rate (sdr m) / 1000000)) eqn:E;
    [left | right]; (split; [reflexivity|]).
  - run_m. rewrite E. destruct (py_div _ _); reflexivity.
  - run_m. rewrite E. reflexivity.
Qed.

Lemma zoom_bins_full_rate (m : FreqShowModel) :
  zoom_bins (with_zoom_fac (full_rate m) m)
  = Ok (width m, with_zoom_fac (full_rate m) m).
Proof.
  destruct (zoom_bins_cases (with_zoom_fac (full_rate m) m)) as [[E _]|[_ E]].
  - apply Qltb_true in E. exfalso. revert E. apply Qlt_irrefl.
  - exact E.
Qed.

Lemma guard_zoom_full_rate (m : FreqShowModel) :
  guard_zoom (width m) (with_zoom_fac (full_rate m) m)
  = Ok (width m, with_zoom_fac (full_rate m) m).
Proof.
  unfold guard_zoom. destruct (width m <? SDR_SAMPLE_SIZE); reflexivity.
Qed.

(** C2, as amended.  Whenever the zoom bin count is not below
    [SDR_SAMPLE_SIZE], the guard clamps it to the display width and resets
    [zoom_fac] to the full sample rate; and [get_data] then takes its samples
    exactly as it does for a model whose zoom span already is the sample
    rate. *)
Theorem guard_zoom_clamps (zoom : Z) (m : FreqShowModel) :
  SDR_SAMPLE_SIZE <= zoom ->
  guard_zoom zoom m = Ok (width m, with_zoom_fac (full_rate m) m)
  /\ (forall m0, zoom_bins m0 = Ok (zoom, m) ->
        get_data m0 = get_data (with_zoom_fac (full_rate m0) m0)).
Proof.
  intros Hz.
  assert (guard_zoom zoom m = Ok (width m, with_zoom_fac (full_rate m) m)) as G.
  { unfold guard_zoom. destruct (zoom <? SDR_SAMPLE_SIZE) eqn:E; [lia|]. reflexivity. }
  split; [exact G|].
  intros m0 Hzb.
  assert (with_zoom_fac (full_rate m) m = with_zoom_fac (full_rate m0) m0
          /\ width m = width m0) as [Em Ew].
  { destruct (zoom_bins_cases m0) as [[_ E]|[_ E]]; rewrite E in Hzb.
    - destruct (py_div _ _); [|discriminate]. injection Hzb as _ ->. split; reflexivity.
    - injection Hzb as _ <-. split; reflexivity. }
  assert (get_magnitudes m0 = get_magnitudes (with_zoom_fac (full_rate m0) m0)) as Eg.
  { unfold get_magnitudes.
    rewrite (run_bind_ok zoom_bins _ m0 _ _ Hzb).
    rewrite (run_bind_ok (guard_zoom zoom) _ m _ _ G).
    rewrite (run_bind_ok zoom_bins _ _ _ _ (zoom_bins_full_rate m0)).
    rewrite (run_bind_ok (guard_zoom (width m0)) _ _ _ _ (guard_zoom_full_rate m0)).
    rewrite Em, Ew. reflexivity. }
  unfold get_data. rewrite !run_bind, Eg. reflexivity.
Qed.
End Zoom.

(** ** Resetting the intensity bounds *)

Section Reset.
Context `{SignalLib}.

Lemma clear_intensity_run (m : FreqShowModel) :
  exists m', _clear_intensity m = Ok (tt, m') /\ intensity_cleared m'.
Proof.
  unfold _clear_intensity, intensity_cleared. run_m.
  destruct (min_auto_scale m) eqn:Ea; destruct (max_auto_scale m) eqn:Eb;
    cbn; rewrite ?Ea, ?Eb; cbn;
    eexists; (split; [reflexivity|]); cbn; repeat split; congruence.
Qed.

Lemma then_clear_intensity (c : M unit) (m m' : FreqShowModel) :
  (c;; _clear_intensity) m = Ok (tt, m') -> intensity_cleared m'.
Proof.
  intros E. apply bind_ok_inv in E as (a & m1 & _ & E). cbv beta in E.
  destruct (clear_intensity_run m1) as (m2 & E2 & Hc). congruence.
Qed.

Lemma reaching_call_clears (c : setter_call) (m m' : FreqShowModel) :
  reaches_clear c = true -> run_call c m = Ok (tt, m') -> intensity_cleared m'.
Proof.
  destruct c as [v io|v io|[|db] [|]|v|i|i|v|v|v|v|s|v];
    simpl; try discriminate; intros _ E.
  - unfold set_center_freq in E. inv_bind 8 E.
    match type of E with _clear_intensity ?m1 = _ =>
      destruct (clear_intensity_run m1) as (m2 & E2 & Hc) end. congruence.
  - inv_bind 2 E.
    match type of E with _clear_intensity ?m1 = _ =>
      destruct (clear_intensity_run m1) as (m2 & E2 & Hc) end. congruence.
  - unfold except_IOError_pass in E.
    match type of E with match ?c m with _ => _ end = _ =>
      destruct (c m) as [[[] m1]|e] eqn:E1 end.
    + injection E as <-. inv_bind 2 E1.
      match type of E1 with _clear_intensity ?m1 = _ =>
        destruct (clear_intensity_run m1) as (m2 & E2 & Hc) end. congruence.
    + exfalso. revert E1. unfold _clear_intensity. run_m.
      destruct (min_auto_scale _), (max_auto_scale _); discriminate.
  - unfold set_min_intensity in E. eapply then_clear_intensity, E.
  - unfold set_max_intensity in E. eapply then_clear_intensity, E.
Qed.

Lemma call_keeps_cleared (c : setter_call) (m m' : FreqShowModel) :
  run_call c m = Ok (tt, m') -> intensity_cleared m -> intensity_cleared m'.
Proof.
  destruct (reaches_clear c) eqn:R.
  { intros E _. exact (reaching_call_clears c m m' R E). }
  destruct c as [v io|v io|[|db] [|]|v|i|i|v|v|v|v|s|v];
    simpl in R; try discriminate; simpl; intros E Hc.
  - unfold set_sample_rate in E.
    destruct (_ || _).
    + destruct io; cbv in E; injection E as <-; exact Hc.
    + cbv in E. injection E as <-. exact Hc.
  - cbv in E. injection E as <-. exact Hc.
  - cbv in E. injection E as <-. exact Hc.
  - cbv in E. injection E as <-. exact Hc.
  - cbv in E. injection E as <-. exact Hc.
  - cbv in E. injection E as <-. exact Hc.
  - unfold set_fft_ave in E. destruct (Qltb 1 v); cbv in E; injection E as <-; exact Hc.
  - cbv in E. injection E as <-. exact Hc.
  - cbv in E. injection E as <-. exact Hc.
Qed.

Lemma calls_keep_cleared (cs : list setter_call) (m m' : FreqShowModel) :
  run_calls cs m = Ok (tt, m') -> intensity_cleared m -> intensity_cleared m'.
Proof.
  revert m. induction cs as [|c cs IH]; intros m E Hc.
  - cbv in E. injection E as <-. exact Hc.
  - simpl in E. apply bind_ok_inv in E as ([] & m1 & E1 & E). cbv beta in E.
    eapply IH; [exact E|]. eapply call_keeps_cleared; eauto.
Qed.

(** C3, as amended.  After a call of [set_center_freq], [set_gain] (the
    driver accepting a numeric gain), [set_min_intensity] or
    [set_max_intensity] that returns, every auto-scaled bound is [None] and
    so is [range]; and this still holds after any further setter calls, as
    long as no frame is processed. *)
Theorem reset_setters_clear_bounds (c : setter_call) (later : list setter_call)
    (m m1 m' : FreqShowModel) :
  reaches_clear c = true ->
  run_call c m = Ok (tt, m1) ->
  run_calls later m1 = Ok (tt, m') ->
  intensity_cleared m1 /\ intensity_cleared m'.
Proof.
  intros R E1 E2.
  assert (intensity_cleared m1) as H1 by exact (reaching_call_clears c m m1 R E1).
  split; [exact H1|]. exact (calls_keep_cleared later m1 m' E2 H1).
Qed.
End Reset.

(** ** [get_data] returns a frame of the display width *)

Section Acquire.
Context `{SignalLib}.

Lemma window_of_length (coef : nat -> nat -> Q) (M : Z) :
  0 <= M -> Z.of_nat (length (window_of coef M)) = M.
Proof. intros HM. unfold window_of. rewrite length_map, length_seq. lia. Qed.

Lemma select_window_cases (name : string) (beta : Q) (zoom : Z) :
  select_window name beta zoom = WScalar 1
  \/ exists coef, select_window name beta zoom
                  = WArray (py_slice 0 (zoom + 2) (window_of coef SDR_SAMPLE_SIZE)).
Proof.
  unfold select_window.
  repeat (destruct (String.eqb name _); [right; eexists; reflexivity|]).
  left. reflexivity.
Qed.

Lemma apply_window_length (freqbins : list sample) name beta zoom :
  0 <= zoom + 2 ->
  Z.of_nat (length freqbins) = Z.min (zoom + 2) SDR_SAMPLE_SIZE ->
  exists samples,
    apply_window freqbins (select_window name beta zoom) = Ok samples
    /\ length samples = length freqbins.
Proof.
  intros Hz Hlen.
  destruct (select_window_cases name beta zoom) as [->|[coef ->]]; simpl.
  - eexists. split; [reflexivity|]. apply length_map.
  - assert (length (py_slice 0 (zoom + 2) (window_of coef SDR_SAMPLE_SIZE))
            = length freqbins) as Hw.
    { apply Nat2Z.inj. rewrite py_slice_prefix_length by lia.
      rewrite window_of_length by (unfold SDR_SAMPLE_SIZE; lia). lia. }
    unfold np_multiply. rewrite Hw, Nat.eqb_refl.
    eexists. split; [reflexivity|]. rewrite length_zip_with. lia.
Qed.

Lemma fft_abs_length (samples : list sample) :
  samples <> [] ->
  exists freqs, fft_abs samples = Ok freqs /\ length freqs = length samples.
Proof.
  intros Hne. destruct samples as [|s rest]; [congruence|].
  eexists. split; [reflexivity|]. rewrite length_map, length_seq. reflexivity.
Qed.

Lemma guard_zoom_below (zoom : Z) (m : FreqShowModel) :
  zoom < SDR_SAMPLE_SIZE -> guard_zoom zoom m = Ok (zoom, m).
Proof.
  intros Hz. unfold guard_zoom.
  destruct (zoom <? SDR_SAMPLE_SIZE) eqn:E; [reflexivity|lia].
Qed.

Lemma py_div_ok (a b : Q) : ~ (b == 0)%Q -> py_div a b = Ok (a / b)%Q.
Proof.
  intros Hb. unfold py_div. destruct (Qeq_bool b 0) eqn:E; [|reflexivity].
  apply Qeq_bool_iff in E. contradiction.
Qed.

(** With a positive zoom span the zoom bin count exists and is at least the
    display width. *)
Lemma zoom_bins_ok (m : FreqShowModel) :
  0 <= width m -> (0 < zoom_fac m)%Q ->
  exists z m1, zoom_bins m = Ok (z, m1) /\ width m <= z
    /\ ((m1 = m /\ (zoom_fac m < full_rate m)%Q)
        \/ (m1 = with_zoom_fac (full_rate m) m /\ z = width m)).
Proof.
  intros Hw Hzf.
  destruct (zoom_bins_cases m) as [[E Hzb]|[E Hzb]].
  - apply Qltb_true in E.
    rewrite py_div_ok in Hzb by (intros E0; rewrite E0 in Hzf; revert Hzf; apply Qlt_irrefl).
    eexists _, _. split; [exact Hzb|]. split; [|left; split; [reflexivity|exact E]].
    apply py_int_lower; [exact Hw|].
    assert (1 <= full_rate m / zoom_fac m)%Q as H1.
    { apply Qle_shift_div_l; [exact Hzf|]. rewrite Qmult_1_l. apply Qlt_le_weak, E. }
    assert (0 <= inject_Z (width m))%Q as H0.
    { unfold Qle. simpl. lia. }
    set (t := (full_rate m / zoom_fac m)%Q) in *.
    set (w := inject_Z (width m)) in *. nra.
  - eexists _, _. split; [exact Hzb|]. split; [lia|]. right. split; reflexivity.
Qed.

Lemma run_read_samples {B} (count : Z) (k : list sample -> M B) m raw :
  sdr_stream (sdr m) (sdr_reads (sdr m)) = Ok raw ->
  (read_samples count ≫= k) m = k raw (with_sdr (sdr_advance (sdr m)) m).
Proof.
  intros E. rewrite run_bind. unfold read_samples. rewrite E. reflexivity.
Qed.

(** The crop, run on a model whose zoom span is below the sample rate. *)
Lemma crop_ok (freqs : list Q) (m : FreqShowModel) (z : Z) :
  0 < width m -> width m < Z.of_nat (length freqs) ->
  is_boolean (swap_iq m) ->
  (0 < zoom_fac m)%Q -> (zoom_fac m < full_rate m)%Q ->
  zoom_bins m = Ok (z, m) -> 0 <= z ->
  exists cut, crop freqs m = Ok (cut, m) /\ Z.of_nat (length cut) = width m.
Proof.
  intros Hw Hlen Hb Hzf Hlt Hzb Hz.
  assert (0 < sdr_sample_rate (sdr m))%Q as Hhz.
  { unfold full_rate in Hlt. 
    assert (0 < sdr_sample_rate (sdr m) / 1000000)%Q as Hp by (eapply Qlt_trans; eauto).
    set (r := sdr_sample_rate (sdr m)) in *.
    apply Qnot_le_lt. intros Hle.
    assert (r / 1000000 <= 0)%Q.
    { apply Qle_shift_div_r; [reflexivity|]. lra. }
    lra. }
  assert (0 < inject_Z (z + 2))%Q as Hz2.
  { unfold Qlt. simpl. lia. }
  assert (get_freq_step m = Ok ((sdr_sample_rate (sdr m) / inject_Z (z + 2))%Q, m)) as Hfs.
  { unfold get_freq_step. rewrite (run_bind_ok _ _ _ _ _ Hzb).
    rewrite run_gets.
    unfold lift. rewrite py_div_ok; [reflexivity|].
    intros E0. rewrite E0 in Hz2. revert Hz2. apply Qlt_irrefl. }
  assert (0 < sdr_sample_rate (sdr m) / inject_Z (z + 2))%Q as Hfsp.
  { apply Qlt_shift_div_l; [exact Hz2|]. rewrite Qmult_0_l. exact Hhz. }
  unfold crop. rewrite (run_bind_ok _ _ _ _ _ Hfs).
  unfold get_lo_offset, get_swap_iq. rewrite run_gets.
  erewrite run_lift_ok;
    [|apply py_div_ok; intros E0; rewrite E0 in Hfsp; revert Hfsp; apply Qlt_irrefl].
  cbv zeta. rewrite !run_gets.
  destruct (crop_at_ok freqs (width m)
              (py_int (lo_offset m * 1000000 / (sdr_sample_rate (sdr m) / inject_Z (z + 2))))
              (swap_iq m) Hw Hlen Hb)
    as (lextra & rextra & _ & _ & _ & Hcrop & Hcut & _).
  exists (py_slice lextra (- rextra) freqs). split; [|exact Hcut].
  unfold lift. rewrite Hcrop. reflexivity.
Qed.

Lemma zoom_bins_advance (m : FreqShowModel) (z : Z) :
  (zoom_fac m < full_rate m)%Q ->
  zoom_bins m = Ok (z, m) ->
  zoom_bins (with_sdr (sdr_advance (sdr m)) m)
  = Ok (z, with_sdr (sdr_advance (sdr m)) m).
Proof.
  intros Hlt Hzb. apply Qltb_true in Hlt.
  destruct (zoom_bins_cases m) as [[E Hc]|[E Hc]]; [|congruence].
  destruct (zoom_bins_cases (with_sdr (sdr_advance (sdr m)) m)) as [[E' Hc']|[E' Hc']].
  - rewrite Hc'. rewrite Hc in Hzb.
    change (full_rate (with_sdr (sdr_advance (sdr m)) m)) with (full_rate m).
    change (zoom_fac (with_sdr (sdr_advance (sdr m)) m)) with (zoom_fac m).
    change (width (with_sdr (sdr_advance (sdr m)) m)) with (width m).
    destruct (py_div (full_rate m) (zoom_fac m)); [|discriminate].
    injection Hzb as <-. reflexivity.
  - change (Qltb (zoom_fac m) (full_rate m) = false) in E'. congruence.
Qed.

Lemma get_magnitudes_ok (m m1 : FreqShowModel) (raw : list sample) (z : Z) :
  1 <= width m <= SDR_SAMPLE_SIZE - 2 ->
  (0 < zoom_fac m)%Q ->
  zoom_bins m = Ok (z, m1) -> z < SDR_SAMPLE_SIZE ->
  is_boolean (swap_iq m) ->
  sdr_stream (sdr m) (sdr_reads (sdr m)) = Ok raw ->
  Z.of_nat (length raw) = SDR_SAMPLE_SIZE ->
  exists mags,
    get_magnitudes m = Ok (mags, with_sdr (sdr_advance (sdr m1)) m1)
    /\ Z.of_nat (length mags) = width m.
Proof.
  intros Hw Hzf Hzb Hz Hb Hraw Hlen.
  destruct (zoom_bins_ok m ltac:(lia) Hzf) as (z' & m1' & Hzb' & Hwz & Hcase).
  rewrite Hzb in Hzb'. injection Hzb' as <- <-.
  assert (width m1 = width m /\ swap_iq m1 = swap_iq m /\ sdr m1 = sdr m) as (Ew & Es & Ed).
  { destruct Hcase as [[-> _]|[-> _]]; repeat split; reflexivity. }
  unfold get_magnitudes.
  rewrite (run_bind_ok _ _ _ _ _ Hzb).
  rewrite (run_bind_ok _ _ _ _ _ (guard_zoom_below z m1 Hz)).
  rewrite (run_read_samples _ _ m1 raw) by (rewrite Ed; exact Hraw).
  cbv zeta. rewrite !run_gets.
  set (freqbins := py_slice 0 (z + 2) raw).
  assert (Z.of_nat (length freqbins) = Z.min (z + 2) SDR_SAMPLE_SIZE) as Hfb.
  { unfold freqbins. rewrite py_slice_prefix_length by lia. lia. }
  set (m2 := with_sdr (sdr_advance (sdr m1)) m1).
  destruct (apply_window_length freqbins (filter m2) (kaiser_beta m2) z ltac:(lia) Hfb)
    as (samples & Hsamples & Hslen).
  rewrite (run_lift_ok _ _ _ _ Hsamples).
  destruct (fft_abs_length samples) as (spectrum & Hfft & Hflen).
  { intros ->. simpl in Hslen. unfold SDR_SAMPLE_SIZE in *. lia. }
  rewrite (run_lift_ok _ _ _ _ Hfft). rewrite !run_gets.
  set (shifted := fftshift _).
  assert (Z.of_nat (length shifted) = Z.min (z + 2) SDR_SAMPLE_SIZE - 2) as Hsh.
  { unfold shifted. rewrite fftshift_length.
    assert (forall l : list Q,
              length (match swap_iq m2 with PTrue => reverse l | _ => l end) = length l) as Hsw.
    { intros l. destruct (swap_iq m2); rewrite ?length_reverse; reflexivity. }
    rewrite Hsw, py_slice_trim_length, Hflen, Hslen, Hfb.
    unfold SDR_SAMPLE_SIZE in *. lia. }
  change (width m2) with (width m1). rewrite Ew.
  destruct (width m <? Z.of_nat (length shifted)) eqn:Ecrop.
  - apply Z.ltb_lt in Ecrop.
    destruct Hcase as [[-> Hlt]|[_ ->]]; [|unfold SDR_SAMPLE_SIZE in *; lia].
    assert (0 < width m2) as Hw2 by (change (0 < width m); lia).
    destruct (crop_ok shifted m2 z Hw2 Ecrop Hb Hzf Hlt
                (zoom_bins_advance m z Hlt Hzb) ltac:(lia))
      as (cut & Hcut & Hcutlen).
    exists cut. split; assumption.
  - apply Z.ltb_ge in Ecrop. exists shifted. split; [reflexivity|].
    unfold SDR_SAMPLE_SIZE in *. lia.
Qed.

Lemma np_min_ok (freqs : list fval) :
  freqs <> [] -> exists lo, np_min freqs = Ok lo.
Proof. destruct freqs; [congruence|]. intros _. eexists. reflexivity. Qed.

Lemma np_max_ok (freqs : list fval) :
  freqs <> [] -> exists hi, np_max freqs = Ok hi.
Proof. destruct freqs; [congruence|]. intros _. eexists. reflexivity. Qed.

(** The state that [update_intensity] leaves, in closed form. *)
Lemma update_intensity_run (freqs : list fval) (m : FreqShowModel) (fmin fmax : fval) :
  np_min freqs = Ok fmin -> np_max freqs = Ok fmax ->
  fixed_bounds_set m ->
  exists lo hi,
    update_intensity freqs m
    = Ok (tt, with_range (Some (fsub hi lo))
                (with_max_intensity (Some hi) (with_min_intensity (Some lo) m)))
    /\ (min_auto_scale m = true ->
        lo = match min_intensity m with None => fmin | Some c => py_min fmin c end)
    /\ (min_auto_scale m = false -> min_intensity m = Some lo)
    /\ (max_auto_scale m = true ->
        hi = match max_intensity m with None => fmax | Some c => py_max fmax c end)
    /\ (max_auto_scale m = false -> max_intensity m = Some hi).
Proof.
  intros Hmin Hmax [Hfa Hfb].
  unfold update_intensity, track_min, track_max, set_range. run_m.
  rewrite Hmin, Hmax.
  destruct m as [w h a b mi ma rg d sw zf lo cf ag fa pk fl kb sr].
  simpl in *.
  destruct a, b; simpl.
  - eexists _, _. split; [reflexivity|]. repeat split; intros; congruence.
  - destruct ma as [hi|]; [|exfalso; apply Hfb; reflexivity].
    eexists _, hi. split; [reflexivity|]. repeat split; intros; congruence.
  - destruct mi as [lo'|]; [|exfalso; apply Hfa; reflexivity].
    eexists lo', _. split; [reflexivity|]. repeat split; intros; congruence.
  - destruct mi as [lo'|]; [|exfalso; apply Hfa; reflexivity].
    destruct ma as [hi|]; [|exfalso; apply Hfb; reflexivity].
    eexists lo', hi. split; [reflexivity|]. repeat split; intros; congruence.
Qed.

(** [get_data] returns, and returns [width] values. *)
Lemma get_data_ok (m m1 : FreqShowModel) (raw : list sample) (z : Z) :
  1 <= width m <= SDR_SAMPLE_SIZE - 2 ->
  (0 < zoom_fac m)%Q ->
  zoom_bins m = Ok (z, m1) -> z < SDR_SAMPLE_SIZE ->
  is_boolean (swap_iq m) ->
  fixed_bounds_set m ->
  sdr_stream (sdr m) (sdr_reads (sdr m)) = Ok raw ->
  Z.of_nat (length raw) = SDR_SAMPLE_SIZE ->
  exists frame lo hi,
    get_data m
    = Ok (frame,
          with_range (Some (fsub hi lo))
            (with_max_intensity (Some hi)
               (with_min_intensity (Some lo)
                  (with_sdr (sdr_advance (sdr m1)) m1))))
    /\ Z.of_nat (length frame) = width m.
Proof.
  intros Hw Hzf Hzb Hz Hb Hfix Hraw Hlen.
  destruct (get_magnitudes_ok m m1 raw z Hw Hzf Hzb Hz Hb Hraw Hlen)
    as (mags & Hmags & Hmlen).
  assert (Z.of_nat (length (to_decibels mags)) = width m) as Hdlen.
  { unfold to_decibels. rewrite length_map. exact Hmlen. }
  assert (to_decibels mags <> []) as Hne.
  { intros E. rewrite E in Hdlen. simpl in Hdlen. lia. }
  destruct (np_min_ok _ Hne) as (fmin & Hmin).
  destruct (np_max_ok _ Hne) as (fmax & Hmax).
  assert (fixed_bounds_set (with_sdr (sdr_advance (sdr m1)) m1)) as Hfix1.
  { destruct (zoom_bins_cases m) as [[_ Hc]|[_ Hc]]; rewrite Hc in Hzb.
    - destruct (py_div _ _); [|discriminate]. injection Hzb as _ <-. exact Hfix.
    - injection Hzb as _ <-. exact Hfix. }
  destruct (update_intensity_run _ _ fmin fmax Hmin Hmax Hfix1)
    as (lo & hi & Hupd & _).
  exists (to_decibels mags), lo, hi. split; [|exact Hdlen].
  unfold get_data. rewrite (run_bind_ok _ _ _ _ _ Hmags). cbv zeta.
  rewrite (run_bind_ok _ _ _ _ _ Hupd). reflexivity.
Qed.
End Acquire.

(** ** What acquiring a frame leaves alone *)

Section Keeps.
Context `{SignalLib}.

Variable P : FreqShowModel -> FreqShowModel -> Prop.
Hypothesis P_refl : forall m, P m m.
Hypothesis P_trans : forall a b c, P a b -> P b c -> P a c.

Lemma keeps_ret {A} (a : A) : keeps P (ret a).
Proof. intros m a' m' [= _ <-]. apply P_refl. Qed.

Lemma keeps_mret {A} (a : A) : keeps P (mret a).
Proof. apply keeps_ret. Qed.

Lemma keeps_gets {A} (f : FreqShowModel -> A) : keeps P (gets f).
Proof. intros m a' m' [= _ <-]. apply P_refl. Qed.

Lemma keeps_lift {A} (r : result A) : keeps P (lift r).
Proof. intros m a' m'. unfold lift. destruct r; [|discriminate]. intros [= _ <-]. apply P_refl. Qed.

Lemma keeps_raise {A} (e : exn) : keeps P (@raise _ A e).
Proof. intros m a' m'. discriminate. Qed.

Lemma keeps_modify (f : FreqShowModel -> FreqShowModel) :
  (forall m, P m (f m)) -> keeps P (modify f).
Proof. intros Hf m [] m' [= <-]. apply Hf. Qed.

Lemma keeps_bind {A B} (c : M A) (k : A -> M B) :
  keeps P c -> (forall a, keeps P (k a)) -> keeps P (c ≫= k).
Proof.
  intros Hc Hk m b m' E. apply bind_ok_inv in E as (a & m1 & E1 & E2).
  eapply P_trans; [eapply Hc, E1|eapply Hk, E2].
Qed.

Lemma keeps_if {A} (b : bool) (c1 c2 : M A) :
  keeps P c1 -> keeps P c2 -> keeps P (if b then c1 else c2).
Proof. destruct b; auto. Qed.

End Keeps.

Section KeepsModel.
Context `{SignalLib}.

Lemma same_settings_refl m : same_settings m m.
Proof. repeat split. Qed.

Lemma same_settings_trans a b c : same_settings a b -> same_settings b c -> same_settings a c.
Proof. unfold same_settings. intuition congruence. Qed.

Lemma same_bounds_refl m : same_bounds m m.
Proof. repeat split. Qed.

Lemma same_bounds_trans a b c : same_bounds a b -> same_bounds b c -> same_bounds a c.
Proof. unfold same_bounds, same_settings. intuition congruence. Qed.

#[local] Ltac keeps_with Hrefl Htrans :=
  repeat first
    [ apply (keeps_bind _ Htrans); [|intros ?]
    | apply (keeps_gets _ Hrefl)
    | apply (keeps_lift _ Hrefl)
    | apply (keeps_ret _ Hrefl)
    | apply (keeps_mret _ Hrefl)
    | apply keeps_raise
    | apply keeps_if
    | apply keeps_modify; intros ?; repeat split
    | match goal with
      | |- keeps _ (match ?o with Some _ => _ | None => _ end) => destruct o
      | H : keeps ?P ?c |- keeps ?P ?c => exact H
      end ].

Lemma zoom_bins_keeps : keeps same_bounds zoom_bins.
Proof.
  unfold zoom_bins, get_sample_rate.
  keeps_with same_bounds_refl same_bounds_trans.
Qed.

Lemma guard_zoom_keeps z : keeps same_bounds (guard_zoom z).
Proof.
  unfold guard_zoom, get_sample_rate.
  keeps_with same_bounds_refl same_bounds_trans.
Qed.

Lemma read_samples_keeps n : keeps same_bounds (read_samples n).
Proof.
  intros m a m'. unfold read_samples.
  destruct (sdr_stream _ _); [|discriminate]. intros [= _ <-]. repeat split.
Qed.

Lemma crop_keeps freqs : keeps same_bounds (crop freqs).
Proof.
  pose proof zoom_bins_keeps.
  unfold crop, get_freq_step, get_lo_offset, get_swap_iq.
  keeps_with same_bounds_refl same_bounds_trans.
Qed.

Lemma get_magnitudes_keeps : keeps same_bounds get_magnitudes.
Proof.
  pose proof zoom_bins_keeps. pose proof guard_zoom_keeps.
  pose proof read_samples_keeps. pose proof crop_keeps.
  unfold get_magnitudes.
  keeps_with same_bounds_refl same_bounds_trans; auto.
Qed.

Lemma update_intensity_keeps (frame : list fval) :
  keeps same_settings (update_intensity frame).
Proof.
  unfold update_intensity, track_min, track_max, set_range.
  keeps_with same_settings_refl same_settings_trans.
Qed.

Lemma get_data_keeps : keeps same_settings get_data.
Proof.
  intros m frame m' E. unfold get_data in E.
  apply bind_ok_inv in E as (mags & m1 & Hm & E). cbv beta zeta in E.
  apply bind_ok_inv in E as ([] & m2 & Hu & E). cbv beta in E.
  injection E as _ <-.
  eapply same_settings_trans.
  - apply (get_magnitudes_keeps _ _ _ Hm).
  - apply (update_intensity_keeps _ _ _ _ Hu).
Qed.

End KeepsModel.

(** ** Facts about float comparisons and reductions *)

Lemma np_minimum_finite (a b : fval) :
  is_finite a -> is_finite b -> is_finite (np_minimum a b).
Proof.
  destruct a, b; simpl; try contradiction. intros _ _.
  unfold np_minimum. simpl. destruct (Qltb q0 q); exact I.
Qed.

Lemma np_maximum_finite (a b : fval) :
  is_finite a -> is_finite b -> is_finite (np_maximum a b).
Proof.
  destruct a, b; simpl; try contradiction. intros _ _.
  unfold np_maximum. simpl. destruct (Qltb q q0); exact I.
Qed.

Lemma foldl_finite (f : fval -> fval -> fval) (xs : list fval) (acc : fval) :
  (forall a b, is_finite a -> is_finite b -> is_finite (f a b)) ->
  is_finite acc -> Forall is_finite xs -> is_finite (foldl f acc xs).
Proof.
  intros Hf. revert acc. induction xs as [|x xs IH]; intros acc Ha Hxs; [exact Ha|].
  inversion Hxs; subst. simpl. apply IH; [apply Hf|]; assumption.
Qed.

Lemma np_min_finite (frame : list fval) :
  frame <> [] -> Forall is_finite frame ->
  exists lo, np_min frame = Ok lo /\ is_finite lo.
Proof.
  destruct frame as [|x xs]; [congruence|]. intros _ Hf. inversion Hf; subst.
  eexists. split; [reflexivity|]. apply foldl_finite; auto using np_minimum_finite.
Qed.

Lemma np_max_finite (frame : list fval) :
  frame <> [] -> Forall is_finite frame ->
  exists hi, np_max frame = Ok hi /\ is_finite hi.
Proof.
  destruct frame as [|x xs]; [congruence|]. intros _ Hf. inversion Hf; subst.
  eexists. split; [reflexivity|]. apply foldl_finite; auto using np_maximum_finite.
Qed.

Lemma Qle_bool_total (a b : Q) : Qle_bool a b = false -> Qle_bool b a = true.
Proof.
  intros E. apply Qle_bool_iff. apply Qlt_le_weak. apply Qnot_le_lt.
  intros L. apply Qle_bool_iff in L. congruence.
Qed.

Lemma fle_refl_finite (a : fval) : is_finite a -> fle a a = true.
Proof. destruct a; simpl; try contradiction. intros _. apply Qle_bool_iff, Qle_refl. Qed.

(** Python's [min] against a finite stored bound: finite, and no larger. *)
Lemma py_min_lowers (frame_min cur : fval) :
  is_finite frame_min -> is_finite cur ->
  is_finite (py_min frame_min cur) /\ fle (py_min frame_min cur) cur = true.
Proof.
  destruct frame_min as [| |a|], cur as [| |c|]; simpl; try contradiction. intros _ _.
  unfold py_min. simpl. unfold Qltb. destruct (Qle_bool a c) eqn:E; simpl.
  - split; [exact I|exact E].
  - split; [exact I|]. apply Qle_bool_iff, Qle_refl.
Qed.

(** Python's [max] against a finite stored bound: finite, and no smaller. *)
Lemma py_max_raises (frame_max cur : fval) :
  is_finite frame_max -> is_finite cur ->
  is_finite (py_max frame_max cur) /\ fle cur (py_max frame_max cur) = true.
Proof.
  destruct frame_max as [| |a|], cur as [| |c|]; simpl; try contradiction. intros _ _.
  unfold py_max. simpl. unfold Qltb. destruct (Qle_bool c a) eqn:E; simpl.
  - split; [exact I|exact E].
  - split; [exact I|]. apply Qle_bool_iff, Qle_refl.
Qed.

Lemma fle_trans (a b c : fval) : fle a b = true -> fle b c = true -> fle a c = true.
Proof.
  destruct a, b, c; simpl; try discriminate; try reflexivity.
  intros H1 H2. apply Qle_bool_iff in H1, H2. apply Qle_bool_iff.
  eapply Qle_trans; eassumption.
Qed.

Lemma fle_refl (a : fval) : is_nan a = false -> fle a a = true.
Proof. destruct a; simpl; try discriminate; try reflexivity. intros _. apply Qle_bool_iff, Qle_refl. Qed.

Lemma np_maximum_cases (a b : fval) :
  np_maximum a b = a \/ np_maximum a b = b.
Proof. unfold np_maximum. destruct (is_nan a), (is_nan b), (flt a b); auto. Qed.

Lemma np_maximum_nan (a b : fval) :
  is_nan (np_maximum a b) = is_nan a || is_nan b.
Proof.
  unfold np_maximum. destruct (is_nan a) eqn:Ea; [rewrite Ea; reflexivity|].
  destruct (is_nan b) eqn:Eb; [rewrite Eb; reflexivity|].
  destruct (flt a b); rewrite ?Ea, ?Eb; reflexivity.
Qed.

Lemma np_maximum_upper (a b : fval) :
  is_nan a = false -> is_nan b = false ->
  fle a (np_maximum a b) = true /\ fle b (np_maximum a b) = true.
Proof.
  intros Ha Hb. unfold np_maximum. rewrite Ha, Hb.
  destruct a as [| |x|], b as [| |y|]; simpl in *; try discriminate;
    try (split; first [reflexivity | apply Qle_bool_iff, Qle_refl]).
  unfold Qltb. destruct (Qle_bool y x) eqn:E; simpl.
  - split; [apply Qle_bool_iff, Qle_refl|exact E].
  - split; [|apply Qle_bool_iff, Qle_refl].
    apply Qle_bool_iff, Qlt_le_weak, Qnot_le_lt. intros L.
    apply Qle_bool_iff in L. congruence.
Qed.

Lemma foldl_np_maximum_is_max (xs : list fval) (x : fval) :
  is_np_max (foldl np_maximum x xs) (x :: xs).
Proof.
  revert x. induction xs as [|y ys IH]; intros x.
  - simpl. split; [left|]. split.
    + intros Hex. apply Exists_cons in Hex as [E|E]; [exact E|inversion E].
    + intros Hall. constructor; [|constructor]. apply fle_refl. inversion Hall; assumption.
  - simpl. destruct (IH (np_maximum x y)) as (Hin & Hnan & Hub).
    split; [|split].
    + apply elem_of_cons in Hin as [->|Hin].
      * destruct (np_maximum_cases x y) as [->| ->]; [left|right; left].
      * right. right. exact Hin.
    + intros Hex. apply Hnan.
      apply Exists_cons in Hex as [E|Hex].
      { left. rewrite np_maximum_nan, E. reflexivity. }
      apply Exists_cons in Hex as [E|Hex].
      { left. rewrite np_maximum_nan, E. apply orb_true_r. }
      right. exact Hex.
    + intros Hall. inversion Hall as [|? ? Hx Hall']; subst.
      inversion Hall' as [|? ? Hy Hys]; subst.
      assert (Forall (fun v => fle v (foldl np_maximum (np_maximum x y) ys) = true)
                (np_maximum x y :: ys)) as Hf.
      { apply Hub. constructor; [|exact Hys]. rewrite np_maximum_nan, Hx, Hy. reflexivity. }
      inversion Hf as [|? ? Hm Hrest]; subst.
      destruct (np_maximum_upper x y Hx Hy) as [Lx Ly].
      constructor; [eapply fle_trans; eassumption|].
      constructor; [eapply fle_trans; eassumption|exact Hrest].
Qed.

(** ** Facts about 2-d arrays and the history ring *)

Lemma column_cons (i : nat) (row : list fval) (a : array2) (x : fval) :
  row !! i = Some x -> column i (row :: a) = x :: column i a.
Proof. intros E. unfold column. simpl. rewrite E. reflexivity. Qed.

Lemma foldl_zip_with_lookup (f : fval -> fval -> fval) (rs : array2)
    (r : list fval) (i : nat) (x : fval) (n : nat) :
  rows_of_length n rs -> r !! i = Some x -> (i < n)%nat ->
  foldl (zip_with f) r rs !! i = Some (foldl f x (column i rs)).
Proof.
  revert r x. induction rs as [|row rs IH]; intros r x Hrows Hx Hi; [exact Hx|].
  inversion Hrows as [|? ? Hrow Hrs]; subst.
  destruct (lookup_lt_is_Some_2 row i ltac:(lia)) as [y Hy].
  rewrite (column_cons i row rs y Hy). simpl.
  apply IH; [exact Hrs| |exact Hi].
  rewrite lookup_zip_with, Hx. simpl. rewrite Hy. reflexivity.
Qed.

Lemma foldl_zip_with_length (f : fval -> fval -> fval) (rs : array2)
    (r : list fval) :
  rows_of_length (length r) rs -> length (foldl (zip_with f) r rs) = length r.
Proof.
  revert r. induction rs as [|row rs IH]; intros r Hrows; [reflexivity|].
  inversion Hrows as [|? ? Hrow Hrs]; subst. simpl.
  assert (length (zip_with f r row) = length r) as E.
  { rewrite length_zip_with. lia. }
  rewrite IH; rewrite E; [reflexivity|exact Hrs].
Qed.

(** [np.max(a, axis=0)] of a rectangular array returns, column by column,
    the maximum of the column. *)
Lemma np_max_axis0_columns (a : array2) (n : nat) (freqs : list fval) :
  rows_of_length n a -> np_max_axis0 a = Ok freqs ->
  length freqs = n
  /\ forall i, (i < n)%nat ->
       exists r, freqs !! i = Some r /\ is_np_max r (column i a).
Proof.
  intros Hrows E. destruct a as [|r rs]; [discriminate|].
  injection E as <-. inversion Hrows as [|? ? Hr Hrs]; subst.
  split; [apply foldl_zip_with_length; exact Hrs|].
  intros i Hi. destruct (lookup_lt_is_Some_2 r i ltac:(lia)) as [x Hx].
  exists (foldl np_maximum x (column i rs)). split.
  - apply (foldl_zip_with_lookup _ rs r i x (length r)); assumption.
  - rewrite (column_cons i r rs x Hx). apply foldl_np_maximum_is_max.
Qed.

Lemma py_index_nat (len i : nat) : (i < len)%nat -> py_index len (Z.of_nat i) = Ok i.
Proof.
  intros Hi. unfold py_index.
  destruct (Z.of_nat i <? 0) eqn:E; [lia|].
  destruct (0 <=? Z.of_nat i) eqn:E1; [|lia].
  destruct (Z.of_nat i <? Z.of_nat len) eqn:E2; [|lia].
  simpl. rewrite Nat2Z.id. reflexivity.
Qed.

Lemma py_getitem_nat {A} (l : list A) (i : nat) (x : A) :
  l !! i = Some x -> py_getitem l (Z.of_nat i) = Ok x.
Proof.
  intros E. unfold py_getitem.
  rewrite py_index_nat by (eapply lookup_lt_Some; exact E).
  rewrite E. reflexivity.
Qed.

Lemma py_range_from_1 (n : Z) :
  py_range 1 (n + 1) = map Z.of_nat (seq 1 (Z.to_nat n)).
Proof.
  unfold py_range. replace (n + 1 - 1) with n by lia.
  rewrite <- seq_shift, map_map. apply map_ext. intros k. lia.
Qed.

Lemma np_copyto_same_length {A} (dst src : list A) :
  length src = length dst -> np_copyto dst src = Ok src.
Proof. intros E. unfold np_copyto. rewrite E, Nat.eqb_refl. reflexivity. Qed.

Lemma np_copyto_length {A} (dst src row : list A) :
  np_copyto dst src = Ok row -> length row = length dst.
Proof.
  unfold np_copyto. destruct (Nat.eqb (length src) (length dst)) eqn:E.
  - intros [= <-]. apply Nat.eqb_eq, E.
  - destruct src as [|x [|]]; try discriminate. intros [= <-]. apply length_replicate.
Qed.

Lemma last_nonempty_default {A} (l : list A) (a d d' : A) :
  List.last (a :: l) d = List.last (a :: l) d'.
Proof.
  revert a. induction l as [|b l IH]; intros a; [reflexivity|].
  change (List.last (b :: l) d = List.last (b :: l) d'). apply IH.
Qed.

(** The loop that shifts the history moves every row but the first one place
    down and leaves the last row in place. *)
Lemma shift_rows_run (n : nat) (pre rest : array2) (x : list fval) :
  rows_of_length n (x :: rest) ->
  shift_rows (pre ++ x :: rest)
    (map Z.of_nat (seq (S (length pre)) (length rest)))
  = Ok (pre ++ rest ++ [List.last rest x]).
Proof.
  revert pre x. induction rest as [|y rest IH]; intros pre x Hrows.
  - reflexivity.
  - inversion Hrows as [|? ? Hx Hrest]; subst.
    inversion Hrest as [|? ? Hy Hrest']; subst.
    cbn [length seq map shift_rows].
    assert ((pre ++ x :: y :: rest) !! S (length pre) = Some y) as Hsrc.
    { rewrite lookup_app_r by lia. replace (S (length pre) - length pre)%nat with 1%nat by lia.
      reflexivity. }
    rewrite (py_getitem_nat _ _ _ Hsrc). cbn [mbind result_bind rbind].
    assert (copyto_row (pre ++ x :: y :: rest) (Z.of_nat (S (length pre)) - 1) y
            = Ok ((pre ++ [y]) ++ y :: rest)) as ->.
    { replace (Z.of_nat (S (length pre)) - 1) with (Z.of_nat (length pre)) by lia.
      unfold copyto_row.
      rewrite py_index_nat by (rewrite length_app; simpl; lia).
      cbn [mbind result_bind rbind].
      assert ((pre ++ x :: y :: rest) !! length pre = Some x) as Hdst.
      { rewrite lookup_app_r by lia. rewrite Nat.sub_diag. reflexivity. }
      rewrite (py_getitem_nat _ _ _ Hdst). cbn [mbind result_bind rbind].
      rewrite np_copyto_same_length by congruence. cbn [mbind result_bind rbind].
      rewrite insert_app_r_alt by lia. rewrite Nat.sub_diag. simpl.
      rewrite <- app_assoc. reflexivity. }
    cbn [mbind result_bind rbind].
    specialize (IH (pre ++ [y]) y Hrest).
    rewrite length_app in IH. simpl in IH.
    replace (length pre + 1)%nat with (S (length pre)) in IH by lia.
    rewrite IH. rewrite <- app_assoc. simpl.
    destruct rest as [|r rest]; [reflexivity|].
    rewrite (last_nonempty_default rest r y x). reflexivity.
Qed.


Lemma column_length (i n : nat) (a : array2) :
  rows_of_length n a -> (i < n)%nat -> length (column i a) = length a.
Proof.
  intros Hrows Hi. induction Hrows as [|row a Hrow _ IH]; [reflexivity|].
  destruct (lookup_lt_is_Some_2 row i ltac:(lia)) as [x Hx].
  rewrite (column_cons i row a x Hx). simpl. rewrite IH. reflexivity.
Qed.

Lemma np_average_axis0_length (a : array2) (n : nat) (freqs : list fval) :
  rows_of_length n a -> np_average_axis0 a = Ok freqs -> length freqs = n.
Proof.
  intros Hrows E. destruct a as [|r rs]; [discriminate|].
  injection E as <-. inversion Hrows as [|? ? Hr Hrs]; subst.
  rewrite length_map. apply foldl_zip_with_length. exact Hrs.
Qed.

(** The shift and the push together, on a rectangular history of [n + 1]
    rows: the oldest row goes, the incoming frame becomes the last row. *)
Lemma push_run (a g1 g2 : array2) (L : nat) (n : Z) (frame : list fval) :
  rows_of_length L a -> Z.of_nat (length a) = n + 1 ->
  shift_rows a (py_range 1 (n + 1)) = Ok g1 ->
  copyto_row g1 n frame = Ok g2 ->
  exists x rest row,
    a = x :: rest
    /\ np_copyto (List.last rest x) frame = Ok row
    /\ g2 = rest ++ [row]
    /\ rows_of_length L g2
    /\ Z.of_nat (length g2) = n + 1.
Proof.
  intros Hrows Hlen Hshift Hpush.
  destruct a as [|x rest].
  - exfalso. simpl in Hlen. assert (n = -1) as -> by lia.
    injection Hshift as <-. discriminate.
  - simpl in Hlen. assert (n = Z.of_nat (length rest)) as -> by lia.
    rewrite py_range_from_1, Nat2Z.id in Hshift.
    pose proof (shift_rows_run L [] rest x Hrows) as Hrun. simpl in Hrun.
    rewrite Hrun in Hshift. injection Hshift as <-.
    simpl in Hpush. unfold copyto_row in Hpush.
    rewrite py_index_nat in Hpush by (rewrite length_app; simpl; lia).
    cbn [mbind result_bind rbind] in Hpush.
    assert ((rest ++ [List.last rest x]) !! length rest = Some (List.last rest x)) as Hl.
    { rewrite lookup_app_r by lia. rewrite Nat.sub_diag. reflexivity. }
    rewrite (py_getitem_nat _ _ _ Hl) in Hpush.
    cbn [mbind result_bind rbind] in Hpush.
    destruct (np_copyto (List.last rest x) frame) as [row|e] eqn:Hrow; [|discriminate].
    cbn [mbind result_bind rbind] in Hpush. injection Hpush as <-.
    rewrite insert_app_r_alt by lia. rewrite Nat.sub_diag. simpl.
    exists x, rest, row.
    split; [reflexivity|]. split; [exact Hrow|]. split; [reflexivity|]. split.
    + inversion Hrows as [|? ? Hx Hrest]; subst.
      apply Forall_app. split; [exact Hrest|]. constructor; [|constructor].
      rewrite (np_copyto_length _ _ _ Hrow).
      assert (List.last rest x ∈ x :: rest) as Hin.
      { clear. revert x. induction rest as [|y rest IH]; intros x; [left|].
        right. destruct rest as [|z rest]; [left|].
        change (List.last (y :: z :: rest) x) with (List.last (z :: rest) x).
        rewrite (last_nonempty_default rest z x y). apply IH. }
      eapply (proj1 (Forall_forall _ _)) in Hrows; [exact Hrows|exact Hin].
    + rewrite length_app. simpl. lia.
Qed.

(** ** Conversion to decibels *)

Section Scale.
Context `{SignalLib}.

Lemma np_log10_finite (x : Q) : (0 < x)%Q -> exists q, np_log10 log10 x = Fin q.
Proof.
  intros Hx. unfold np_log10. apply Qltb_true in Hx. rewrite Hx. eexists. reflexivity.
Qed.

Lemma np_log10_zero (x : Q) : (x == 0)%Q -> np_log10 log10 x = NegInf.
Proof.
  intros Hx. unfold np_log10.
  assert (Qltb 0 x = false) as ->.
  { apply Qltb_false. rewrite Hx. apply Qle_refl. }
  apply Qeq_bool_iff in Hx. rewrite Hx. reflexivity.
Qed.

Lemma to_decibels_lookup (mags : list Q) (i : nat) :
  to_decibels mags !! i = (fun x => fscale 20 (np_log10 log10 x)) <$> mags !! i.
Proof. unfold to_decibels. apply list_lookup_fmap. Qed.

Lemma to_decibels_bin (mags : list Q) (i : nat) (x : Q) :
  mags !! i = Some x ->
  ((0 < x)%Q -> exists q, to_decibels mags !! i = Some (Fin q))
  /\ ((x == 0)%Q -> to_decibels mags !! i = Some NegInf).
Proof.
  intros Hi. rewrite to_decibels_lookup, Hi. simpl. split; intros Hx.
  - destruct (np_log10_finite x Hx) as [q ->]. eexists. reflexivity.
  - rewrite (np_log10_zero x Hx). reflexivity.
Qed.

End Scale.

Lemma np_minimum_neg_inf (a b : fval) :
  is_nan a = false -> is_nan b = false -> a = NegInf \/ b = NegInf ->
  np_minimum a b = NegInf.
Proof.
  intros Ha Hb [-> | ->]; unfold np_minimum; rewrite ?Ha, ?Hb; simpl.
  - destruct b; try discriminate; reflexivity.
  - destruct a; try discriminate; reflexivity.
Qed.

Lemma np_minimum_not_nan (a b : fval) :
  is_nan a = false -> is_nan b = false -> is_nan (np_minimum a b) = false.
Proof.
  intros Ha Hb. unfold np_minimum. rewrite Ha, Hb. destruct (flt b a); assumption.
Qed.

Lemma foldl_np_minimum_neg_inf (xs : list fval) (acc : fval) :
  Forall (fun v => is_nan v = false) xs -> is_nan acc = false ->
  acc = NegInf \/ NegInf ∈ xs ->
  foldl np_minimum acc xs = NegInf.
Proof.
  revert acc. induction xs as [|x xs IH]; intros acc Hxs Hacc Hin.
  - destruct Hin as [->|Hin]; [reflexivity|inversion Hin].
  - inversion Hxs as [|? ? Hx Hxs']; subst. simpl.
    apply IH; [exact Hxs'|apply np_minimum_not_nan; assumption|].
    destruct Hin as [->|Hin].
    + left. apply np_minimum_neg_inf; auto.
    + apply elem_of_cons in Hin as [<-|Hin]; [|right; exact Hin].
      left. apply np_minimum_neg_inf; auto.
Qed.

Lemma np_min_neg_inf (frame : list fval) :
  Forall (fun v => is_nan v = false) frame -> NegInf ∈ frame ->
  np_min frame = Ok NegInf.
Proof.
  intros Hf Hin. destruct frame as [|x xs]; [inversion Hin|].
  inversion Hf as [|? ? Hx Hxs]; subst. simpl. f_equal.
  apply foldl_np_minimum_neg_inf; [exact Hxs|exact Hx|].
  apply elem_of_cons in Hin as [<-|Hin]; [left; reflexivity|right; exact Hin].
Qed.

Lemma py_min_neg_inf (c : fval) : py_min NegInf c = NegInf.
Proof. unfold py_min. destruct c; reflexivity. Qed.

Section Decibels.
Context `{SignalLib}.

Lemma to_decibels_not_nan (mags : list Q) :
  Forall (fun y => (0 <= y)%Q) mags ->
  Forall (fun v => is_nan v = false) (to_decibels mags).
Proof.
  intros Hm. unfold to_decibels. apply Forall_forall. intros v Hv.
  apply list_elem_of_In, in_map_iff in Hv as (y & <- & Hy).
  apply list_elem_of_In in Hy.
  eapply (proj1 (Forall_forall _ _)) in Hm; [|exact Hy].
  unfold np_log10. destruct (Qltb 0 y) eqn:E1; [reflexivity|].
  destruct (Qeq_bool y 0) eqn:E2; [reflexivity|].
  exfalso. apply Qltb_false in E1.
  assert (y == 0)%Q as E0 by (apply Qle_antisym; assumption).
  apply Qeq_bool_iff in E0. congruence.
Qed.

Lemma track_max_set_range_keep_min (frame : list fval) :
  keeps same_min (track_max frame;; set_range).
Proof.
  assert (forall a, same_min a a) as R by reflexivity.
  assert (forall a b c, same_min a b -> same_min b c -> same_min a c) as T
    by (unfold same_min; congruence).
  unfold track_max, set_range.
  repeat first
    [ apply (keeps_bind _ T); [|intros ?]
    | apply (keeps_gets _ R)
    | apply (keeps_lift _ R)
    | apply (keeps_ret _ R)
    | apply (keeps_mret _ R)
    | apply keeps_raise
    | apply keeps_if
    | apply keeps_modify; intros ?; reflexivity
    | match goal with
      | |- keeps _ (match ?o with Some _ => _ | None => _ end) => destruct o
      end ].
Qed.

(** In auto mode a frame that holds minus infinity (and no NaN) leaves the
    lower bound at minus infinity. *)
Lemma update_intensity_neg_inf (frame : list fval) (m m' : FreqShowModel) :
  Forall (fun v => is_nan v = false) frame -> NegInf ∈ frame ->
  min_auto_scale m = true ->
  update_intensity frame m = Ok (tt, m') ->
  min_intensity m' = Some NegInf.
Proof.
  intros Hf Hin Ha E. unfold update_intensity in E.
  apply bind_ok_inv in E as ([] & m1 & E1 & E). cbv beta in E.
  assert (min_intensity m1 = Some NegInf) as H1.
  { unfold track_min in E1. rewrite run_gets, Ha in E1.
    rewrite (run_lift_ok _ _ _ _ (np_min_neg_inf frame Hf Hin)) in E1.
    rewrite run_gets in E1. injection E1 as <-. simpl.
    destruct (min_intensity m); [rewrite py_min_neg_inf|]; reflexivity. }
  rewrite <- H1. exact (track_max_set_range_keep_min frame _ _ _ E).
Qed.

(** C6, as amended.  The decibel conversion of [get_data] gives a finite
    value for every strictly positive magnitude bin.  A bin equal to 0 is
    converted to minus infinity, with no floor, and when the lower bound is
    auto-scaled that value becomes [min_intensity]. *)
Theorem decibels_of_bins (mags : list Q) (i : nat) (x : Q) :
  mags !! i = Some x ->
  ((0 < x)%Q -> exists q, to_decibels mags !! i = Some (Fin q))
  /\ ((x == 0)%Q ->
      to_decibels mags !! i = Some NegInf
      /\ forall m m',
           Forall (fun y => (0 <= y)%Q) mags ->
           min_auto_scale m = true ->
           update_intensity (to_decibels mags) m = Ok (tt, m') ->
           min_intensity m' = Some NegInf).
Proof.
  intros Hi.
  destruct (to_decibels_bin mags i x Hi) as [Hpos Hzero].
  split; [exact Hpos|]. intros Hx. split; [exact (Hzero Hx)|].
  intros m m' Hnn Ha E.
  apply (update_intensity_neg_inf (to_decibels mags) m m');
    [apply to_decibels_not_nan, Hnn| |exact Ha|exact E].
  apply list_elem_of_lookup. exists i. exact (Hzero Hx).
Qed.
End Decibels.

(** ** The auto-scaled bounds across frames *)

Section Tracking.
Context `{SignalLib}.

Lemma update_intensity_widens (frame : list fval) (m m' : FreqShowModel) :
  min_auto_scale m = true -> max_auto_scale m = true ->
  finite_or_unset (min_intensity m) -> finite_or_unset (max_intensity m) ->
  frame <> [] -> Forall is_finite frame ->
  update_intensity frame m = Ok (tt, m') ->
  same_settings m m' /\ widened m m'.
Proof.
  intros Ha Hb Hlo Hhi Hne Hfin Hrun.
  destruct (np_min_finite frame Hne Hfin) as (fmin & Hmin & Hfmin).
  destruct (np_max_finite frame Hne Hfin) as (fmax & Hmax & Hfmax).
  destruct (update_intensity_run frame m fmin fmax Hmin Hmax) as (lo & hi & E & Hl & _ & Hh & _).
  { split; intros; congruence. }
  rewrite E in Hrun. injection Hrun as <-.
  specialize (Hl Ha). specialize (Hh Hb).
  split; [repeat split|]. split.
  - exists lo. split; [reflexivity|]. subst lo.
    destruct (min_intensity m) as [c|]; simpl in Hlo.
    + destruct (py_min_lowers fmin c Hfmin Hlo) as [F L].
      split; [exact F|]. intros lo [= <-]. exact L.
    + split; [exact Hfmin|]. intros lo [=].
  - exists hi. split; [reflexivity|]. subst hi.
    destruct (max_intensity m) as [c|]; simpl in Hhi.
    + destruct (py_max_raises fmax c Hfmax Hhi) as [F L].
      split; [exact F|]. intros hi [= <-]. exact L.
    + split; [exact Hfmax|]. intros hi [=].
Qed.

Lemma get_data_widens (frame : list fval) (m m' : FreqShowModel) :
  min_auto_scale m = true -> max_auto_scale m = true ->
  finite_or_unset (min_intensity m) -> finite_or_unset (max_intensity m) ->
  Forall is_finite frame ->
  get_data m = Ok (frame, m') ->
  same_settings m m' /\ widened m m'.
Proof.
  intros Ha Hb Hlo Hhi Hfin Hrun.
  unfold get_data in Hrun.
  apply bind_ok_inv in Hrun as (mags & m1 & Hm & Hrun). cbv beta zeta in Hrun.
  apply bind_ok_inv in Hrun as ([] & m2 & Hu & Hrun). cbv beta in Hrun.
  injection Hrun as <- <-.
  destruct (get_magnitudes_keeps _ _ _ Hm) as (Hs & Hmin & Hmax).
  pose proof Hs as (_ & Ea & Eb & _).
  assert (to_decibels mags <> []) as Hne.
  { intros E. rewrite E in Hu. revert Hu.
    unfold update_intensity, track_min. run_m.
    rewrite Ea, Ha. discriminate. }
  destruct (update_intensity_widens (to_decibels mags) m1 m2) as (Hs2 & Hw);
    try congruence.
  split; [eapply same_settings_trans; eassumption|].
  unfold widened in *. rewrite <- Hmin, <- Hmax. exact Hw.
Qed.

(** C9.  Across any number of frames acquired one after the other with no
    setter call in between, both bounds auto-scaled and every frame value
    finite, starting from bounds that are unresolved or finite: a resolved
    [min_intensity] ends no higher and a resolved [max_intensity] no lower
    than it started, and both stay finite (so the same holds between any two
    points of the sequence). *)
Theorem auto_bounds_only_widen (n : nat) (m m' : FreqShowModel)
    (frames : list (list fval)) :
  min_auto_scale m = true -> max_auto_scale m = true ->
  finite_or_unset (min_intensity m) -> finite_or_unset (max_intensity m) ->
  get_frames n m = Ok (frames, m') ->
  Forall (Forall is_finite) frames ->
  (forall lo, min_intensity m = Some lo ->
     exists lo', min_intensity m' = Some lo' /\ fle lo' lo = true)
  /\ (forall hi, max_intensity m = Some hi ->
     exists hi', max_intensity m' = Some hi' /\ fle hi hi' = true)
  /\ finite_or_unset (min_intensity m') /\ finite_or_unset (max_intensity m').
Proof.
  revert m frames. induction n as [|n IH]; intros m frames Ha Hb Hlo Hhi Hrun Hfin.
  - injection Hrun as _ <-. repeat split; try assumption.
    + intros lo E. exists lo. split; [exact E|]. rewrite E in Hlo. apply fle_refl_finite, Hlo.
    + intros hi E. exists hi. split; [exact E|]. rewrite E in Hhi. apply fle_refl_finite, Hhi.
  - simpl in Hrun.
    apply bind_ok_inv in Hrun as (frame & m1 & Hg & Hrun). cbv beta in Hrun.
    apply bind_ok_inv in Hrun as (rest & m2 & Hr & Hrun). cbv beta in Hrun.
    injection Hrun as <- <-. inversion Hfin as [|? ? Hf1 Hfr]; subst.
    destruct (get_data_widens frame m m1 Ha Hb Hlo Hhi Hf1 Hg)
      as ((_ & Ea & Eb & _) & (lo1 & El1 & Fl1 & Ll1) & (hi1 & Eh1 & Fh1 & Lh1)).
    destruct (IH m1 rest) as (Hmin & Hmax & Fmin & Fmax); try congruence.
    { rewrite El1. exact Fl1. }
    { rewrite Eh1. exact Fh1. }
    repeat split; try assumption.
    + intros lo E. destruct (Hmin lo1 El1) as (lo' & E' & L').
      exists lo'. split; [exact E'|]. eapply fle_trans; [exact L'|]. apply Ll1, E.
    + intros hi E. destruct (Hmax hi1 Eh1) as (hi' & E' & L').
      exists hi'. split; [exact E'|]. eapply fle_trans; [|exact L']. apply Lh1, E.
Qed.
End Tracking.

(** ** The frame history of [InstantSpectrogram] *)

Section History.
Context `{SignalLib}.

Lemma fft_ave_int_inv (m m' : FreqShowModel) (n : Z) :
  fft_ave_int m = Ok (n, m') -> m' = m /\ fft_ave m = AveInt n.
Proof.
  unfold fft_ave_int. run_m. destruct (fft_ave m) as [k|]; [|discriminate].
  intros [= <- <-]. split; reflexivity.
Qed.

Lemma fill_history_inv (m m' : FreqShowModel) (v : InstantSpectrogram) :
  fill_history m = Ok (v, m') ->
  exists n fresh,
    fft_ave m = AveInt n /\ 0 <= n + 1
    /\ get_data m = Ok (fresh, m')
    /\ v = {| checkfirst := n + 1; freqsfirst := fresh;
              freqsinit := replicate (Z.to_nat (n + 1)) fresh;
              freqgrabs := replicate (Z.to_nat (n + 1)) fresh |}.
Proof.
  intros E. unfold fill_history in E.
  apply bind_ok_inv in E as (n & m0 & Hn & E). cbv beta zeta in E.
  apply fft_ave_int_inv in Hn as [-> Hn].
  apply bind_ok_inv in E as (fresh & m1 & Hg & E). cbv beta in E.
  apply bind_ok_inv in E as (a & m2 & Ht & E). cbv beta in E.
  unfold lift, np_tile in Ht. destruct (n + 1 <? 0) eqn:En; [discriminate|].
  injection Ht as <- <-. injection E as <- <-.
  exists n, fresh. repeat split; auto. lia.
Qed.

Lemma fill_history_shaped (m m' : FreqShowModel) (v : InstantSpectrogram) :
  fill_history m = Ok (v, m') -> history_shaped v.
Proof.
  intros E. apply fill_history_inv in E as (n & fresh & _ & Hn & _ & ->).
  split; simpl.
  - rewrite length_replicate. lia.
  - apply Forall_replicate. reflexivity.
Qed.

Lemma lift_ok_inv {A} (r : result A) (m m' : FreqShowModel) (a : A) :
  lift r m = Ok (a, m') -> r = Ok a /\ m' = m.
Proof. unfold lift. destruct r; [|discriminate]. intros [= <- <-]. split; reflexivity. Qed.

Lemma reduce_history_length (pk : pyflag) (a : array2) (n : nat) (freqs : list fval) :
  rows_of_length n a -> reduce_history pk a = Ok freqs -> length freqs = n.
Proof.
  intros Hrows. destruct pk; simpl; [| |discriminate].
  - intros E. apply (np_max_axis0_columns a n freqs Hrows E).
  - apply np_average_axis0_length. exact Hrows.
Qed.

(** What a call of [render_spectrogram] that returns has done. *)
Lemma render_spectrogram_inv (v v' : InstantSpectrogram) (m m' : FreqShowModel)
    (freqs : list fval) :
  history_shaped v ->
  render_spectrogram v m = Ok ((freqs, v'), m') ->
  exists freqslast m1 n v1 x rest row,
    get_data m = Ok (freqslast, m1)
    /\ fft_ave m = AveInt n
    /\ (if negb (Nat.eqb (length (freqsfirst v)) (length freqslast))
            || negb (checkfirst v =? n + 1)
        then fill_history m1 = Ok (v1, m')
        else v1 = v /\ m' = m1)
    /\ history_shaped v1
    /\ checkfirst v1 = n + 1
    /\ freqgrabs v1 = x :: rest
    /\ np_copyto (List.last rest x) freqslast = Ok row
    /\ v' = {| checkfirst := checkfirst v1; freqsfirst := freqsfirst v1;
               freqsinit := freqsinit v1; freqgrabs := rest ++ [row] |}
    /\ reduce_history (peak m) (rest ++ [row]) = Ok freqs
    /\ rows_of_length (length (freqsfirst v1)) (rest ++ [row])
    /\ Z.of_nat (length (rest ++ [row])) = n + 1.
Proof.
  intros Hv E. unfold render_spectrogram in E.
  apply bind_ok_inv in E as (freqslast & m1 & Hg & E). cbv beta in E.
  apply bind_ok_inv in E as (n & m1' & Hn & E). cbv beta in E.
  apply fft_ave_int_inv in Hn as [-> Hn].
  apply bind_ok_inv in E as (v1 & m2 & Hfill & E). cbv beta in E.
  apply bind_ok_inv in E as (n' & m2' & Hn' & E). cbv beta in E.
  apply fft_ave_int_inv in Hn' as [-> Hn'].
  apply bind_ok_inv in E as (g1 & m3 & Hshift & E). cbv beta in E.
  apply lift_ok_inv in Hshift as [Hshift ->].
  apply bind_ok_inv in E as (g2 & m3 & Hpush & E). cbv beta in E.
  apply lift_ok_inv in Hpush as [Hpush ->].
  apply bind_ok_inv in E as (pk & m3 & Hpk & E). cbv beta in E.
  injection Hpk as <- <-.
  apply bind_ok_inv in E as (fr & m3 & Hred & E). cbv beta in E.
  apply lift_ok_inv in Hred as [Hred ->].
  injection E as <- <- <-.
  pose proof (get_data_keeps _ _ _ Hg) as Hk1.
  assert (fft_ave m = AveInt n) as Hnm.
  { destruct Hk1 as (_ & _ & _ & _ & _ & <- & _). exact Hn. }
  assert (same_settings m1 m2 /\ history_shaped v1 /\ checkfirst v1 = n + 1
          /\ (if negb (Nat.eqb (length (freqsfirst v)) (length freqslast))
                  || negb (checkfirst v =? n + 1)
              then fill_history m1 = Ok (v1, m2)
              else v1 = v /\ m2 = m1)) as (Hk2 & Hv1 & Hc1 & Hbranch).
  { destruct (negb (Nat.eqb (length (freqsfirst v)) (length freqslast))
              || negb (checkfirst v =? n + 1)) eqn:Ec.
    - pose proof (fill_history_shaped _ _ _ Hfill) as Hs.
      destruct (fill_history_inv _ _ _ Hfill) as (k & fresh & Hk & _ & Hfresh & Ev).
      split; [exact (get_data_keeps _ _ _ Hfresh)|]. split; [exact Hs|].
      split; [rewrite Ev; simpl; congruence|]. exact Hfill.
    - injection Hfill as <- <-.
      apply orb_false_iff in Ec as [_ Ec]. apply negb_false_iff, Z.eqb_eq in Ec.
      split; [apply same_settings_refl|]. split; [exact Hv|].
      split; [exact Ec|]. split; reflexivity. }
  assert (n' = n) as ->.
  { destruct Hk2 as (_ & _ & _ & _ & _ & Ef & _). congruence. }
  destruct Hv1 as [Hlen Hrows].
  destruct (push_run (freqgrabs v1) g1 g2 (length (freqsfirst v1)) n freqslast
              Hrows ltac:(lia) Hshift Hpush)
    as (x & rest & row & Ha & Hrow & -> & Hrows2 & Hlen2).
  exists freqslast, m1, n, v1, x, rest, row.
  assert (peak m2 = peak m) as Hpk.
  { destruct Hk1 as (_ & _ & _ & _ & _ & _ & Ep1 & _).
    destruct Hk2 as (_ & _ & _ & _ & _ & _ & Ep2 & _). congruence. }
  rewrite Hpk in Hred.
  repeat split; try assumption. 
Qed.
End History.

(** ** Calls that return *)

Section Returns.
Context `{SignalLib}.

(** On a valid configuration [get_data] returns [width] values and leaves a
    valid configuration. *)
Lemma get_data_valid (m : FreqShowModel) :
  valid_config m ->
  exists frame m',
    get_data m = Ok (frame, m')
    /\ Z.of_nat (length frame) = width m
    /\ valid_config m'.
Proof.
  intros (Hw & Hzf & Hfr & (z & m1 & Hzb & Hz) & Hb & Hfix & Hdev).
  destruct (Hdev (sdr_reads (sdr m))) as (raw & Hraw & Hlen).
  destruct (get_data_ok m m1 raw z Hw Hzf Hzb Hz Hb Hfix Hraw Hlen)
    as (frame & lo & hi & E & Hf).
  eexists _, _. split; [exact E|]. split; [exact Hf|].
  destruct (zoom_bins_ok m ltac:(lia) Hzf) as (z' & m1' & Hzb' & Hwz & Hcase).
  rewrite Hzb in Hzb'. injection Hzb' as <- <-.
  set (post := with_range _ _).
  assert (width post = width m /\ full_rate post = full_rate m
          /\ swap_iq post = swap_iq m /\ sdr_stream (sdr post) = sdr_stream (sdr m))
    as (Ew & Er & Es & Ed).
  { destruct Hcase as [[-> _]|[-> _]]; repeat split. }
  assert (0 < zoom_fac post)%Q as Hzfp.
  { destruct Hcase as [[-> _]|[-> _]]; assumption. }
  split; [rewrite Ew; exact Hw|]. split; [exact Hzfp|].
  split; [rewrite Er; exact Hfr|]. split.
  { destruct Hcase as [[-> Hlt]|[-> ->]].
    - destruct (zoom_bins_cases m) as [[_ Hc]|[Ec _]];
        [|apply Qltb_true in Hlt; congruence].
      destruct (zoom_bins_cases post) as [[_ Hc']|[Ec' _]].
      + change (full_rate post) with (full_rate m) in Hc'.
        change (zoom_fac post) with (zoom_fac m) in Hc'.
        change (width post) with (width m) in Hc'.
        rewrite Hc in Hzb.
        destruct (py_div (full_rate m) (zoom_fac m)); [|discriminate].
        injection Hzb as Hzz. eexists _, _. split; [exact Hc'|]. rewrite Hzz. exact Hz.
      + change (Qltb (zoom_fac m) (full_rate m) = false) in Ec'.
        apply Qltb_true in Hlt. congruence.
    - destruct (zoom_bins_cases post) as [[Ec' _]|[_ Hc']].
      + change (Qltb (full_rate m) (full_rate m) = true) in Ec'.
        apply Qltb_true in Ec'. exfalso. revert Ec'. apply Qlt_irrefl.
      + eexists _, _. split; [exact Hc'|]. rewrite Ew. unfold SDR_SAMPLE_SIZE in *. lia. }
  split; [rewrite Es; exact Hb|]. split.
  { split; intros _; discriminate. }
  rewrite Ed. exact Hdev.
Qed.

(** On a valid configuration, with an integer depth of at least 0 and a
    boolean [peak], [render_spectrogram] returns: neither the rebuilding of
    the history nor the push can raise. *)
Lemma render_spectrogram_returns (v : InstantSpectrogram) (m : FreqShowModel) (n : Z) :
  valid_config m -> history_shaped v ->
  fft_ave m = AveInt n -> 0 <= n -> is_boolean (peak m) ->
  exists freqs v' m', render_spectrogram v m = Ok ((freqs, v'), m').
Proof.
  intros Hvalid [Hrows_n Hrows] Hn Hn0 Hpk.
  destruct (get_data_valid m Hvalid) as (freqslast & m1 & Hg & Hfl & Hvalid1).
  pose proof (get_data_keeps _ _ _ Hg) as Hk1.
  assert (fft_ave m1 = AveInt n) as Hn1.
  { destruct Hk1 as (_ & _ & _ & _ & _ & -> & _). exact Hn. }
  assert (width m1 = width m) as Ew1 by apply Hk1.
  assert (fft_ave_int m1 = Ok (n, m1)) as Hfa1.
  { unfold fft_ave_int. run_m. rewrite Hn1. reflexivity. }
  unfold render_spectrogram.
  rewrite (run_bind_ok _ _ _ _ _ Hg), (run_bind_ok _ _ _ _ _ Hfa1).
  (* the history that the shift starts from *)
  assert (exists v1 m2,
            (if negb (Nat.eqb (length (freqsfirst v)) (length freqslast))
                || negb (checkfirst v =? n + 1)
             then fill_history else ret v) m1 = Ok (v1, m2)
            /\ history_shaped v1 /\ checkfirst v1 = n + 1
            /\ length (freqsfirst v1) = length freqslast
            /\ fft_ave m2 = AveInt n /\ peak m2 = peak m)
    as (v1 & m2 & Hfill & [Hlen1 Hrows1] & Hc1 & Hl1 & Hn2 & Hpk2).
  { destruct (negb (Nat.eqb (length (freqsfirst v)) (length freqslast))
              || negb (checkfirst v =? n + 1)) eqn:Ec.
    - destruct (get_data_valid m1 Hvalid1) as (fresh & m2 & Hg2 & Hfl2 & _).
      pose proof (get_data_keeps _ _ _ Hg2) as Hk2.
      eexists _, m2. split.
      { unfold fill_history. rewrite (run_bind_ok _ _ _ _ _ Hfa1). cbv zeta.
        rewrite (run_bind_ok _ _ _ _ _ Hg2).
        unfold np_tile. destruct (n + 1 <? 0) eqn:En; [lia|]. reflexivity. }
      simpl. split.
      { split; simpl; [rewrite length_replicate; lia|apply Forall_replicate; reflexivity]. }
      split; [reflexivity|]. split; [apply Nat2Z.inj; lia|].
      destruct Hk1 as (_ & _ & _ & _ & _ & _ & Ep1 & _).
      destruct Hk2 as (_ & _ & _ & _ & _ & Ef2 & Ep2 & _).
      split; congruence.
    - apply orb_false_iff in Ec as [Ec1 Ec2].
      apply negb_false_iff, Nat.eqb_eq in Ec1. apply negb_false_iff, Z.eqb_eq in Ec2.
      exists v, m1. split; [reflexivity|]. split; [split; assumption|].
      split; [exact Ec2|]. split; [exact Ec1|]. split; [exact Hn1|apply Hk1]. }
  rewrite (run_bind_ok _ _ _ _ _ Hfill).
  assert (fft_ave_int m2 = Ok (n, m2)) as Hfa2.
  { unfold fft_ave_int. run_m. rewrite Hn2. reflexivity. }
  rewrite (run_bind_ok _ _ _ _ _ Hfa2).
  destruct (freqgrabs v1) as [|x rest] eqn:Ering; [simpl in Hlen1; lia|].
  simpl in Hlen1. assert (n = Z.of_nat (length rest)) as Hnr by lia.
  pose proof (shift_rows_run _ [] rest x Hrows1) as Hshift. simpl in Hshift.
  rewrite py_range_from_1, Hnr, Nat2Z.id.
  rewrite (run_lift_ok _ _ _ _ Hshift).
  assert (length (List.last rest x) = length freqslast) as Hlast.
  { rewrite <- Hl1.
    assert (List.last rest x ∈ x :: rest) as Hin.
    { clear. revert x. induction rest as [|y rest IH]; intros x; [left|].
      right. destruct rest as [|z rest]; [left|].
      change (List.last (y :: z :: rest) x) with (List.last (z :: rest) x).
      rewrite (last_nonempty_default rest z x y). apply IH. }
    eapply (proj1 (Forall_forall _ _)) in Hrows1; [exact Hrows1|exact Hin]. }
  assert (copyto_row (rest ++ [List.last rest x]) (Z.of_nat (length rest)) freqslast
          = Ok (rest ++ [freqslast])) as Hpush.
  { unfold copyto_row.
    rewrite py_index_nat by (rewrite length_app; simpl; lia).
    cbn [mbind result_bind rbind].
    assert ((rest ++ [List.last rest x]) !! length rest = Some (List.last rest x)) as Hl.
    { rewrite lookup_app_r by lia. rewrite Nat.sub_diag. reflexivity. }
    rewrite (py_getitem_nat _ _ _ Hl). cbn [mbind result_bind rbind].
    rewrite np_copyto_same_length by congruence. cbn [mbind result_bind rbind].
    rewrite insert_app_r_alt by lia. rewrite Nat.sub_diag. reflexivity. }
  rewrite (run_lift_ok _ _ _ _ Hpush).
  unfold get_peak. rewrite run_gets, Hpk2.
  assert (exists freqs, reduce_history (peak m) (rest ++ [freqslast]) = Ok freqs)
    as (freqs & Hred).
  { destruct Hpk as [-> | ->]; simpl.
    - unfold np_max_axis0. destruct (rest ++ [freqslast]) eqn:E.
      + destruct rest; discriminate.
      + eexists. reflexivity.
    - unfold np_average_axis0. destruct (rest ++ [freqslast]) eqn:E.
      + destruct rest; discriminate.
      + eexists. reflexivity. }
  rewrite (run_lift_ok _ _ _ _ Hred).
  eexists _, _, _. reflexivity.
Qed.
(** Changing the averaging depth leaves a valid configuration valid. *)
Lemma valid_config_fft_ave (a : fft_ave_value) (m : FreqShowModel) :
  valid_config m -> valid_config (with_fft_ave a m).
Proof.
  intros (Hw & Hzf & Hfr & (z & m1 & Hzb & Hz) & Hb & Hfix & Hdev).
  split; [exact Hw|]. split; [exact Hzf|]. split; [exact Hfr|].
  split; [|split; [exact Hb|split; [exact Hfix|exact Hdev]]].
  destruct (zoom_bins_cases (with_fft_ave a m)) as [[Hc' E']|[_ E']].
  - change (Qltb (zoom_fac m) (full_rate m) = true) in Hc'.
    destruct (zoom_bins_cases m) as [[_ E]|[Hc _]]; [|congruence].
    rewrite E in Hzb. rewrite E'.
    change (full_rate (with_fft_ave a m)) with (full_rate m).
    change (zoom_fac (with_fft_ave a m)) with (zoom_fac m).
    change (width (with_fft_ave a m)) with (width m).
    destruct (py_div (full_rate m) (zoom_fac m)); [|discriminate].
    injection Hzb as Hzz _. eexists _, _. split; [reflexivity|]. rewrite Hzz. exact Hz.
  - eexists _, _. split; [exact E'|].
    change (width m < SDR_SAMPLE_SIZE). unfold SDR_SAMPLE_SIZE in *. lia.
Qed.
(** On a valid configuration any number of frames can be acquired in a row;
    each has [width] values. *)
Lemma get_frames_returns (n : nat) (m : FreqShowModel) :
  valid_config m ->
  exists frames m',
    get_frames n m = Ok (frames, m')
    /\ length frames = n
    /\ Forall (fun frame => Z.of_nat (length frame) = width m) frames
    /\ valid_config m'.
Proof.
  revert m. induction n as [|n IH]; intros m Hvalid.
  - exists [], m. split; [reflexivity|]. split; [reflexivity|]. split; [apply Forall_nil_2|exact Hvalid].
  - destruct (get_data_valid m Hvalid) as (frame & m1 & Hg & Hlen & Hvalid1).
    destruct (IH m1 Hvalid1) as (frames & m2 & Hrun & Hn & Hall & Hvalid2).
    exists (frame :: frames), m2. split.
    { simpl. rewrite (run_bind_ok _ _ _ _ _ Hg), (run_bind_ok _ _ _ _ _ Hrun).
      reflexivity. }
    split; [simpl; congruence|]. split; [|exact Hvalid2].
    constructor; [exact Hlen|].
    rewrite <- (proj1 (get_data_keeps _ _ _ Hg)). exact Hall.
Qed.
(** On a valid configuration, the frame that [render_spectrogram] returns has
    one value for every pixel of the display width. *)
Lemma render_spectrogram_width (v v' : InstantSpectrogram) (m m' : FreqShowModel)
    (freqs : list fval) :
  valid_config m -> history_shaped v ->
  render_spectrogram v m = Ok ((freqs, v'), m') ->
  Z.of_nat (length freqs) = width m.
Proof.
  intros Hvalid Hv E.
  destruct (render_spectrogram_inv v v' m m' freqs Hv E)
    as (freqslast & m1 & n & v1 & x & rest & row & Hg & _ & Hbranch & _ & _ & _ & _
        & _ & Hred & Hrows & _).
  rewrite (reduce_history_length _ _ _ _ Hrows Hred).
  destruct (get_data_valid m Hvalid) as (frame & m1' & Hg' & Hfl & Hvalid1).
  rewrite Hg in Hg'. injection Hg' as <- <-.
  destruct (negb (Nat.eqb (length (freqsfirst v)) (length freqslast))
            || negb (checkfirst v =? n + 1)) eqn:Ec.
  - apply fill_history_inv in Hbranch as (k & fresh & _ & _ & Hg2 & ->).
    destruct (get_data_valid m1 Hvalid1) as (frame2 & m2 & Hg2' & Hfl2 & _).
    rewrite Hg2 in Hg2'. injection Hg2' as <- <-.
    cbn [freqsfirst]. rewrite Hfl2.
    exact (proj1 (get_data_keeps _ _ _ Hg)).
  - destruct Hbranch as [-> _].
    apply orb_false_iff in Ec as [Ec _].
    apply negb_false_iff, Nat.eqb_eq in Ec. rewrite Ec. exact Hfl.
Qed.

End Returns.

(** ** The claims about [get_data] and [render_spectrogram] *)

Section Claims.
Context `{SignalLib}.

(** Where [get_data] keeps the promise of its docstring.  For a display
    width of at least 1 and at most [SDR_SAMPLE_SIZE - 2], a zoom bin count
    below [SDR_SAMPLE_SIZE], a positive zoom span, a boolean [swap_iq], fixed
    bounds that are set and a tuner that delivers [SDR_SAMPLE_SIZE] samples,
    [get_data] returns a frame of exactly [width] values, cropped or not. *)
Theorem get_data_returns_width (m m1 : FreqShowModel) (raw : list sample) (z : Z) :
  1 <= width m <= SDR_SAMPLE_SIZE - 2 ->
  (0 < zoom_fac m)%Q ->
  zoom_bins m = Ok (z, m1) -> z < SDR_SAMPLE_SIZE ->
  is_boolean (swap_iq m) ->
  fixed_bounds_set m ->
  sdr_stream (sdr m) (sdr_reads (sdr m)) = Ok raw ->
  Z.of_nat (length raw) = SDR_SAMPLE_SIZE ->
  exists frame m',
    get_data m = Ok (frame, m')
    /\ Z.of_nat (length frame) = width m
    /\ width m' = width m.
Proof.
  intros Hw Hzf Hzb Hz Hb Hfix Hraw Hlen.
  destruct (get_data_ok m m1 raw z Hw Hzf Hzb Hz Hb Hfix Hraw Hlen)
    as (frame & lo & hi & E & Hf).
  exists frame. eexists. split; [exact E|]. split; [exact Hf|].
  exact (proj1 (get_data_keeps _ _ _ E)).
Qed.

(** C5, as amended.  A window shape outside the recognized set is not
    rejected: [set_filter] stores it, [get_data] binds [window] to the
    scalar 1, and the samples go to the transform multiplied by 1, which is
    what the [boxcar] window of the same length gives. *)
Theorem unknown_shape_is_not_rejected (name : string) (beta : Q) (zoom : Z)
    (freqbins : list sample) (m : FreqShowModel) :
  name ∉ recognized_shapes ->
  set_filter name m = Ok (tt, with_filter name m)
  /\ select_window name beta zoom = WScalar 1
  /\ apply_window freqbins (select_window name beta zoom)
     = Ok (map (fun s => smul s 1) freqbins)
  /\ (Z.of_nat (length freqbins) = Z.min (zoom + 2) SDR_SAMPLE_SIZE ->
      0 <= zoom + 2 ->
      apply_window freqbins (select_window "boxcar" beta zoom)
      = apply_window freqbins (select_window name beta zoom)).
Proof.
  intros Hname.
  assert (select_window name beta zoom = WScalar 1) as Hsel.
  { unfold select_window.
    repeat match goal with
           | |- context [String.eqb name ?s] =>
               destruct (String.eqb_spec name s) as [->|_];
               [exfalso; apply Hname; unfold recognized_shapes;
                repeat first [left | right]|]
           end.
    reflexivity. }
  split; [reflexivity|]. split; [exact Hsel|]. rewrite Hsel. split; [reflexivity|].
  intros Hlen Hz. simpl. unfold np_multiply.
  set (w := py_slice 0 (zoom + 2) (window_of boxcar SDR_SAMPLE_SIZE)).
  assert (length freqbins = length w) as Hw.
  { apply Nat2Z.inj. unfold w. rewrite py_slice_prefix_length by lia.
    rewrite window_of_length by (unfold SDR_SAMPLE_SIZE; lia). lia. }
  rewrite Hw, Nat.eqb_refl. f_equal.
  assert (Forall (fun c => c = 1%Q) w) as Hones.
  { unfold w, py_slice. apply Forall_take, Forall_drop. unfold window_of.
    apply Forall_forall. intros c Hc. apply list_elem_of_In, in_map_iff in Hc as (k & <- & _).
    reflexivity. }
  clear -Hw Hones. revert freqbins Hw.
  induction Hones as [|c w -> _ IH]; intros [|s freqbins] Hw; try discriminate; [reflexivity|].
  simpl. f_equal. apply IH. simpl in Hw. congruence.
Qed.

(** C7.  With [peak] true, [render_spectrogram] returns on every valid
    configuration with a depth [fft_ave] of at least 0, with one value for
    every pixel of the display width; and a call that returns has reduced a
    history of [fft_ave + 1] frames, each with as many bins as the reduced
    frame has values, where at every bin the reduced value is the maximum of
    that bin over all the frames held. *)
Theorem peak_hold_is_column_max (v : InstantSpectrogram) (m : FreqShowModel) (n : Z) :
  history_shaped v -> peak m = PTrue -> fft_ave m = AveInt n ->
  (valid_config m -> 0 <= n ->
   exists freqs v' m',
     render_spectrogram v m = Ok ((freqs, v'), m')
     /\ Z.of_nat (length freqs) = width m)
  /\ forall freqs v' m',
       render_spectrogram v m = Ok ((freqs, v'), m') ->
       Z.of_nat (length (freqgrabs v')) = n + 1
       /\ rows_of_length (length freqs) (freqgrabs v')
       /\ forall i, (i < length freqs)%nat ->
            exists r, freqs !! i = Some r
              /\ Z.of_nat (length (column i (freqgrabs v'))) = n + 1
              /\ is_np_max r (column i (freqgrabs v')).
Proof.
  intros Hv Hpk Hn. split.
  { intros Hvalid Hn0.
    destruct (render_spectrogram_returns v m n Hvalid Hv Hn Hn0 (or_introl Hpk))
      as (freqs & v' & m' & E).
    exists freqs, v', m'. split; [exact E|].
    exact (render_spectrogram_width v v' m m' freqs Hvalid Hv E). }
  intros freqs v' m' E.
  destruct (render_spectrogram_inv v v' m m' freqs Hv E)
    as (freqslast & m1 & n' & v1 & x & rest & row & _ & Hn' & _ & _ & _ & _ & _
        & -> & Hred & Hrows & Hlen).
  assert (n' = n) as -> by congruence.
  rewrite Hpk in Hred. simpl in Hred |- *.
  destruct (np_max_axis0_columns _ _ _ Hrows Hred) as [Hfl Hcols].
  split; [exact Hlen|]. split; [rewrite Hfl; exact Hrows|].
  intros i Hi. rewrite Hfl in Hi.
  destruct (Hcols i Hi) as (r & Hr & Hmax).
  exists r. split; [exact Hr|]. split; [|exact Hmax].
  rewrite (column_length i _ _ Hrows Hi). exact Hlen.
Qed.

(** C8.  [render_spectrogram] returns on every valid configuration with a
    boolean [peak] and a depth [fft_ave] of at least 0.  Every reduction is
    taken over a history of [fft_ave + 1] rows of one single length, the
    length of the reduced frame.  When the incoming frame's length differs
    from that of the frame the history was built from, or [fft_ave + 1] is
    no longer the number of rows it was built with, the history is first
    rebuilt from a frame acquired afresh: every row but the last is that
    frame, and the last is the incoming frame written over it. *)
Theorem history_rebuilt_before_reduction (v : InstantSpectrogram)
    (m : FreqShowModel) (n : Z) :
  history_shaped v ->
  fft_ave m = AveInt n ->
  (valid_config m -> 0 <= n -> is_boolean (peak m) ->
   exists freqs v' m', render_spectrogram v m = Ok ((freqs, v'), m'))
  /\ forall freqs v' m' freqslast m1,
       render_spectrogram v m = Ok ((freqs, v'), m') ->
       get_data m = Ok (freqslast, m1) ->
       (history_shaped v' /\ rows_of_length (length freqs) (freqgrabs v')
        /\ Z.of_nat (length (freqgrabs v')) = n + 1)
       /\ (length (freqsfirst v) <> length freqslast \/ checkfirst v <> n + 1 ->
           exists fresh row,
             get_data m1 = Ok (fresh, m')
             /\ checkfirst v' = n + 1
             /\ freqsfirst v' = fresh
             /\ freqsinit v' = replicate (Z.to_nat (n + 1)) fresh
             /\ np_copyto fresh freqslast = Ok row
             /\ freqgrabs v' = replicate (Z.to_nat n) fresh ++ [row]
             /\ length freqs = length fresh).
Proof.
  intros Hv Hn. split.
  { intros Hvalid Hn0 Hpk. exact (render_spectrogram_returns v m n Hvalid Hv Hn Hn0 Hpk). }
  intros freqs v' m' freqslast m1 E Hg.
  destruct (render_spectrogram_inv v v' m m' freqs Hv E)
    as (freqslast' & m1' & n' & v1 & x & rest & row & Hg' & Hn' & Hbranch & Hv1
        & Hc1 & Ha & Hrow & -> & Hred & Hrows & Hlen).
  assert (n' = n) as -> by congruence.
  rewrite Hg in Hg'. injection Hg' as <- <-.
  pose proof (reduce_history_length _ _ _ _ Hrows Hred) as Hfl.
  split.
  - split; [|split].
    + split; simpl; [lia|exact Hrows].
    + simpl. rewrite Hfl. exact Hrows.
    + exact Hlen.
  - intros Hcond.
    assert (negb (Nat.eqb (length (freqsfirst v)) (length freqslast))
            || negb (checkfirst v =? n + 1) = true) as Ec.
    { apply orb_true_iff. destruct Hcond as [Hc|Hc]; [left|right]; apply negb_true_iff.
      - apply Nat.eqb_neq, Hc.
      - apply Z.eqb_neq, Hc. }
    rewrite Ec in Hbranch.
    destruct (fill_history_inv _ _ _ Hbranch) as (k & fresh & Hk & Hk0 & Hfresh & ->).
    assert (fft_ave m1 = AveInt n) as Hn1.
    { destruct (get_data_keeps _ _ _ Hg) as (_ & _ & _ & _ & _ & -> & _). exact Hn. }
    assert (k = n) as -> by congruence.
    simpl in *.
    assert (x :: rest = fresh :: replicate (Z.to_nat n) fresh) as Ering.
    { rewrite <- Ha. rewrite length_app in Hlen. simpl in Hlen.
      replace (Z.to_nat (n + 1)) with (S (Z.to_nat n)) by lia. reflexivity. }
    injection Ering as -> ->.
    assert (List.last (replicate (Z.to_nat n) fresh) fresh = fresh) as Hlast.
    { clear. induction (Z.to_nat n) as [|j IH]; [reflexivity|].
      simpl. destruct j; [reflexivity|]. simpl in *. exact IH. }
    rewrite Hlast in Hrow.
    exists fresh, row. repeat split; try assumption; try reflexivity.
Qed.
End Claims.

(** ** The statements on the sample objects *)

Example model_init_bench : model_init 320 240 bench_sdr = Ok (tt, bench_model).
Proof. reflexivity. Qed.

(** The configuration that [__init__] leaves on a 320 pixel display is
    valid. *)
Example bench_model_valid : valid_config bench_model.
Proof.
  split; [unfold SDR_SAMPLE_SIZE; simpl; lia|].
  split; [reflexivity|]. split; [reflexivity|]. split.
  { exists 1472, bench_model. split; reflexivity. }
  split; [left; reflexivity|]. split; [split; intros _; discriminate|].
  intros j. eexists. split; [reflexivity|]. rewrite length_replicate. reflexivity.
Qed.

Example small_view_built :
  InstantSpectrogram_init small_model
  = Ok (small_view, small_model_after 1 db0 db0).
Proof. reflexivity. Qed.

Lemma get_data_returns_width_witness :
  exists frame m',
    get_data bench_model = Ok (frame, m')
    /\ Z.of_nat (length frame) = width bench_model
    /\ width m' = width bench_model.
Proof.
  apply (@get_data_returns_width BenchLib bench_model bench_model
           (replicate (Z.to_nat SDR_SAMPLE_SIZE) (bench_level 0)) 1472).
  - unfold SDR_SAMPLE_SIZE. simpl. lia.
  - reflexivity.
  - reflexivity.
  - reflexivity.
  - left. reflexivity.
  - split; intros _; discriminate.
  - reflexivity.
  - rewrite length_replicate. reflexivity.
Defined.

(** C1.  The docstring of [get_data] promises [width] values, and 8191 is a
    display width below [SDR_SAMPLE_SIZE]; but on a display 8191 pixels wide,
    where the zoom bin count 8191 passes the guard, the slice [[0:zoom+2]] of
    the 8192 samples read is two short of [zoom + 2], and [get_data] returns
    8190 values: the code is off by two at the top of the range. *)
Lemma get_data_short_on_8191_pixels :
  1 <= width wide_model
  /\ (exists m1, zoom_bins wide_model = Ok (8191, m1))
  /\ 8191 < SDR_SAMPLE_SIZE
  /\ next_read_full wide_model
  /\ exists frame m',
       get_data wide_model = Ok (frame, m')
       /\ Z.of_nat (length frame) = 8190
       /\ Z.of_nat (length frame) <> width wide_model.
Proof.
  split; [simpl; lia|]. split; [eexists; reflexivity|].
  split; [reflexivity|]. split.
  { eexists. split; [reflexivity|]. rewrite length_replicate. reflexivity. }
  assert (match get_data wide_model with
          | Ok (frame, _) => Some (Z.of_nat (length frame))
          | Raise _ => None
          end = Some 8190) as E by (vm_compute; reflexivity).
  destruct (get_data wide_model) as [[frame m']|e]; [|discriminate].
  injection E as E. exists frame, m'. split; [reflexivity|].
  rewrite E. split; [reflexivity|]. discriminate.
Qed.

Lemma guard_zoom_clamps_witness :
  guard_zoom 14720 deep_zoom_model
  = Ok (width deep_zoom_model,
        with_zoom_fac (full_rate deep_zoom_model) deep_zoom_model)
  /\ (forall m0, zoom_bins m0 = Ok (14720, deep_zoom_model) ->
        get_data m0 = get_data (with_zoom_fac (full_rate m0) m0)).
Proof.
  apply (@guard_zoom_clamps BenchLib 14720 deep_zoom_model).
  unfold SDR_SAMPLE_SIZE. lia.
Defined.

Example deep_zoom_bins : zoom_bins deep_zoom_model = Ok (14720, deep_zoom_model).
Proof. reflexivity. Qed.

(** C2 as stated fails: 8191 zoom bins need 8193 samples, more than
    [SDR_SAMPLE_SIZE], yet the guard neither clamps the count nor resets
    [zoom_fac]. *)
Lemma guard_zoom_keeps_8191 :
  zoom_bins edge_model = Ok (8191, edge_model)
  /\ SDR_SAMPLE_SIZE < 8191 + 2
  /\ guard_zoom 8191 edge_model = Ok (8191, edge_model)
  /\ 8191 <> width edge_model
  /\ ~ (zoom_fac edge_model == full_rate edge_model)%Q.
Proof.
  split; [reflexivity|]. split; [reflexivity|].
  split; [reflexivity|]. split; [discriminate|]. vm_compute. discriminate.
Qed.

Lemma reset_setters_witness :
  intensity_cleared
    (with_range None
       (with_max_intensity None
          (with_min_intensity None
             (with_min_auto_scale true (small_model_after 1 db0 db0)))))
  /\ intensity_cleared
       (with_filter "hann"
          (with_zoom_fac (1 # 10)
             (with_range None
                (with_max_intensity None
                   (with_min_intensity None
                      (with_min_auto_scale true (small_model_after 1 db0 db0))))))).
Proof.
  apply (@reset_setters_clear_bounds BenchLib
           (Call_set_min_intensity AUTO)
           [Call_set_zoom_fac (1 # 10); Call_set_filter "hann"]
           (small_model_after 1 db0 db0)).
  - reflexivity.
  - lazy; reflexivity.
  - lazy; reflexivity.
Defined.

(** C3 as stated fails: [set_zoom_fac] after a frame leaves both auto-scaled
    bounds and the range resolved. *)
Lemma set_zoom_fac_keeps_bounds :
  (get_data;; set_zoom_fac (1 # 10)) small_model
  = Ok (tt, with_zoom_fac (1 # 10) (small_model_after 1 db0 db0))
  /\ min_auto_scale (with_zoom_fac (1 # 10) (small_model_after 1 db0 db0)) = true
  /\ min_intensity (with_zoom_fac (1 # 10) (small_model_after 1 db0 db0))
     = Some (Fin db0)
  /\ ~ intensity_cleared (with_zoom_fac (1 # 10) (small_model_after 1 db0 db0)).
Proof.
  split; [reflexivity|]. split; [reflexivity|]. split; [reflexivity|].
  intros (Hmin & _). specialize (Hmin eq_refl). discriminate Hmin.
Qed.

(** [set_sample_rate] does not reset them either. *)
Example set_sample_rate_keeps_bounds :
  exists m2,
    run_call (Call_set_sample_rate (24 # 100) IoOk) (small_model_after 1 db0 db0)
    = Ok (tt, m2)
    /\ min_intensity m2 = Some (Fin db0) /\ range m2 <> None.
Proof. eexists. split; [reflexivity|]. split; [reflexivity|discriminate]. Qed.

Lemma unknown_shape_witness :
  set_filter "flattop" bench_model = Ok (tt, with_filter "flattop" bench_model)
  /\ @select_window BenchLib "flattop" (86 # 10) 1472 = WScalar 1
  /\ @apply_window BenchLib [1%Q; 2%Q] (@select_window BenchLib "flattop" (86 # 10) 1472)
     = Ok (map (fun s => @smul BenchLib s 1) [1%Q; 2%Q])
  /\ (Z.of_nat (length [1%Q; 2%Q]) = Z.min (1472 + 2) SDR_SAMPLE_SIZE ->
      0 <= 1472 + 2 ->
      @apply_window BenchLib [1%Q; 2%Q] (@select_window BenchLib "boxcar" (86 # 10) 1472)
      = @apply_window BenchLib [1%Q; 2%Q] (@select_window BenchLib "flattop" (86 # 10) 1472)).
Proof.
  apply (@unknown_shape_is_not_rejected BenchLib "flattop" (86 # 10) 1472
           [1%Q; 2%Q] bench_model).
  unfold recognized_shapes. intros Hin.
  repeat (apply elem_of_cons in Hin as [Hin|Hin]; [discriminate Hin|]).
  inversion Hin.
Defined.

(** C5 as stated fails: with the unrecognized shape ["flattop"] configured,
    [get_data] raises nothing and returns the very frame that ["boxcar"]
    gives. *)
Lemma unknown_shape_runs_as_boxcar :
  ("flattop"%string ∉ recognized_shapes)
  /\ exists frame m1 m2,
       get_data (with_filter "flattop" bench_model) = Ok (frame, m1)
       /\ get_data (with_filter "boxcar" bench_model) = Ok (frame, m2).
Proof.
  split.
  { unfold recognized_shapes. intros Hin.
    repeat (apply elem_of_cons in Hin as [Hin|Hin]; [discriminate Hin|]).
    inversion Hin. }
  assert (match get_data (with_filter "flattop" bench_model),
                get_data (with_filter "boxcar" bench_model) with
          | Ok (f1, _), Ok (f2, _) => Some f1 = Some f2
          | _, _ => False
          end) as E by (vm_compute; reflexivity).
  destruct (get_data (with_filter "flattop" bench_model)) as [[f1 m1]|]; [|contradiction].
  destruct (get_data (with_filter "boxcar" bench_model)) as [[f2 m2]|]; [|contradiction].
  injection E as <-. exists f1, m1, m2. split; reflexivity.
Qed.

Lemma decibels_witness :
  ((0 < 0)%Q -> exists q, @to_decibels BenchLib [1%Q; 0%Q] !! 1%nat = Some (Fin q))
  /\ ((0 == 0)%Q ->
      @to_decibels BenchLib [1%Q; 0%Q] !! 1%nat = Some NegInf
      /\ forall m m' : @FreqShowModel BenchLib,
           Forall (fun y => (0 <= y)%Q) [1%Q; 0%Q] ->
           min_auto_scale m = true ->
           update_intensity (@to_decibels BenchLib [1%Q; 0%Q]) m = Ok (tt, m') ->
           min_intensity m' = Some NegInf).
Proof. apply (@decibels_of_bins BenchLib [1%Q; 0%Q] 1%nat 0%Q). reflexivity. Defined.

(** C6 as stated fails: silent batches give magnitude 0 in every bin; the
    frame then holds minus infinity, which becomes [min_intensity], and the
    range is NaN. *)
Lemma zero_bin_gives_neg_inf :
  exists frame m',
    get_data silent_model = Ok (frame, m')
    /\ frame !! 0%nat = Some NegInf
    /\ min_intensity m' = Some NegInf
    /\ range m' = Some NaN.
Proof.
  assert (match get_data silent_model with
          | Ok (f, m) => Some (f !! 0%nat, min_intensity m, range m)
          | Raise _ => None
          end = Some (Some NegInf, Some NegInf, Some NaN)) as E by (vm_compute; reflexivity).
  destruct (get_data silent_model) as [[frame m']|e]; [|discriminate].
  injection E as E1 E2 E3. exists frame, m'. repeat split; assumption.
Qed.

Lemma small_model_valid (k : nat) (lo hi : Q) :
  valid_config (small_model_after k lo hi).
Proof.
  split; [unfold SDR_SAMPLE_SIZE; simpl; lia|].
  split; [reflexivity|]. split; [reflexivity|]. split.
  { destruct (zoom_bins_cases (small_model_after k lo hi))
      as [[E _]|[_ E]]; [discriminate E|].
    eexists _, _. split; [exact E|]. reflexivity. }
  split; [left; reflexivity|]. split; [split; intros _; discriminate|].
  intros j. eexists. split; [reflexivity|]. rewrite length_replicate. reflexivity.
Qed.

Lemma peak_hold_witness :
  (exists freqs v' m',
     render_spectrogram small_view (small_model_after 1 db0 db0)
     = Ok ((freqs, v'), m')
     /\ Z.of_nat (length freqs) = width (small_model_after 1 db0 db0))
  /\ render_spectrogram small_view (small_model_after 1 db0 db0)
     = Ok ((replicate 4 (Fin db6), small_view_pushed), small_model_after 2 db0 db6)
  /\ Z.of_nat (length (freqgrabs small_view_pushed)) = 3 + 1
  /\ rows_of_length (length (replicate 4 (Fin db6))) (freqgrabs small_view_pushed)
  /\ forall i, (i < length (replicate 4 (Fin db6)))%nat ->
       exists r, replicate 4 (Fin db6) !! i = Some r
         /\ Z.of_nat (length (column i (freqgrabs small_view_pushed))) = 3 + 1
         /\ is_np_max r (column i (freqgrabs small_view_pushed)).
Proof.
  assert (history_shaped small_view) as Hv by (split; [reflexivity|repeat constructor]).
  destruct (@peak_hold_is_column_max BenchLib small_view
              (small_model_after 1 db0 db0) 3 Hv eq_refl eq_refl) as [Hret Hmax].
  split.
  { apply Hret; [exact (small_model_valid 1 db0 db0)|lia]. }
  split; [reflexivity|].
  apply (Hmax (replicate 4 (Fin db6)) small_view_pushed (small_model_after 2 db0 db6)).
  reflexivity.
Defined.

Lemma history_rebuilt_witness :
  (exists freqs v' m',
     render_spectrogram small_view
       (with_fft_ave (AveInt 2) (small_model_after 1 db0 db0))
     = Ok ((freqs, v'), m'))
  /\ (history_shaped small_view_rebuilt
      /\ rows_of_length (length (replicate 4 (Fin db12))) (freqgrabs small_view_rebuilt)
      /\ Z.of_nat (length (freqgrabs small_view_rebuilt)) = 2 + 1)
  /\ (length (freqsfirst small_view) <> length (replicate 4 (Fin db6))
      \/ checkfirst small_view <> 2 + 1 ->
      exists fresh row,
        get_data (with_fft_ave (AveInt 2) (small_model_after 2 db0 db6))
        = Ok (fresh, with_fft_ave (AveInt 2) (small_model_after 3 db0 db12))
        /\ checkfirst small_view_rebuilt = 2 + 1
        /\ freqsfirst small_view_rebuilt = fresh
        /\ freqsinit small_view_rebuilt = replicate (Z.to_nat (2 + 1)) fresh
        /\ np_copyto fresh (replicate 4 (Fin db6)) = Ok row
        /\ freqgrabs small_view_rebuilt = replicate (Z.to_nat 2) fresh ++ [row]
        /\ length (replicate 4 (Fin db12)) = length fresh).
Proof.
  assert (history_shaped small_view) as Hv by (split; [reflexivity|repeat constructor]).
  destruct (@history_rebuilt_before_reduction BenchLib small_view
              (with_fft_ave (AveInt 2) (small_model_after 1 db0 db0)) 2 Hv eq_refl)
    as [Hret Hshape].
  split.
  { apply Hret; [|lia|left; reflexivity].
    exact (valid_config_fft_ave (AveInt 2) _ (small_model_valid 1 db0 db0)). }
  apply (Hshape (replicate 4 (Fin db12)) small_view_rebuilt
           (with_fft_ave (AveInt 2) (small_model_after 3 db0 db12))
           (replicate 4 (Fin db6))
           (with_fft_ave (AveInt 2) (small_model_after 2 db0 db6))).
  - reflexivity.
  - reflexivity.
Defined.

Lemma auto_bounds_witness :
  (forall lo, min_intensity (small_model_after 1 db0 db0) = Some lo ->
     exists lo', min_intensity (small_model_after 3 db0 db12) = Some lo'
                 /\ fle lo' lo = true)
  /\ (forall hi, max_intensity (small_model_after 1 db0 db0) = Some hi ->
     exists hi', max_intensity (small_model_after 3 db0 db12) = Some hi'
                 /\ fle hi hi' = true)
  /\ finite_or_unset (min_intensity (small_model_after 3 db0 db12))
  /\ finite_or_unset (max_intensity (small_model_after 3 db0 db12)).
Proof.
  apply (@auto_bounds_only_widen BenchLib 2
           (small_model_after 1 db0 db0) (small_model_after 3 db0 db12)
           [replicate 4 (Fin db6); replicate 4 (Fin db12)]).
  - reflexivity.
  - reflexivity.
  - exact I.
  - exact I.
  - reflexivity.
  - repeat constructor.
Defined.


(** ** The text of the number dialog *)

Section NumberDialogFacts.
Import NumberDialog.

Lemma list_ascii_of_string_app (s t : string) :
  list_ascii_of_string (s ++ t) = list_ascii_of_string s ++ list_ascii_of_string t.
Proof. induction s as [|a s IH]; simpl; [reflexivity|]. rewrite IH. reflexivity. Qed.

Lemma string_length_list (s : string) :
  String.length s = length (list_ascii_of_string s).
Proof. induction s as [|a s IH]; simpl; congruence. Qed.

Lemma dots_app (s t : string) : dots (s ++ t) = (dots s + dots t)%nat.
Proof. unfold dots. rewrite list_ascii_of_string_app. apply count_occ_app. Qed.

Lemma count_occ_take_drop {A} (dec : forall x y : A, {x = y} + {x <> y})
    (l : list A) (x : A) (n k : nat) :
  (count_occ dec (take n (drop k l)) x <= count_occ dec l x)%nat.
Proof.
  rewrite <- (take_drop k l) at 2. rewrite count_occ_app.
  rewrite <- (take_drop n (drop k l)) at 2. rewrite count_occ_app. lia.
Qed.

Lemma dots_str_slice (lo hi : Z) (s : string) : (dots (str_slice lo hi s) <= dots s)%nat.
Proof.
  unfold dots, str_slice. rewrite list_ascii_of_string_of_list_ascii.
  unfold py_slice. apply count_occ_take_drop.
Qed.

Lemma str_find_dots (s : string) : str_find "." s = -1 -> dots s = 0%nat.
Proof.
  unfold dots. induction s as [|a s IH]; simpl; [reflexivity|].
  destruct (Ascii.eqb_spec a "."%char) as [->|Hne]; [discriminate|].
  destruct (str_find "." s <? 0) eqn:E.
  - intros _. destruct (ascii_dec a "."); [congruence|].
    assert (str_find "." s = -1) as Hm.
    { clear -E. apply Z.ltb_lt in E.
      assert (forall t, -1 <= str_find "." t) as Hlow.
      { induction t as [|b t IHt]; simpl; [lia|].
        destruct (Ascii.eqb b "."); [lia|]. destruct (str_find "." t <? 0); lia. }
      specialize (Hlow s). lia. }
    auto.
  - apply Z.ltb_ge in E. lia.
Qed.

Lemma digit_texts_dots (t : string) : t ∈ digit_texts -> dots t = 0%nat.
Proof.
  unfold digit_texts. intros Hin.
  repeat (apply elem_of_cons in Hin as [->|Hin]; [reflexivity|]).
  inversion Hin.
Qed.

Lemma click_dots (a n : bool) (k : key) (value value' : string) :
  has_key a n k -> (dots value <= 1)%nat -> click k value = Ok value' ->
  (dots value' <= 1)%nat.
Proof.
  intros Hk Hd E. destruct k; simpl in E.
  - injection E as <-. unfold number_click.
    pose proof (digit_texts_dots _ Hk).
    destruct (_ || _); [lia|]. rewrite dots_app. lia.
  - injection E as <-. unfold decimal_click.
    destruct (String.eqb value "AUTO"); [cbv; lia|].
    destruct (str_find "." value =? -1) eqn:Ef; [|exact Hd].
    apply Z.eqb_eq, str_find_dots in Ef. rewrite dots_app, Ef. cbv. lia.
  - injection E as <-. unfold delete_click.
    destruct (String.eqb value "AUTO"); [exact Hd|].
    destruct (1 <? _); [|cbv; lia].
    pose proof (dots_str_slice 0 (-1) value). lia.
  - injection E as <-. cbv. lia.
  - unfold posneg_click in E.
    destruct (String.eqb value "AUTO"); [injection E as <-; exact Hd|].
    destruct (py_getitem _ 0) as [c|e]; [|discriminate]. cbn in E.
    destruct (Ascii.eqb c "-"); injection E as <-.
    + pose proof (dots_str_slice 1 (Z.of_nat (String.length value)) value). lia.
    + change ("-" ++ value)%string with (String "-" value).
      unfold dots in *. simpl. destruct (ascii_dec "-" "."); [discriminate|]. exact Hd.
  - injection E as <-. cbv. lia.
Qed.

(** X1. Whatever buttons of the number dialog are clicked, in whatever order, a value
    with at most one decimal point keeps at most one decimal point. *)
Theorem value_keeps_one_decimal_point (has_auto allow_negative : bool)
    (ks : list key) (value value' : string) :
  Forall (has_key has_auto allow_negative) ks ->
  (dots value <= 1)%nat ->
  clicks ks value = Ok value' ->
  (dots value' <= 1)%nat.
Proof.
  intros Hks. revert value. induction Hks as [|k ks Hk _ IH]; intros value Hd E.
  - injection E as <-. exact Hd.
  - simpl in E. destruct (click k value) as [v|e] eqn:Ek; [|discriminate].
    cbn in E. apply (IH v); [|exact E].
    exact (click_dots _ _ k value v Hk Hd Ek).
Qed.

Lemma value_keeps_one_decimal_point_witness :
  (dots "-1.5" <= 1)%nat.
Proof.
  apply (value_keeps_one_decimal_point false true
           [Key_digit "1"; Key_decimal; Key_decimal; Key_digit "5";
            Key_delete; Key_decimal; Key_digit "5"; Key_posneg] "0" "-1.5").
  - repeat constructor.
  - cbv. lia.
  - reflexivity.
Defined.

Lemma py_slice_drop_last {A} (l : list A) (x : A) : py_slice 0 (-1) (l ++ [x]) = l.
Proof.
  unfold py_slice, clip_index. rewrite length_app.
  change (0 <? 0) with false. change (-1 <? 0) with true. cbv iota.
  replace (Z.to_nat (Z.min 0 _)) with 0%nat by lia.
  replace (Z.to_nat _) with (length l) by (simpl length; lia).
  rewrite drop_0, take_app_length. reflexivity.
Qed.

Lemma py_slice_tail {A} (l : list A) (x : A) :
  py_slice 1 (Z.of_nat (length (x :: l))) (x :: l) = l.
Proof.
  unfold py_slice, clip_index.
  destruct (Z.of_nat (length (x :: l)) <? 0) eqn:E; [apply Z.ltb_lt in E; lia|].
  change (1 <? 0) with false. cbv iota. simpl length.
  replace (Z.to_nat (Z.min 1 _)) with 1%nat by lia. simpl drop. rewrite drop_0.
  rewrite take_ge; [reflexivity|]. lia.
Qed.

Lemma digit_texts_single (t : string) :
  t ∈ digit_texts -> exists d, t = String d EmptyString /\ d <> "O"%char.
Proof.
  unfold digit_texts. intros Hin.
  repeat (apply elem_of_cons in Hin as [->|Hin];
          [eexists; split; [reflexivity|discriminate]|]).
  inversion Hin.
Qed.

Lemma append_last_not_AUTO (value : string) (d : ascii) :
  d <> "O"%char -> (value ++ String d EmptyString)%string <> "AUTO"%string.
Proof.
  intros Hd E. apply (f_equal list_ascii_of_string) in E.
  rewrite list_ascii_of_string_app in E. simpl in E.
  change ["A"; "U"; "T"; "O"]%char with (["A"; "U"; "T"] ++ ["O"])%char in E.
  apply app_inj_tail in E as [_ E]. congruence.
Qed.

(** X2. Typing a digit into the number dialog and pressing DELETE gives back the
    value there was, for every value that is neither empty nor ['AUTO']
    (including ['0'], which the digit replaces and DELETE restores). *)
Theorem delete_undoes_digit (text value : string) :
  text ∈ digit_texts -> value <> ""%string -> value <> "AUTO"%string ->
  delete_click (number_click text value) = value.
Proof.
  intros Ht Hne Hauto. destruct (digit_texts_single _ Ht) as (d & -> & Hd).
  unfold number_click.
  destruct (String.eqb_spec value "0") as [->|H0]; simpl orb.
  - unfold delete_click.
    destruct (String.eqb_spec (String d "") "AUTO") as [E|_]; [discriminate|].
    reflexivity.
  - destruct (String.eqb_spec value "AUTO") as [E|_]; [contradiction|].
    unfold delete_click.
    destruct (String.eqb_spec (value ++ String d "") "AUTO") as [E|_];
      [exfalso; exact (append_last_not_AUTO _ _ Hd E)|].
    destruct (1 <? _) eqn:El.
    + unfold str_slice. rewrite list_ascii_of_string_app. simpl.
      rewrite py_slice_drop_last. apply string_of_list_ascii_of_string.
    + apply Z.ltb_ge in El. rewrite string_length_list, list_ascii_of_string_app in El.
      rewrite length_app in El. simpl in El.
      destruct value; [contradiction|]. simpl in El. lia.
Qed.

Lemma delete_undoes_digit_witness : delete_click (number_click "7" "-14.") = "-14."%string.
Proof.
  apply (delete_undoes_digit "7" "-14.").
  - unfold digit_texts. repeat (apply elem_of_cons; first [left; reflexivity|right]).
  - discriminate.
  - discriminate.
Defined.

Lemma py_getitem_head {A} (x : A) (l : list A) : py_getitem (x :: l) 0 = Ok x.
Proof. exact (py_getitem_nat (x :: l) 0 x eq_refl). Qed.

Lemma posneg_click_unsigned (value : string) :
  unsigned value -> posneg_click value = Ok ("-" ++ value)%string.
Proof.
  intros (Hauto & c & rest & -> & Hc).
  unfold posneg_click.
  destruct (String.eqb_spec (String c rest) "AUTO") as [E|_]; [contradiction|].
  simpl list_ascii_of_string. rewrite py_getitem_head. cbn.
  destruct (Ascii.eqb_spec c "-") as [E|_]; [contradiction|]. reflexivity.
Qed.

Lemma posneg_click_signed (value : string) :
  posneg_click ("-" ++ value) = Ok value.
Proof.
  change ("-" ++ value)%string with (String "-" value).
  unfold posneg_click.
  destruct (String.eqb_spec (String "-" value) "AUTO") as [E|_]; [discriminate|].
  simpl list_ascii_of_string. rewrite py_getitem_head.
  cbn -[py_slice Z.of_nat str_slice String.length].
  unfold str_slice. simpl list_ascii_of_string.
  rewrite string_length_list. simpl list_ascii_of_string.
  rewrite (py_slice_tail (list_ascii_of_string value) "-"%char).
  rewrite string_of_list_ascii_of_string. reflexivity.
Qed.

(** X3. On a value that is not ['AUTO'] and does not start with a minus sign,
    [posneg_click] puts a minus sign in front, and a second [posneg_click] takes
    it away again: two clicks on +/- restore the value. *)
Theorem posneg_twice_restores (value : string) :
  unsigned value ->
  posneg_click value = Ok ("-" ++ value)%string
  /\ posneg_click ("-" ++ value) = Ok value.
Proof.
  intros Hu. split; [exact (posneg_click_unsigned value Hu)|].
  exact (posneg_click_signed value).
Qed.

Lemma posneg_twice_restores_witness :
  posneg_click "12.5" = Ok "-12.5"%string /\ posneg_click "-12.5" = Ok "12.5"%string.
Proof.
  apply (posneg_twice_restores "12.5").
  split; [discriminate|]. eexists _, _. split; [reflexivity|discriminate].
Defined.

Lemma deletes_to_minus (l : list ascii) :
  clicks (repeat Key_delete (length l)) (String "-" (string_of_list_ascii l))
  = Ok "-"%string.
Proof.
  induction l as [|x l IH] using rev_ind; [reflexivity|].
  rewrite length_app. simpl length. rewrite Nat.add_1_r. simpl repeat. simpl clicks.
  assert (delete_click (String "-" (string_of_list_ascii (l ++ [x])))
          = String "-" (string_of_list_ascii l)) as ->; [|cbn; exact IH].
  unfold delete_click.
  destruct (String.eqb_spec (String "-" (string_of_list_ascii (l ++ [x]))) "AUTO") as [E|_];
    [discriminate|].
  destruct (1 <? _) eqn:El.
  - unfold str_slice. simpl list_ascii_of_string.
    rewrite list_ascii_of_string_of_list_ascii.
    rewrite (app_comm_cons l [x] "-"%char), py_slice_drop_last. reflexivity.
  - apply Z.ltb_ge in El. rewrite string_length_list in El. simpl in El.
    rewrite list_ascii_of_string_of_list_ascii, length_app in El. simpl in El. lia.
Qed.

Lemma clicks_app (ks1 ks2 : list key) (value v1 : string) :
  clicks ks1 value = Ok v1 -> clicks (ks1 ++ ks2) value = clicks ks2 v1.
Proof.
  revert value. induction ks1 as [|k ks1 IH]; intros value E; simpl in *.
  - injection E as <-. reflexivity.
  - destruct (click k value) as [v|e]; [|discriminate]. cbn in *. apply IH, E.
Qed.

(** X4. With the +/- button the value of the number dialog can be emptied: +/-,
    DELETE once for every character of the value, and +/- again leave the empty
    string, which no other path produces; one more click on +/- then raises
    IndexError at [self.value[0]]. *)
Theorem posneg_empties_and_raises (value : string) :
  unsigned value ->
  clicks (Key_posneg :: repeat Key_delete (String.length value) ++ [Key_posneg]) value
  = Ok ""%string
  /\ clicks (Key_posneg :: repeat Key_delete (String.length value)
              ++ [Key_posneg; Key_posneg]) value
     = Raise IndexError.
Proof.
  intros Hu.
  pose proof (posneg_click_unsigned value Hu) as E.
  simpl clicks. rewrite E. cbn [mbind result_bind rbind].
  change ("-" ++ value)%string with (String "-" value).
  rewrite <- (string_of_list_ascii_of_string value) at 2 4.
  rewrite string_length_list.
  rewrite !(clicks_app _ _ _ _ (deletes_to_minus (list_ascii_of_string value))).
  split; reflexivity.
Qed.

Lemma posneg_empties_and_raises_witness :
  clicks [Key_posneg; Key_delete; Key_delete; Key_posneg] "30" = Ok ""%string
  /\ clicks [Key_posneg; Key_delete; Key_delete; Key_posneg; Key_posneg] "30"
     = Raise IndexError.
Proof.
  apply (posneg_empties_and_raises "30").
  split; [discriminate|]. eexists _, _. split; [reflexivity|discriminate].
Defined.

End NumberDialogFacts.

(** ** The colours of the gradient *)

Section GradientFacts.
Import Gradient.

Lemma py_int_floor (q : Q) : (0 <= q)%Q -> py_int q = Qfloor q.
Proof.
  intros Hq. unfold py_int. destruct q as [n d]. simpl Qnum. simpl Qden.
  unfold Qle in Hq. simpl in Hq. rewrite Z.quot_div_nonneg by lia. reflexivity.
Qed.

Lemma Qfloor_range (q : Q) (k : Z) :
  (0 <= q)%Q -> (q < inject_Z k)%Q -> 0 <= Qfloor q < k.
Proof.
  intros H0 Hk. split.
  - rewrite <- (Qfloor_Z 0). apply Qfloor_resp_le. exact H0.
  - apply Z.lt_nge. intros Hge.
    pose proof (Qfloor_le q) as Hf.
    assert (inject_Z k <= inject_Z (Qfloor q))%Q by (rewrite <- Zle_Qle; exact Hge).
    lra.
Qed.

Lemma floor_between (y : Q) (lo hi : Z) :
  (inject_Z lo <= y)%Q -> (y <= inject_Z hi)%Q -> lo <= py_floor y <= hi.
Proof.
  intros Hlo Hhi. unfold py_floor. split.
  - rewrite <- (Qfloor_Z lo). apply Qfloor_resp_le. exact Hlo.
  - rewrite <- (Qfloor_Z hi). apply Qfloor_resp_le. exact Hhi.
Qed.

Lemma lerp_unit (x a b : Q) :
  exists y, lerp x 0 1 a b = Ok y /\ (y == a + (b - a) * x)%Q.
Proof.
  unfold lerp, py_div. change (Qeq_bool (1 - 0) 0) with false. cbn.
  eexists. split; [reflexivity|]. field.
Qed.

Lemma lerp_floor_within (x : Q) (a b lo hi : Z) :
  (0 <= x <= 1)%Q -> lo <= a <= hi -> lo <= b <= hi ->
  exists y, lerp x 0 1 (inject_Z a) (inject_Z b) = Ok y /\ lo <= py_floor y <= hi.
Proof.
  intros Hx Ha Hb. destruct (lerp_unit x (inject_Z a) (inject_Z b)) as (y & E & Hy).
  exists y. split; [exact E|].
  assert (inject_Z lo <= inject_Z a <= inject_Z hi)%Q as Ha'
    by (rewrite <- !Zle_Qle; exact Ha).
  assert (inject_Z lo <= inject_Z b <= inject_Z hi)%Q as Hb'
    by (rewrite <- !Zle_Qle; exact Hb).
  apply floor_between; rewrite Hy; nra.
Qed.

Lemma rgb_lerp_within (x : Q) (c0 c1 : color) (lo hi : Z) :
  (0 <= x <= 1)%Q -> channels_within lo hi c0 -> channels_within lo hi c1 ->
  exists c, rgb_lerp x 0 1 c0 c1 = Ok c /\ channels_within lo hi c.
Proof.
  intros Hx H0 H1. destruct c0 as [[r0 g0] b0], c1 as [[r1 g1] b1].
  destruct H0 as (Hr0 & Hg0 & Hb0), H1 as (Hr1 & Hg1 & Hb1).
  destruct (lerp_floor_within x r0 r1 lo hi Hx Hr0 Hr1) as (r & Er & Hr).
  destruct (lerp_floor_within x g0 g1 lo hi Hx Hg0 Hg1) as (g & Eg & Hg).
  destruct (lerp_floor_within x b0 b1 lo hi Hx Hb0 Hb1) as (b & Eb & Hb).
  exists (py_floor r, py_floor g, py_floor b). split; [|repeat split; lia].
  unfold rgb_lerp. rewrite Er. cbn. rewrite Eg. cbn. rewrite Eb. reflexivity.
Qed.

(** The position inside a segment lies in [0, 1). *)
Lemma py_mod_fraction (value g : Q) :
  (0 < g)%Q ->
  exists r x, py_mod value g = Ok r /\ py_div r g = Ok x /\ (0 <= x < 1)%Q.
Proof.
  intros Hg. unfold py_mod, py_div.
  destruct (Qeq_bool g 0) eqn:E; [apply Qeq_bool_iff in E; lra|].
  eexists _, _. split; [reflexivity|]. split; [reflexivity|].
  pose proof (Qfloor_le (value / g)) as Hlow.
  pose proof (Qlt_floor (value / g)) as Hup.
  rewrite inject_Z_plus in Hup. change (inject_Z 1) with 1%Q in Hup.
  set (k := inject_Z (Qfloor (value / g))) in *.
  assert ((value - g * k) / g == value / g - k)%Q as -> by (field; lra).
  lra.
Qed.

Lemma py_getitem_lookup {A} (l : list A) (i : Z) :
  0 <= i < Z.of_nat (length l) ->
  exists x, py_getitem l i = Ok x /\ x ∈ l.
Proof.
  intros Hi. destruct (lookup_lt_is_Some_2 l (Z.to_nat i)) as [x Hx]; [lia|].
  exists x. split; [|eapply list_elem_of_lookup_2; exact Hx].
  rewrite <- (Z2Nat.id i) by lia. apply py_getitem_nat. exact Hx.
Qed.

Lemma py_getitem_last {A} (l : list A) :
  l <> [] -> exists x, py_getitem l (-1) = Ok x /\ x ∈ l.
Proof.
  intros Hne. assert (0 < length l)%nat as Hlen by (destruct l; [congruence|simpl; lia]).
  destruct (lookup_lt_is_Some_2 l (length l - 1)) as [x Hx]; [lia|].
  exists x. split; [|eapply list_elem_of_lookup_2; exact Hx].
  unfold py_getitem, py_index. change (-1 <? 0) with true. cbv iota.
  destruct ((0 <=? -1 + Z.of_nat (length l)) && (-1 + Z.of_nat (length l) <? Z.of_nat (length l))) eqn:E.
  - replace (Z.to_nat (-1 + Z.of_nat (length l))) with (length l - 1)%nat by lia.
    rewrite Hx. reflexivity.
  - apply andb_false_iff in E as [E|E]; [apply Z.leb_gt in E|apply Z.ltb_ge in E]; lia.
Qed.

Lemma py_getitem_elem {A} (l : list A) (i : Z) (x : A) :
  py_getitem l i = Ok x -> x ∈ l.
Proof.
  unfold py_getitem. destruct (py_index (length l) i) as [k|e]; [|discriminate].
  destruct (l !! k) as [y|] eqn:E; [|discriminate].
  intros [= <-]. eapply list_elem_of_lookup_2. exact E.
Qed.

Lemma rbind_ok_inv {A B} (r : result A) (k : A -> result B) (b : B) :
  r ≫= k = Ok b -> exists a, r = Ok a /\ k a = Ok b.
Proof. destruct r as [a|e]; [|discriminate]. intros E. exists a. split; [reflexivity|exact E]. Qed.

Lemma gradient_fun_within (colors : list color) (grad_width : Q)
    (lo hi : Z) (value : Q) (c : color) :
  (0 < grad_width)%Q ->
  Forall (channels_within lo hi) colors ->
  gradient_fun colors grad_width value = Ok c ->
  channels_within lo hi c.
Proof.
  intros Hg Hall E.
  pose proof (proj1 (Forall_forall _ _) Hall) as Hin.
  unfold gradient_fun in E.
  destruct (Qle_bool value 0); [apply Hin, (py_getitem_elem _ _ _ E)|].
  destruct (Qle_bool 1 value); [apply Hin, (py_getitem_elem _ _ _ E)|].
  apply rbind_ok_inv in E as (q & _ & E).
  apply rbind_ok_inv in E as (c0 & Hc0 & E).
  apply rbind_ok_inv in E as (c1 & Hc1 & E).
  apply rbind_ok_inv in E as (r & Hr & E).
  apply rbind_ok_inv in E as (x & Hx & E).
  destruct (py_mod_fraction value grad_width Hg) as (r' & x' & Er & Ex & Hx').
  rewrite Er in Hr. injection Hr as <-. rewrite Ex in Hx. injection Hx as <-.
  destruct (rgb_lerp_within x' c0 c1 lo hi) as (c' & Ec & Hc).
  - lra.
  - apply Hin, (py_getitem_elem _ _ _ Hc0).
  - apply Hin, (py_getitem_elem _ _ _ Hc1).
  - congruence.
Qed.

(** X6. A colour that the function built by [gradient_func] returns lies, channel
    by channel, within the range of the control colours: interpolation and
    [math.floor] never leave it. *)
Theorem gradient_within_channels (colors : list color) (grad_width : Q)
    (lo hi : Z) (value : Q) (c : color) :
  (0 < grad_width)%Q ->
  Forall (channels_within lo hi) colors ->
  gradient_fun colors grad_width value = Ok c ->
  channels_within lo hi c.
Proof. exact (gradient_fun_within colors grad_width lo hi value c). Qed.

Lemma gradient_within_channels_witness :
  channels_within 0 255 (0, 127, 255).
Proof.
  apply (gradient_within_channels WATERFALL_GRAD (1 # 3) 0 255 (1667 # 10000) (0, 127, 255)).
  - reflexivity.
  - unfold WATERFALL_GRAD.
    repeat first [apply Forall_nil_2 | apply Forall_cons_2; [cbn; lia|]].
  - vm_compute. reflexivity.
Defined.

(** In exact arithmetic the gradient of at least two colours returns for
    every value. *)
Lemma gradient_returns (colors : list color) (value : Q) :
  (2 <= length colors)%nat ->
  exists f c, gradient_func colors = Ok f /\ f value = Ok c.
Proof.
  intros Hn.
  set (n := inject_Z (Z.of_nat (length colors))).
  assert (2 <= n)%Q as Hn2.
  { unfold n. change 2%Q with (inject_Z 2). rewrite <- Zle_Qle. lia. }
  assert (py_div 1 (n - 1) = Ok (1 / (n - 1))%Q) as Hgw by (apply py_div_ok; lra).
  set (g := (1 / (n - 1))%Q) in *.
  assert (0 < g)%Q as Hg.
  { unfold g. apply Qlt_shift_div_l; lra. }
  exists (gradient_fun colors g).
  assert (gradient_func colors = Ok (gradient_fun colors g)) as Hf.
  { unfold gradient_func. fold n. rewrite Hgw. reflexivity. }
  assert (exists c, gradient_fun colors g value = Ok c)
    as (c & Hc); [|exists c; split; assumption].
  unfold gradient_fun.
  destruct (Qle_bool value 0) eqn:E0.
  { destruct (py_getitem_lookup colors 0 ltac:(lia)) as (c & Ec & Hc).
    exists c. exact Ec. }
  destruct (Qle_bool 1 value) eqn:E1.
  { destruct (py_getitem_last colors) as (c & Ec & Hc); [destruct colors; [simpl in Hn; lia|discriminate]|].
    exists c. exact Ec. }
  assert (0 < value)%Q as Hv0.
  { apply Qnot_le_lt. intros L. apply Qle_bool_iff in L. congruence. }
  assert (value < 1)%Q as Hv1.
  { apply Qnot_le_lt. intros L. apply Qle_bool_iff in L. congruence. }
  rewrite (py_div_ok value g) by lra. cbn [mbind result_bind rbind].
  assert (value / g == value * (n - 1))%Q as Hq by (unfold g; field; lra).
  assert (0 <= value / g)%Q as Hq0 by (rewrite Hq; nra).
  assert (value / g < inject_Z (Z.of_nat (length colors) - 1))%Q as Hq1.
  { rewrite Hq. unfold Z.sub. rewrite inject_Z_plus, inject_Z_opp. fold n.
    change (inject_Z 1) with 1%Q. nra. }
  rewrite (py_int_floor _ Hq0).
  pose proof (Qfloor_range _ _ Hq0 Hq1) as Hpos.
  set (pos := Qfloor (value / g)) in *.
  destruct (py_getitem_lookup colors pos ltac:(lia)) as (c0 & Ec0 & Hc0).
  destruct (py_getitem_lookup colors (pos + 1) ltac:(lia)) as (c1 & Ec1 & Hc1).
  rewrite Ec0. cbn [mbind result_bind rbind]. rewrite Ec1. cbn [mbind result_bind rbind].
  destruct (py_mod_fraction value g Hg) as (r & x & Er & Ex & Hx).
  rewrite Er. cbn [mbind result_bind rbind]. rewrite Ex. cbn [mbind result_bind rbind].
  destruct c0 as [[r0 g0] b0], c1 as [[r1 g1] b1].
  destruct (lerp_unit x (inject_Z r0) (inject_Z r1)) as (yr & Er' & _).
  destruct (lerp_unit x (inject_Z g0) (inject_Z g1)) as (yg & Eg' & _).
  destruct (lerp_unit x (inject_Z b0) (inject_Z b1)) as (yb & Eb' & _).
  eexists. unfold rgb_lerp. rewrite Er'. cbn [mbind result_bind rbind].
  rewrite Eg'. cbn [mbind result_bind rbind]. rewrite Eb'. reflexivity.
Qed.

End GradientFacts.

(** ** The intensity bounds across setter calls and frames *)

Section KeepsMore.
Context `{SignalLib}.

Lemma keeps_except_IOError_pass (P : FreqShowModel -> FreqShowModel -> Prop)
    (c : M unit) :
  (forall m, P m m) -> keeps P c -> keeps P (except_IOError_pass c).
Proof.
  intros Hrefl Hc m [] m'. unfold except_IOError_pass.
  destruct (c m) as [[[] m1]|e] eqn:E.
  - intros [= <-]. exact (Hc _ _ _ E).
  - destruct e; try discriminate. intros [= <-]. apply Hrefl.
Qed.

End KeepsMore.

Ltac keeps_step Hrefl Htrans :=
  first
    [ match goal with
      | H : keeps ?P ?c |- keeps ?P ?c => exact H
      | H : forall x, keeps ?P (?c x) |- keeps ?P (?c _) => apply H
      end
    | apply (keeps_bind _ Htrans); [|intros ?]
    | apply (keeps_gets _ Hrefl)
    | apply (keeps_lift _ Hrefl)
    | apply (keeps_ret _ Hrefl)
    | apply (keeps_mret _ Hrefl)
    | apply keeps_raise
    | apply keeps_if
    | apply (keeps_except_IOError_pass _ _ Hrefl)
    | apply keeps_modify; intros ?; repeat split
    | match goal with
      | |- keeps _ (match ?o with Some _ => _ | None => _ end) => destruct o
      | |- keeps _ (match ?io with IoOk => _ | IoFails => _ end) => destruct io
      end ].

Ltac keeps_all Hrefl Htrans := repeat keeps_step Hrefl Htrans.


Section SessionFacts.
Context `{SignalLib}.

Lemma min_side_kept_refl m : min_side_kept m m.
Proof. split; auto. Qed.

Lemma min_side_kept_trans a b c :
  min_side_kept a b -> min_side_kept b c -> min_side_kept a c.
Proof.
  intros [E1 K1] [E2 K2]. split; [congruence|].
  intros Ha. rewrite K2 by congruence. auto.
Qed.

Lemma max_side_kept_refl m : max_side_kept m m.
Proof. split; auto. Qed.

Lemma max_side_kept_trans a b c :
  max_side_kept a b -> max_side_kept b c -> max_side_kept a c.
Proof.
  intros [E1 K1] [E2 K2]. split; [congruence|].
  intros Ha. rewrite K2 by congruence. auto.
Qed.

Lemma clear_intensity_min_side : keeps min_side_kept _clear_intensity.
Proof.
  intros m [] m'. unfold _clear_intensity. run_m.
  destruct (min_auto_scale m) eqn:Ea; destruct (max_auto_scale m) eqn:Eb;
    cbn; rewrite ?Ea, ?Eb; cbn; intros [= <-]; split; cbn; congruence.
Qed.

Lemma clear_intensity_max_side : keeps max_side_kept _clear_intensity.
Proof.
  intros m [] m'. unfold _clear_intensity. run_m.
  destruct (min_auto_scale m) eqn:Ea; destruct (max_auto_scale m) eqn:Eb;
    cbn; rewrite ?Ea, ?Eb; cbn; intros [= <-]; split; cbn; congruence.
Qed.

Lemma track_min_min_side frame : keeps min_side_kept (track_min frame).
Proof.
  intros m [] m'. unfold track_min. run_m.
  destruct (min_auto_scale m) eqn:Ea.
  - destruct (np_min frame); [|discriminate]. intros [= <-]. split; cbn; congruence.
  - intros [= <-]. split; auto.
Qed.

Lemma track_max_max_side frame : keeps max_side_kept (track_max frame).
Proof.
  intros m [] m'. unfold track_max. run_m.
  destruct (max_auto_scale m) eqn:Ea.
  - destruct (np_max frame); [|discriminate]. intros [= <-]. split; cbn; congruence.
  - intros [= <-]. split; auto.
Qed.

Lemma get_data_min_side : keeps min_side_kept get_data.
Proof.
  pose proof track_min_min_side.
  assert (keeps min_side_kept get_magnitudes) as Hm.
  { intros m a m' E. destruct (get_magnitudes_keeps _ _ _ E) as [Hs [Hmin _]].
    split; [apply Hs|]. intros _. exact Hmin. }
  unfold get_data, update_intensity, track_max, set_range.
  keeps_all min_side_kept_refl min_side_kept_trans.
Qed.

Lemma get_data_max_side : keeps max_side_kept get_data.
Proof.
  pose proof track_max_max_side.
  assert (keeps max_side_kept get_magnitudes) as Hm.
  { intros m a m' E. destruct (get_magnitudes_keeps _ _ _ E) as [Hs [_ Hmax]].
    split; [apply Hs|]. intros _. exact Hmax. }
  unfold get_data, update_intensity, track_min, set_range.
  keeps_all max_side_kept_refl max_side_kept_trans.
Qed.

Lemma action_min_side (a : action) :
  sets_min a = false -> keeps min_side_kept (run_action a).
Proof.
  pose proof clear_intensity_min_side. pose proof get_data_min_side.
  destruct a as [c|]; [|intros _; simpl; keeps_all min_side_kept_refl min_side_kept_trans].
  destruct c as [v io|v io|g io|v|i|i|v|v|v|v|s|v]; simpl; try discriminate; intros _;
    unfold set_center_freq, set_sample_rate, set_gain, set_zoom_fac, set_max_intensity,
      set_swap_iq, set_peak, set_lo_offset, set_fft_ave, set_filter, set_kaiser_beta,
      sdr_set_center_freq, sdr_set_sample_rate, sdr_set_gain, sdr_set_manual_gain_enabled,
      get_sample_rate, get_zoom_fac, get_lo_offset, get_center_freq;
    try destruct g; try destruct i;
    keeps_all min_side_kept_refl min_side_kept_trans.
Qed.

Lemma action_max_side (a : action) :
  sets_max a = false -> keeps max_side_kept (run_action a).
Proof.
  pose proof clear_intensity_max_side. pose proof get_data_max_side.
  destruct a as [c|]; [|intros _; simpl; keeps_all max_side_kept_refl max_side_kept_trans].
  destruct c as [v io|v io|g io|v|i|i|v|v|v|v|s|v]; simpl; try discriminate; intros _;
    unfold set_center_freq, set_sample_rate, set_gain, set_zoom_fac, set_min_intensity,
      set_swap_iq, set_peak, set_lo_offset, set_fft_ave, set_filter, set_kaiser_beta,
      sdr_set_center_freq, sdr_set_sample_rate, sdr_set_gain, sdr_set_manual_gain_enabled,
      get_sample_rate, get_zoom_fac, get_lo_offset, get_center_freq;
    try destruct g; try destruct i;
    keeps_all max_side_kept_refl max_side_kept_trans.
Qed.

Lemma actions_min_side (acts : list action) :
  Forall (fun a => sets_min a = false) acts -> keeps min_side_kept (run_actions acts).
Proof.
  induction 1 as [|a acts Ha _ IH]; simpl.
  - apply keeps_ret, min_side_kept_refl.
  - apply (keeps_bind _ min_side_kept_trans); [apply action_min_side, Ha|intros _; exact IH].
Qed.

Lemma actions_max_side (acts : list action) :
  Forall (fun a => sets_max a = false) acts -> keeps max_side_kept (run_actions acts).
Proof.
  induction 1 as [|a acts Ha _ IH]; simpl.
  - apply keeps_ret, max_side_kept_refl.
  - apply (keeps_bind _ max_side_kept_trans); [apply action_max_side, Ha|intros _; exact IH].
Qed.

(** X7. A fixed (not auto-scaled) intensity bound is changed by its own setter
    only: after any sequence of setter calls and acquired frames that does
    not call [set_min_intensity], a fixed lower bound is still fixed and has
    the same value; likewise for the upper bound and [set_max_intensity]. *)
Theorem fixed_bound_survives (acts : list action) (m m' : FreqShowModel) :
  run_actions acts m = Ok (tt, m') ->
  (min_auto_scale m = false -> Forall (fun a => sets_min a = false) acts ->
   min_auto_scale m' = false /\ min_intensity m' = min_intensity m)
  /\ (max_auto_scale m = false -> Forall (fun a => sets_max a = false) acts ->
      max_auto_scale m' = false /\ max_intensity m' = max_intensity m).
Proof.
  intros E. split; intros Hfix Hacts.
  - destruct (actions_min_side acts Hacts _ _ _ E) as [Ea Ek]. split; [congruence|auto].
  - destruct (actions_max_side acts Hacts _ _ _ E) as [Ea Ek]. split; [congruence|auto].
Qed.

Lemma action_bounds_set (a : action) (m m' : FreqShowModel) :
  run_action a m = Ok (tt, m') -> fixed_bounds_set m -> fixed_bounds_set m'.
Proof.
  intros E [Hmin Hmax].
  assert (sets_min a = false -> min_auto_scale m' = false ->
          min_intensity m' <> None) as Kmin.
  { intros Ha Hf. destruct (action_min_side a Ha _ _ _ E) as [Ea Ek].
    rewrite Ek by congruence. apply Hmin. congruence. }
  assert (sets_max a = false -> max_auto_scale m' = false ->
          max_intensity m' <> None) as Kmax.
  { intros Ha Hf. destruct (action_max_side a Ha _ _ _ E) as [Ea Ek].
    rewrite Ek by congruence. apply Hmax. congruence. }
  destruct (sets_min a) eqn:Smin; [|destruct (sets_max a) eqn:Smax].
  - split; [|apply Kmax; destruct a as [[]|]; try discriminate; reflexivity].
    destruct a as [[| | | |i| | | | | | |]|]; try discriminate. simpl in E.
    unfold set_min_intensity in E.
    apply bind_ok_inv in E as ([] & m1 & E1 & E). cbv beta in E.
    destruct (clear_intensity_min_side _ _ _ E) as [Ea Ek].
    destruct i as [|q]; cbv in E1; injection E1 as <-.
    + intros Hf. rewrite Ea in Hf. discriminate.
    + intros _. rewrite Ek by reflexivity. discriminate.
  - split; [apply Kmin; reflexivity|].
    destruct a as [[| | | | |i| | | | | |]|]; try discriminate. simpl in E.
    unfold set_max_intensity in E.
    apply bind_ok_inv in E as ([] & m1 & E1 & E). cbv beta in E.
    destruct (clear_intensity_max_side _ _ _ E) as [Ea Ek].
    destruct i as [|q]; cbv in E1; injection E1 as <-.
    + intros Hf. rewrite Ea in Hf. discriminate.
    + intros _. rewrite Ek by reflexivity. discriminate.
  - split; [apply Kmin|apply Kmax]; reflexivity.
Qed.

Lemma actions_bounds_set (acts : list action) (m m' : FreqShowModel) :
  run_actions acts m = Ok (tt, m') -> fixed_bounds_set m -> fixed_bounds_set m'.
Proof.
  revert m. induction acts as [|a acts IH]; intros m E Hb.
  - injection E as <-. exact Hb.
  - simpl in E. apply bind_ok_inv in E as ([] & m1 & E1 & E). cbv beta in E.
    apply (IH m1 E). exact (action_bounds_set a m m1 E1 Hb).
Qed.

Lemma model_init_calls (w h : Z) (dev : RtlSdr) :
  (set_min_intensity (Value (-10));;
   set_max_intensity (Value 50);;
   set_swap_iq PTrue;;
   set_sample_rate (230 # 1000) IoOk;;
   set_zoom_fac (5 # 100);;
   set_lo_offset (3 # 100);;
   set_center_freq (704515 # 10000) IoOk;;
   set_gain AUTO IoOk;;
   set_fft_ave 3;;
   set_kaiser_beta (86 # 10);;
   set_peak PTrue;;
   set_filter "nuttall")
    {| width := w; height := h; min_auto_scale := true; max_auto_scale := true;
       min_intensity := None; max_intensity := None; range := None;
       sdr := dev; swap_iq := POther; zoom_fac := 0; lo_offset := 0;
       center_freq := 0; auto_gain := false; fft_ave := AveBoundMethod;
       peak := POther; filter := ""; kaiser_beta := 0; sample_rate := None |}
  = model_init w h dev.
Proof. exact eq_refl. Qed.

Ltac init_step E Hb c :=
  let E1 := fresh "E" in
  apply bind_ok_inv in E as ([] & ? & E1 & E); cbv beta in E;
  apply (action_bounds_set (Do_call c) _ _ E1) in Hb; clear E1.

Lemma model_init_bounds_set (w h : Z) (dev : RtlSdr) (m0 : FreqShowModel) :
  model_init w h dev = Ok (tt, m0) -> fixed_bounds_set m0.
Proof.
  intros E. rewrite <- model_init_calls in E.
  set (start := {| width := w |}) in E.
  assert (fixed_bounds_set start) as Hb by (split; discriminate).
  clearbody start.
  init_step E Hb (Call_set_min_intensity (Value (-10))).
  init_step E Hb (Call_set_max_intensity (Value 50)).
  init_step E Hb (Call_set_swap_iq PTrue).
  init_step E Hb (Call_set_sample_rate (230 # 1000) IoOk).
  init_step E Hb (Call_set_zoom_fac (5 # 100)).
  init_step E Hb (Call_set_lo_offset (3 # 100)).
  init_step E Hb (Call_set_center_freq (704515 # 10000) IoOk).
  init_step E Hb (Call_set_gain AUTO IoOk).
  init_step E Hb (Call_set_fft_ave 3).
  init_step E Hb (Call_set_kaiser_beta (86 # 10)).
  init_step E Hb (Call_set_peak PTrue).
  exact (action_bounds_set (Do_call (Call_set_filter "nuttall")) _ _ E Hb).
Qed.

(** X8. In every state reached from [__init__] by setter calls and acquired
    frames, a bound that is not auto-scaled is not [None]: only auto-scaled
    bounds are unset between a reset and the next frame, so [get_data] always
    finds the fixed bounds it subtracts. *)
Theorem fixed_bounds_always_stored (w h : Z) (dev : RtlSdr) (acts : list action)
    (m0 m : FreqShowModel) :
  model_init w h dev = Ok (tt, m0) ->
  run_actions acts m0 = Ok (tt, m) ->
  fixed_bounds_set m.
Proof.
  intros E0 E. apply (actions_bounds_set acts m0 m E).
  exact (model_init_bounds_set w h dev m0 E0).
Qed.

End SessionFacts.

Lemma fixed_bound_survives_witness :
  (min_auto_scale small_fixed_model = false ->
   Forall (fun a => sets_min a = false)
     [Do_call (Call_set_zoom_fac (1 # 10)); Do_frame;
      Do_call (Call_set_center_freq (705 # 10) IoOk)] ->
   min_auto_scale small_fixed_model_later = false
   /\ min_intensity small_fixed_model_later = min_intensity small_fixed_model)
  /\ (max_auto_scale small_fixed_model = false ->
      Forall (fun a => sets_max a = false)
        [Do_call (Call_set_zoom_fac (1 # 10)); Do_frame;
         Do_call (Call_set_center_freq (705 # 10) IoOk)] ->
      max_auto_scale small_fixed_model_later = false
      /\ max_intensity small_fixed_model_later = max_intensity small_fixed_model).
Proof.
  apply (@fixed_bound_survives BenchLib
           [Do_call (Call_set_zoom_fac (1 # 10)); Do_frame;
            Do_call (Call_set_center_freq (705 # 10) IoOk)]
           small_fixed_model small_fixed_model_later).
  lazy. reflexivity.
Defined.

Lemma fixed_bounds_always_stored_witness :
  fixed_bounds_set
    (with_range None
       (with_min_intensity None
          (with_min_auto_scale true (with_zoom_fac (1 # 10) bench_model)))).
Proof.
  apply (@fixed_bounds_always_stored BenchLib 320 240 bench_sdr
           [Do_call (Call_set_zoom_fac (1 # 10));
            Do_call (Call_set_min_intensity AUTO)] bench_model).
  - reflexivity.
  - reflexivity.
Defined.

(** ** Edge cases of the setters and of [get_data] *)

Section SetterFacts.
Context `{SignalLib}.

Lemma zoom_bins_zero_span (m : FreqShowModel) :
  (zoom_fac m == 0)%Q -> (0 < full_rate m)%Q ->
  zoom_bins m = Raise ZeroDivisionError.
Proof.
  intros Hz Hr. destruct (zoom_bins_cases m) as [[_ E]|[E _]].
  - rewrite E. unfold py_div.
    destruct (Qeq_bool (zoom_fac m) 0) eqn:E0; [reflexivity|].
    apply Qeq_bool_neq in E0. contradiction.
  - apply Qltb_false in E. rewrite Hz in E. lra.
Qed.

(** X9. After [set_zoom_fac(0)] on a tuner with a positive sample rate,
    [get_freq_step], [get_data] and [set_center_freq] all raise
    ZeroDivisionError: the setter stores the zero unchecked and every reader
    divides by it. *)
Theorem zero_zoom_span_raises (z : Q) (m : FreqShowModel) :
  (z == 0)%Q -> (0 < full_rate m)%Q ->
  (set_zoom_fac z;; get_freq_step) m = Raise ZeroDivisionError
  /\ (set_zoom_fac z;; get_data) m = Raise ZeroDivisionError
  /\ (forall value io,
        (set_zoom_fac z;; set_center_freq value io) m = Raise ZeroDivisionError).
Proof.
  intros Hz Hr.
  assert (zoom_bins (with_zoom_fac z m) = Raise ZeroDivisionError) as Hzb
    by (apply zoom_bins_zero_span; assumption).
  split; [|split].
  - unfold set_zoom_fac. rewrite run_modify. unfold get_freq_step.
    rewrite run_bind, Hzb. reflexivity.
  - unfold set_zoom_fac. rewrite run_modify. unfold get_data, get_magnitudes.
    rewrite !run_bind, Hzb. reflexivity.
  - intros value io. unfold set_zoom_fac. rewrite run_modify.
    unfold set_center_freq. run_m. cbn [with_zoom_fac with_center_freq zoom_fac sdr].
    unfold py_div. destruct (Qeq_bool z 0) eqn:E0; [reflexivity|].
    apply Qeq_bool_neq in E0. contradiction.
Qed.

Lemma zoom_kept_or_reset_refl m : zoom_kept_or_reset m m.
Proof. split; auto. Qed.

Lemma zoom_kept_or_reset_trans a b c :
  zoom_kept_or_reset a b -> zoom_kept_or_reset b c -> zoom_kept_or_reset a c.
Proof.
  intros [R1 Z1] [R2 Z2]. split; [congruence|].
  destruct Z2 as [Z2|Z2]; [destruct Z1; [left|right]; congruence|right; congruence].
Qed.

Lemma zoom_bins_zoom_kept : keeps zoom_kept_or_reset zoom_bins.
Proof.
  intros m z m' E. destruct (zoom_bins_cases m) as [[_ Hc]|[_ Hc]]; rewrite Hc in E.
  - destruct (py_div _ _); [|discriminate]. injection E as _ <-. apply zoom_kept_or_reset_refl.
  - injection E as _ <-. split; [reflexivity|right; reflexivity].
Qed.

Lemma guard_zoom_zoom_kept z : keeps zoom_kept_or_reset (guard_zoom z).
Proof.
  intros m z' m'. unfold guard_zoom. destruct (z <? SDR_SAMPLE_SIZE).
  - intros [= _ <-]. apply zoom_kept_or_reset_refl.
  - run_m. intros [= _ <-]. split; [reflexivity|right; reflexivity].
Qed.

Lemma read_samples_zoom_kept n : keeps zoom_kept_or_reset (read_samples n).
Proof.
  intros m a m'. unfold read_samples.
  destruct (sdr_stream _ _); [|discriminate]. intros [= _ <-]. split; [reflexivity|left; reflexivity].
Qed.

Ltac zoom_kept :=
  keeps_all zoom_kept_or_reset_refl zoom_kept_or_reset_trans;
  try (left; reflexivity).

Lemma crop_zoom_kept freqs : keeps zoom_kept_or_reset (crop freqs).
Proof.
  pose proof zoom_bins_zoom_kept.
  unfold crop, get_freq_step, get_lo_offset, get_swap_iq. zoom_kept.
Qed.

Lemma update_intensity_zoom_kept frame : keeps zoom_kept_or_reset (update_intensity frame).
Proof. unfold update_intensity, track_min, track_max, set_range. zoom_kept. Qed.

(** X10. After a call of [get_data] that returns, the zoom span is at most the
    sample rate: it is the span there was, or it has been reset to the sample
    rate, which the call leaves as it is. *)
Theorem zoom_span_capped (m m' : FreqShowModel) (frame : list fval) :
  get_data m = Ok (frame, m') ->
  (zoom_fac m' <= full_rate m')%Q /\ zoom_kept_or_reset m m'.
Proof.
  intros E. unfold get_data in E.
  apply bind_ok_inv in E as (mags & m1 & Hm & E). cbv beta zeta in E.
  apply bind_ok_inv in E as ([] & m2 & Hu & E). cbv beta in E. injection E as _ <-.
  pose proof (update_intensity_zoom_kept _ _ _ _ Hu) as K2.
  unfold get_magnitudes in Hm.
  apply bind_ok_inv in Hm as (z & ma & Hzb & Hm). cbv beta in Hm.
  pose proof (zoom_bins_zoom_kept _ _ _ Hzb) as Ka.
  assert (zoom_fac ma <= full_rate ma)%Q as Hcap.
  { destruct (zoom_bins_cases m) as [[Hlt Hc]|[_ Hc]]; rewrite Hc in Hzb.
    - destruct (py_div _ _); [|discriminate]. injection Hzb as _ <-.
      apply Qltb_true in Hlt. apply Qlt_le_weak, Hlt.
    - injection Hzb as _ <-. apply Qle_refl. }
  assert (zoom_kept_or_reset ma m1) as K1.
  { revert Hm. match goal with |- ?c ma = _ -> _ =>
      assert (keeps zoom_kept_or_reset c) as Hk end.
    { pose proof guard_zoom_zoom_kept. pose proof read_samples_zoom_kept.
      pose proof crop_zoom_kept. zoom_kept. }
    apply Hk. }
  pose proof (zoom_kept_or_reset_trans _ _ _ K1 K2) as K.
  split; [|exact (zoom_kept_or_reset_trans _ _ _ Ka K)].
  destruct K as [Er [Ez|Ez]]; rewrite Er, Ez; [exact Hcap|apply Qle_refl].
Qed.

(** X11. [set_sample_rate] always returns and leaves the zoom span, the intensity
    bounds and [range] untouched.  The tuner gets the new rate only for a value
    in one of the two bands 0.225001..0.3 and 0.900001..3.2 MHz that the driver
    accepts; for any other value, and when the driver refuses, the tuner is
    left as it is. *)
Theorem set_sample_rate_bands (v : Q) (io : io_outcome) (m : FreqShowModel) :
  exists m',
    set_sample_rate v io m = Ok (tt, m')
    /\ zoom_fac m' = zoom_fac m
    /\ min_intensity m' = min_intensity m
    /\ max_intensity m' = max_intensity m
    /\ range m' = range m
    /\ ((in_rate_band v /\ io = IoOk
         /\ sdr_sample_rate (sdr m') = (v * 1000000)%Q)
        \/ ((~ in_rate_band v \/ io = IoFails) /\ sdr m' = sdr m)).
Proof.
  unfold set_sample_rate.
  destruct (Qle_bool (225001 # 1000000) v && Qle_bool v (3 # 10)
            || Qle_bool (900001 # 1000000) v && Qle_bool v (32 # 10)) eqn:E.
  - assert (in_rate_band v) as Hband.
    { apply orb_true_iff in E as [E|E]; apply andb_true_iff in E as [E1 E2];
        apply Qle_bool_iff in E1, E2; [left|right]; split; assumption. }
    destruct io.
    + eexists. split; [reflexivity|]. repeat split. left. repeat split. exact Hband.
    + eexists. split; [reflexivity|]. repeat split. right. split; [right|]; reflexivity.
  - eexists. split; [reflexivity|]. repeat split. right. split; [left|reflexivity].
    intros [[H1 H2]|[H1 H2]]; apply orb_false_iff in E as [Ea Eb];
      apply andb_false_iff in Ea, Eb; apply Qle_bool_iff in H1, H2;
      destruct Ea, Eb; congruence.
Qed.

(** X12. The setters treat an IOError of the driver differently: [set_gain] with
    a number swallows it and leaves the model unchanged, while [set_gain('AUTO')]
    and [set_center_freq] let it escape. *)
Theorem refused_driver_calls (m : FreqShowModel) :
  (forall db, set_gain (Value db) IoFails m = Ok (tt, m))
  /\ set_gain AUTO IoFails m = Raise IOError
  /\ (forall value, ~ (zoom_fac m == 0)%Q ->
        set_center_freq value IoFails m = Raise IOError).
Proof.
  split; [intros db; reflexivity|]. split; [reflexivity|].
  intros value Hz. unfold set_center_freq. run_m.
  cbn [with_center_freq zoom_fac sdr lo_offset center_freq].
  rewrite !py_div_ok by exact Hz. reflexivity.
Qed.

Lemma get_data_reads (m m' : FreqShowModel) (frame : list fval) :
  get_data m = Ok (frame, m') -> sdr_reads (sdr m') = S (sdr_reads (sdr m)).
Proof.
  set (R := fun a b : FreqShowModel => sdr_reads (sdr b) = sdr_reads (sdr a)).
  assert (forall a, R a a) as Rrefl by reflexivity.
  assert (forall a b c, R a b -> R b c -> R a c) as Rtrans
    by (unfold R; intros; congruence).
  assert (keeps R zoom_bins) as Kz.
  { unfold zoom_bins, get_sample_rate. keeps_all Rrefl Rtrans. }
  assert (forall z, keeps R (guard_zoom z)) as Kg.
  { intros z. unfold guard_zoom, get_sample_rate. keeps_all Rrefl Rtrans. }
  assert (forall f, keeps R (crop f)) as Kc.
  { intros f. unfold crop, get_freq_step, get_lo_offset, get_swap_iq.
    keeps_all Rrefl Rtrans. }
  assert (forall f, keeps R (update_intensity f)) as Ku.
  { intros f. unfold update_intensity, track_min, track_max, set_range.
    keeps_all Rrefl Rtrans. }
  intros E. unfold get_data in E.
  apply bind_ok_inv in E as (mags & m1 & Hm & E). cbv beta zeta in E.
  apply bind_ok_inv in E as ([] & m2 & Hu & E). cbv beta in E. injection E as _ <-.
  rewrite (Ku _ _ _ _ Hu).
  unfold get_magnitudes in Hm.
  apply bind_ok_inv in Hm as (z & ma & Hzb & Hm). cbv beta in Hm.
  apply bind_ok_inv in Hm as (z' & mb & Hgz & Hm). cbv beta in Hm.
  apply bind_ok_inv in Hm as (raw & mc & Hrd & Hm). cbv beta zeta in Hm.
  assert (sdr_reads (sdr mc) = S (sdr_reads (sdr mb))) as Hread.
  { unfold read_samples in Hrd. destruct (sdr_stream _ _); [|discriminate].
    injection Hrd as _ <-. reflexivity. }
  assert (R mc m1) as Hrest.
  { revert Hm. match goal with |- ?c mc = _ -> _ => assert (keeps R c) as Hk end.
    { keeps_all Rrefl Rtrans. }
    apply Hk. }
  unfold R in Hrest. rewrite Hrest, Hread, (Kg _ _ _ _ Hgz), (Kz _ _ _ Hzb). reflexivity.
Qed.

(** X14. A call of [get_data] that returns reads exactly one batch from the tuner.
    A call of [InstantSpectrogram.render_spectrogram] that returns reads one
    batch, and two when it rebuilds the history (the frame length or the
    averaging depth has changed). *)
Theorem frames_consume_batches (v v' : InstantSpectrogram)
    (m m1 m' : FreqShowModel) (freqs freqslast : list fval) (n : Z) :
  history_shaped v -> fft_ave m = AveInt n ->
  get_data m = Ok (freqslast, m1) ->
  render_spectrogram v m = Ok ((freqs, v'), m') ->
  sdr_reads (sdr m1) = S (sdr_reads (sdr m))
  /\ sdr_reads (sdr m')
     = if negb (Nat.eqb (length (freqsfirst v)) (length freqslast))
          || negb (checkfirst v =? n + 1)
       then S (S (sdr_reads (sdr m)))
       else S (sdr_reads (sdr m)).
Proof.
  intros Hv Hn Hg E.
  pose proof (get_data_reads _ _ _ Hg) as H1. split; [exact H1|].
  destruct (render_spectrogram_inv v v' m m' freqs Hv E)
    as (freqslast' & m1' & n' & v1 & x & rest & row & Hg' & Hn' & Hbranch & _).
  rewrite Hg in Hg'. injection Hg' as <- <-.
  assert (n' = n) as -> by congruence.
  destruct (negb (Nat.eqb (length (freqsfirst v)) (length freqslast))
            || negb (checkfirst v =? n + 1)).
  - destruct (fill_history_inv _ _ _ Hbranch) as (k & fresh & _ & _ & Hfresh & _).
    rewrite (get_data_reads _ _ _ Hfresh), H1. reflexivity.
  - destruct Hbranch as [_ ->]. exact H1.
Qed.

End SetterFacts.

Lemma zero_zoom_span_raises_witness :
  (set_zoom_fac 0;; get_freq_step) bench_model = Raise ZeroDivisionError
  /\ (set_zoom_fac 0;; get_data) bench_model = Raise ZeroDivisionError
  /\ (forall value io,
        (set_zoom_fac 0;; set_center_freq value io) bench_model
        = Raise ZeroDivisionError).
Proof.
  apply (@zero_zoom_span_raises BenchLib 0 bench_model); reflexivity.
Defined.

Lemma zoom_span_capped_witness :
  (zoom_fac (small_model_after 1 db0 db0) <= full_rate (small_model_after 1 db0 db0))%Q
  /\ zoom_kept_or_reset small_model (small_model_after 1 db0 db0).
Proof.
  apply (@zoom_span_capped BenchLib small_model (small_model_after 1 db0 db0)
           (replicate 4 (Fin db0))).
  reflexivity.
Defined.

Lemma frames_consume_batches_witness :
  sdr_reads (sdr (with_fft_ave (AveInt 2) (small_model_after 2 db0 db6)))
  = S (sdr_reads (sdr (with_fft_ave (AveInt 2) (small_model_after 1 db0 db0))))
  /\ sdr_reads (sdr (with_fft_ave (AveInt 2) (small_model_after 3 db0 db12)))
     = if negb (Nat.eqb (length (freqsfirst small_view)) (length (replicate 4 (Fin db6))))
          || negb (checkfirst small_view =? 2 + 1)
       then S (S (sdr_reads (sdr (with_fft_ave (AveInt 2) (small_model_after 1 db0 db0)))))
       else S (sdr_reads (sdr (with_fft_ave (AveInt 2) (small_model_after 1 db0 db0)))).
Proof.
  apply (@frames_consume_batches BenchLib small_view small_view_rebuilt
           (with_fft_ave (AveInt 2) (small_model_after 1 db0 db0))
           (with_fft_ave (AveInt 2) (small_model_after 2 db0 db6))
           (with_fft_ave (AveInt 2) (small_model_after 3 db0 db12))
           (replicate 4 (Fin db12)) (replicate 4 (Fin db6)) 2).
  - split; [reflexivity|repeat constructor].
  - reflexivity.
  - reflexivity.
  - reflexivity.
Defined.

(** ** The averaging depth from its dialog *)

Section FftAveFacts.
Context `{SignalLib}.


End FftAveFacts.


(** ** The boolean dialogs *)

Section BooleanDialogFacts.
Context `{SignalLib}.





End BooleanDialogFacts.


(** ** The crop of a zoomed-in model *)

Section CropFacts.
Context `{SignalLib}.




End CropFacts.


(** ** Mirroring *)

Lemma fftshift_reverse {A} (l : list A) :
  Nat.Even (length l) -> fftshift (reverse l) = reverse (fftshift l).
Proof.
  intros [k Hk]. unfold fftshift. rewrite length_reverse, Hk.
  replace (2 * k / 2)%nat with k by (rewrite Nat.mul_comm, Nat.div_mul; lia).
  replace (2 * k - k)%nat with k by lia.
  rewrite reverse_app, drop_reverse, take_reverse, Hk.
  replace (2 * k - k)%nat with k by lia. reflexivity.
Qed.

Lemma py_slice_window {A} (a w : Z) (l : list A) :
  0 <= a -> 0 <= w -> a + w < Z.of_nat (length l) ->
  py_slice a (- (Z.of_nat (length l) - (a + w))) l
  = take (Z.to_nat w) (drop (Z.to_nat a) l).
Proof.
  intros Ha Hw Hl. unfold py_slice, clip_index.
  destruct (a <? 0) eqn:E1; [apply Z.ltb_lt in E1; lia|].
  destruct (- (Z.of_nat (length l) - (a + w)) <? 0) eqn:E2;
    [|apply Z.ltb_ge in E2; lia].
  f_equal; [|f_equal]; lia.
Qed.

Lemma crop_window_mirror {A} (e s w : nat) (l : list A) :
  length l = (2 * e + w)%nat -> (s <= e)%nat ->
  take w (drop (e + s) (reverse l)) = reverse (take w (drop (e - s) l)).
Proof.
  intros Hl Hs.
  rewrite drop_reverse, take_reverse, length_take.
  replace (length l - (e + s))%nat with (e - s + w)%nat by lia.
  replace ((e - s + w) `min` length l - w)%nat with (e - s)%nat by lia.
  rewrite take_drop_commute. reflexivity.
Qed.

Lemma crop_window_mirror' {A} (e s w : nat) (l : list A) :
  length l = (2 * e + w)%nat -> (s <= e)%nat ->
  take w (drop (e - s) (reverse l)) = reverse (take w (drop (e + s) l)).
Proof.
  intros Hl Hs.
  rewrite drop_reverse, take_reverse, length_take.
  replace (length l - (e - s))%nat with (e + s + w)%nat by lia.
  replace ((e + s + w) `min` length l - w)%nat with (e + s)%nat by lia.
  rewrite take_drop_commute. reflexivity.
Qed.

Lemma crop_at_window {A} (s w e : Z) (swap : bool) (l : list A) :
  0 < w -> 1 <= e -> Z.of_nat (length l) = 2 * e + w ->
  crop_at s (if swap then PTrue else PFalse) w l
  = Ok (take (Z.to_nat w)
          (drop (Z.to_nat (if Z.abs s <? e
                           then (if swap then e + s else e - s) else e)) l)).
Proof.
  intros Hw He Hlen. unfold crop_at, crop_offsets.
  replace ((Z.of_nat (length l) - w) / 2) with e
    by (rewrite Hlen; replace (2 * e + w - w) with (e * 2) by lia;
        rewrite Z.div_mul; lia).
  destruct (Z.abs s <? e) eqn:Es; [apply Z.ltb_lt in Es|];
    destruct swap; cbn [mbind result_bind rbind];
    rewrite py_slice_window by lia; reflexivity.
Qed.

(** X17. Swap I&Q mirrors the display: for a spectrum of even length cropped to a
    width of the same parity, reversing it before [fftshift] and cropping with
    the offset added gives the reverse of what the unswapped path crops, for
    every LO offset. *)
Theorem swap_iq_mirrors_spectrum {A} (spectrum : list A) (w shiftsweep : Z) :
  Nat.Even (length spectrum) ->
  0 < w < Z.of_nat (length spectrum) ->
  Z.Even (Z.of_nat (length spectrum) - w) ->
  fftshift (reverse spectrum) = reverse (fftshift spectrum)
  /\ exists cut,
       crop_at shiftsweep PFalse w (fftshift spectrum) = Ok cut
       /\ crop_at shiftsweep PTrue w (fftshift (reverse spectrum)) = Ok (reverse cut).
Proof.
  intros Heven Hw [e He].
  pose proof (fftshift_reverse spectrum Heven) as Hshift.
  split; [exact Hshift|]. rewrite Hshift.
  set (g := fftshift spectrum).
  assert (length g = length spectrum) as Hg by apply fftshift_length.
  assert (Z.of_nat (length g) = 2 * e + w) as Hlen by lia.
  assert (1 <= e) as He1 by lia.
  assert (length g = (2 * Z.to_nat e + Z.to_nat w)%nat) as Hln by lia.
  rewrite (crop_at_window shiftsweep w e false g) by lia.
  rewrite (crop_at_window shiftsweep w e true (reverse g))
    by (rewrite ?length_reverse; lia).
  eexists. split; [reflexivity|]. f_equal.
  destruct (Z.abs shiftsweep <? e) eqn:Es.
  - apply Z.ltb_lt in Es.
    destruct (Z.le_gt_cases 0 shiftsweep) as [Hs|Hs].
    + replace (Z.to_nat (e + shiftsweep)) with (Z.to_nat e + Z.to_nat shiftsweep)%nat by lia.
      replace (Z.to_nat (e - shiftsweep)) with (Z.to_nat e - Z.to_nat shiftsweep)%nat by lia.
      apply crop_window_mirror; [exact Hln|lia].
    + replace (Z.to_nat (e + shiftsweep)) with (Z.to_nat e - Z.to_nat (- shiftsweep))%nat by lia.
      replace (Z.to_nat (e - shiftsweep)) with (Z.to_nat e + Z.to_nat (- shiftsweep))%nat by lia.
      apply crop_window_mirror'; [exact Hln|lia].
  - pose proof (crop_window_mirror (Z.to_nat e) 0 (Z.to_nat w) g Hln ltac:(lia)) as Hm.
    rewrite Nat.add_0_r, Nat.sub_0_r in Hm. exact Hm.
Qed.

Lemma swap_iq_mirrors_spectrum_witness :
  fftshift (reverse [1; 2; 3; 4; 5; 6; 7; 8]) = reverse (fftshift [1; 2; 3; 4; 5; 6; 7; 8])
  /\ exists cut,
       crop_at 1 PFalse 4 (fftshift [1; 2; 3; 4; 5; 6; 7; 8]) = Ok cut
       /\ crop_at 1 PTrue 4 (fftshift (reverse [1; 2; 3; 4; 5; 6; 7; 8])) = Ok (reverse cut).
Proof.
  apply (swap_iq_mirrors_spectrum [1; 2; 3; 4; 5; 6; 7; 8] 4 1).
  - exists 4%nat. reflexivity.
  - simpl. lia.
  - exists 2. reflexivity.
Defined.

(** ** The history as a queue *)

Section QueueFacts.
Context `{SignalLib}.



End QueueFacts.


(** ** What the spectrogram views draw *)

Lemma for_each_ok_inv {A B} (body : A -> result B) (l : list A) (bs : list B) :
  for_each body l = Ok bs ->
  length bs = length l
  /\ forall k a, l !! k = Some a -> exists b, bs !! k = Some b /\ body a = Ok b.
Proof.
  revert bs. induction l as [|a l IH]; intros bs E; simpl in E.
  - injection E as <-. split; [reflexivity|]. intros k a Hk. discriminate.
  - destruct (body a) as [b|e] eqn:Eb; [|discriminate]. cbn in E.
    destruct (for_each body l) as [bs'|e] eqn:El; [|discriminate]. cbn in E.
    injection E as <-. destruct (IH bs' eq_refl) as [Hlen Hall].
    split; [simpl; congruence|].
    intros [|k] a' Hk; simpl in Hk.
    + injection Hk as <-. exists b. split; [reflexivity|exact Eb].
    + apply Hall, Hk.
Qed.

Lemma for_each_raises {A B} (body : A -> result B) (e : exn) (l1 l2 : list A) (a : A) :
  Forall (fun x => body x = Raise e \/ exists b, body x = Ok b) l1 ->
  body a = Raise e ->
  for_each body (l1 ++ a :: l2) = Raise e.
Proof.
  intros Hall Ha. induction Hall as [|x l1 Hx _ IH]; simpl.
  - rewrite Ha. reflexivity.
  - destruct Hx as [->|[b ->]]; [reflexivity|]. cbn. rewrite IH. reflexivity.
Qed.

Lemma py_range_from_0 (w : Z) :
  py_range 0 w = map Z.of_nat (seq 0 (Z.to_nat w)).
Proof.
  unfold py_range. rewrite Z.sub_0_r. apply map_ext. intros k. lia.
Qed.

Lemma py_getitem_nat_inv {A} (l : list A) (i : nat) (x : A) :
  py_getitem l (Z.of_nat i) = Ok x -> l !! i = Some x.
Proof.
  unfold py_getitem, py_index.
  destruct (Z.of_nat i <? 0) eqn:E0; [apply Z.ltb_lt in E0; lia|].
  destruct ((0 <=? Z.of_nat i) && (Z.of_nat i <? Z.of_nat (length l))); [|discriminate].
  rewrite Nat2Z.id. destruct (l !! i); [|discriminate]. intros [= ->]. reflexivity.
Qed.

Lemma color_func_low (q : Q) : (q <= 0)%Q -> Gradient.color_func q = Ok (0, 0, 255).
Proof.
  intros Hq. unfold Gradient.color_func, Gradient.gradient_func.
  change (py_div 1 (inject_Z (Z.of_nat (length Gradient.WATERFALL_GRAD)) - 1))
    with (Ok (1 / (inject_Z 4 - 1))%Q : result Q).
  cbn [mbind result_bind rbind]. unfold Gradient.gradient_fun.
  apply Qle_bool_iff in Hq. rewrite Hq. reflexivity.
Qed.

Lemma color_func_high (q : Q) : (1 <= q)%Q -> Gradient.color_func q = Ok (255, 0, 0).
Proof.
  intros Hq. unfold Gradient.color_func, Gradient.gradient_func.
  change (py_div 1 (inject_Z (Z.of_nat (length Gradient.WATERFALL_GRAD)) - 1))
    with (Ok (1 / (inject_Z 4 - 1))%Q : result Q).
  cbn [mbind result_bind rbind]. unfold Gradient.gradient_fun.
  destruct (Qle_bool q 0) eqn:E0; [apply Qle_bool_iff in E0; lra|].
  apply Qle_bool_iff in Hq. rewrite Hq. reflexivity.
Qed.

Lemma color_func_within (q : Q) (c : Gradient.color) :
  Gradient.color_func q = Ok c -> channels_within 0 255 c.
Proof.
  unfold Gradient.color_func, Gradient.gradient_func.
  change (py_div 1 (inject_Z (Z.of_nat (length Gradient.WATERFALL_GRAD)) - 1))
    with (Ok (1 / (inject_Z 4 - 1))%Q : result Q).
  cbn [mbind result_bind rbind]. intros E.
  eapply (gradient_fun_within Gradient.WATERFALL_GRAD); [| |exact E].
  - reflexivity.
  - unfold Gradient.WATERFALL_GRAD.
    repeat first [apply Forall_nil_2 | apply Forall_cons_2; [cbn; lia|]].
Qed.

(** X5. For finite bounds [x0 <= x1], [clamp] returns a value between the
    bounds for every argument that is not NaN, the infinities included, and
    the argument itself when it lies between them.  A NaN is returned as it
    is, outside the bounds: both comparisons are false on it. *)
Theorem clamp_within_bounds (x : fval) (x0 x1 : Q) :
  (x0 <= x1)%Q ->
  (is_nan x = true -> clamp_f x (Fin x0) (Fin x1) = NaN)
  /\ (is_nan x = false ->
      exists q, clamp_f x (Fin x0) (Fin x1) = Fin q /\ (x0 <= q <= x1)%Q)
  /\ (forall y, x = Fin y -> (x0 <= y <= x1)%Q -> clamp_f x (Fin x0) (Fin x1) = x).
Proof.
  intros H01. split; [|split].
  - destruct x; try discriminate. reflexivity.
  - intros Hx. destruct x as [| |y|]; [discriminate| | |].
    + exists x0. split; [reflexivity|]. lra.
    + unfold clamp_f, flt.
      destruct (Qltb x1 y) eqn:E1; [apply Qltb_true in E1|apply Qltb_false in E1].
      * exists x1. split; [reflexivity|]. lra.
      * destruct (Qltb y x0) eqn:E0; [apply Qltb_true in E0|apply Qltb_false in E0].
        -- exists x0. split; [reflexivity|]. lra.
        -- exists y. split; [reflexivity|]. lra.
    + exists x1. split; [reflexivity|]. lra.
  - intros y -> [Hlo Hhi]. unfold clamp_f, flt.
    destruct (Qltb x1 y) eqn:E1; [apply Qltb_true in E1; lra|].
    destruct (Qltb y x0) eqn:E0; [apply Qltb_true in E0; lra|].
    reflexivity.
Qed.

Lemma clamp_within_bounds_witness :
  (is_nan (Fin (7 # 4)) = true -> clamp_f (Fin (7 # 4)) (Fin 0) (Fin 1) = NaN)
  /\ (is_nan (Fin (7 # 4)) = false ->
      exists q, clamp_f (Fin (7 # 4)) (Fin 0) (Fin 1) = Fin q /\ (0 <= q <= 1)%Q)
  /\ (forall y, Fin (7 # 4) = Fin y -> (0 <= y <= 1)%Q -> clamp_f (Fin (7 # 4)) (Fin 0) (Fin 1) = (Fin (7 # 4))).
Proof. apply (clamp_within_bounds (Fin (7 # 4)) 0 1). discriminate. Defined.

Section DrawingFacts.
Context `{SignalLib}.

(** What [get_data] leaves in [range]. *)
Lemma get_data_range (m m1 : FreqShowModel) (frame : list fval) :
  get_data m = Ok (frame, m1) ->
  exists lo hi,
    min_intensity m1 = Some lo /\ max_intensity m1 = Some hi
    /\ range m1 = Some (fsub hi lo).
Proof.
  intros E. unfold get_data in E.
  apply bind_ok_inv in E as (mags & ma & _ & E). cbv beta zeta in E.
  apply bind_ok_inv in E as ([] & mb & Hu & E). cbv beta in E. injection E as _ <-.
  unfold update_intensity in Hu.
  apply bind_ok_inv in Hu as ([] & mc & _ & Hu). cbv beta in Hu.
  apply bind_ok_inv in Hu as ([] & md & _ & Hu). cbv beta in Hu.
  unfold set_range in Hu. revert Hu. run_m.
  destruct (max_intensity md) as [hi|] eqn:Eh; [|discriminate].
  destruct (min_intensity md) as [lo|] eqn:El; [|discriminate].
  intros [= <-]. exists lo, hi. repeat split; assumption.
Qed.

Lemma normalise_run (m : FreqShowModel) (freqs : list fval) (lo r : fval) :
  min_intensity m = Some lo -> range m = Some r ->
  normalise freqs m = Ok (map (scale_value lo r) freqs, m).
Proof. intros El Er. unfold normalise. run_m. rewrite El, Er. reflexivity. Qed.

(** X19. In a row that [WaterfallSpectrogram.render_spectrogram] draws with a
    scale of positive width, a bin at or below [min_intensity] gets the first
    colour of the gradient, a bin at or above [max_intensity] the last, and
    every finite bin a colour with channels between 0 and 255.  The row has
    one pixel for every column of the screen. *)
Theorem waterfall_end_colours (w : Z) (m m1 m' : FreqShowModel)
    (frame : list fval) (row : list Gradient.color) (lo hi : Q) :
  get_data m = Ok (frame, m1) ->
  min_intensity m1 = Some (Fin lo) -> max_intensity m1 = Some (Fin hi) ->
  (lo < hi)%Q ->
  waterfall_row w m = Ok (row, m') ->
  m' = m1
  /\ Z.of_nat (length row) = Z.max 0 w
  /\ forall i x (c : Gradient.color),
       frame !! i = Some (Fin x) -> row !! i = Some c ->
       ((x <= lo)%Q -> c = (0, 0, 255))
       /\ ((hi <= x)%Q -> c = (255, 0, 0))
       /\ channels_within 0 255 c.
Proof.
  intros Hg Hlo Hhi Hlt E.
  destruct (get_data_range _ _ _ Hg) as (lo' & hi' & El & Eh & Er).
  rewrite Hlo in El. injection El as <-. rewrite Hhi in Eh. injection Eh as <-.
  simpl in Er.
  unfold waterfall_row in E. rewrite (run_bind_ok _ _ _ _ _ Hg) in E.
  rewrite (run_bind_ok _ _ _ _ _ (normalise_run m1 frame _ _ Hlo Er)) in E.
  apply lift_ok_inv in E as [E ->].
  destruct (for_each_ok_inv _ _ _ E) as [Hlen Hall].
  split; [reflexivity|]. split.
  { rewrite Hlen, py_range_from_0, length_map, length_seq. lia. }
  intros i x c Hx Hc.
  assert (i < length row)%nat as Hi by (eapply lookup_lt_Some; exact Hc).
  rewrite Hlen, py_range_from_0, length_map, length_seq in Hi.
  destruct (Hall i (Z.of_nat i)) as (c' & Hc' & Hbody).
  { rewrite py_range_from_0, list_lookup_fmap, lookup_seq_lt by exact Hi. reflexivity. }
  assert (c' = c) as -> by congruence.
  apply rbind_ok_inv in Hbody as (v & Hv & Hcol).
  apply py_getitem_nat_inv in Hv. rewrite list_lookup_fmap, Hx in Hv.
  injection Hv as <-.
  unfold scale_value in Hcol. simpl fsub in Hcol. unfold fdiv in Hcol.
  destruct (Qeq_bool (hi - lo) 0) eqn:E0; [apply Qeq_bool_iff in E0; lra|].
  set (t := ((x - lo) / (hi - lo))%Q) in *.
  assert ((x <= lo)%Q -> (t <= 0)%Q) as Tlow.
  { intros Hxl. unfold t. apply Qle_shift_div_r; [lra|]. lra. }
  assert ((hi <= x)%Q -> (1 <= t)%Q) as Thigh.
  { intros Hxh. unfold t. apply Qle_shift_div_l; [lra|]. lra. }
  unfold clamp_f in Hcol. simpl flt in Hcol.
  destruct (Qltb 1 t) eqn:E1; [apply Qltb_true in E1|apply Qltb_false in E1].
  - simpl in Hcol. rewrite color_func_high in Hcol by lra. injection Hcol as <-.
    repeat split; try lia. intros Hxl. specialize (Tlow Hxl). lra.
  - destruct (Qltb t 0) eqn:E2; [apply Qltb_true in E2|apply Qltb_false in E2]; simpl in Hcol.
    + rewrite color_func_low in Hcol by lra. injection Hcol as <-.
      repeat split; try lia. intros Hxh. specialize (Thigh Hxh). lra.
    + split; [|split].
      * intros Hxl. specialize (Tlow Hxl). rewrite color_func_low in Hcol by lra. congruence.
      * intros Hxh. specialize (Thigh Hxh). rewrite color_func_high in Hcol by lra. congruence.
      * exact (color_func_within _ _ Hcol).
Qed.

Lemma flat_pixel (lo r : Q) (v : fval) :
  (r == 0)%Q ->
  color_func_f (clamp_f (scale_value (Fin lo) (Fin r) v) (Fin 0) (Fin 1)) = Raise ValueError
  \/ exists c, color_func_f (clamp_f (scale_value (Fin lo) (Fin r) v) (Fin 0) (Fin 1)) = Ok c.
Proof.
  intros Hr. apply Qeq_bool_iff in Hr.
  assert (Qltb r 0 = false) as Hn.
  { apply Qltb_false. apply Qeq_bool_iff in Hr. lra. }
  unfold scale_value.
  destruct v as [| |x|]; simpl; rewrite ?Hr, ?Hn.
  - left. reflexivity.
  - right. eexists. reflexivity.
  - destruct (Qeq_bool (x - lo) 0); [left; reflexivity|].
    destruct (Qltb 0 (x - lo)); right; eexists; reflexivity.
  - right. eexists. reflexivity.
Qed.

(** X20. When the scale has width zero ([range] is 0, as after a first frame
    whose bins are all equal) and a bin on the screen equals [min_intensity],
    [WaterfallSpectrogram.render_spectrogram] raises ValueError: the bin
    scales to NaN, which [clamp] passes on and [int()] in the gradient
    refuses. *)
Theorem flat_scale_breaks_waterfall (w : Z) (m m1 : FreqShowModel)
    (frame : list fval) (lo r x : Q) (i : nat) :
  get_data m = Ok (frame, m1) ->
  min_intensity m1 = Some (Fin lo) -> range m1 = Some (Fin r) -> (r == 0)%Q ->
  Z.of_nat i < w -> frame !! i = Some (Fin x) -> (x == lo)%Q ->
  waterfall_row w m = Raise ValueError.
Proof.
  intros Hg Hlo Hr Hr0 Hi Hx Hxl.
  unfold waterfall_row. rewrite (run_bind_ok _ _ _ _ _ Hg).
  rewrite (run_bind_ok _ _ _ _ _ (normalise_run m1 frame _ _ Hlo Hr)).
  unfold lift.
  assert (py_range 0 w
          = map Z.of_nat (seq 0 i) ++ Z.of_nat i :: map Z.of_nat (seq (S i) (Z.to_nat w - S i)))
    as ->.
  { rewrite py_range_from_0.
    replace (Z.to_nat w) with (i + S (Z.to_nat w - S i))%nat by lia.
    rewrite seq_app, map_app. simpl. repeat f_equal. lia. }
  rewrite (for_each_raises _ ValueError); [reflexivity| |].
  - apply Forall_forall. intros k Hk.
    apply list_elem_of_fmap in Hk as (j & -> & Hj).
    apply elem_of_seq in Hj.
    assert (j < length frame)%nat as Hjl.
    { apply lookup_lt_Some in Hx. lia. }
    destruct (lookup_lt_is_Some_2 frame j Hjl) as [v Hv].
    rewrite (py_getitem_nat _ j (scale_value (Fin lo) (Fin r) v))
      by (rewrite list_lookup_fmap, Hv; reflexivity).
    cbn [mbind result_bind rbind]. apply flat_pixel, Hr0.
  - rewrite (py_getitem_nat _ i (scale_value (Fin lo) (Fin r) (Fin x)))
      by (rewrite list_lookup_fmap, Hx; reflexivity).
    cbn [mbind result_bind rbind]. unfold scale_value. simpl.
    apply Qeq_bool_iff in Hr0. rewrite Hr0.
    assert (Qeq_bool (x - lo) 0 = true) as -> by (apply Qeq_bool_iff; lra).
    reflexivity.
Qed.

End DrawingFacts.

(** X21. [InstantSpectrogram.render_spectrogram] maps a bin between
    [min_intensity] and [max_intensity] to a height on the screen: between 0
    and [height], [height] (the bottom) for a bin at [min_intensity] and 0 (the
    top) for a bin at [max_intensity]. *)
Theorem plot_height_within (height : Z) (lo r x : Q) :
  0 <= height -> (0 < r)%Q -> (lo <= x <= lo + r)%Q ->
  exists y,
    plot_height height (scale_value (Fin lo) (Fin r) (Fin x)) = Fin y
    /\ (0 <= y <= inject_Z height)%Q
    /\ ((x == lo)%Q -> (y == inject_Z height)%Q)
    /\ ((x == lo + r)%Q -> (y == 0)%Q).
Proof.
  intros Hh Hr Hx. unfold scale_value, plot_height. simpl fsub. unfold fdiv.
  destruct (Qeq_bool r 0) eqn:E0; [apply Qeq_bool_iff in E0; lra|].
  cbn [fsub np_floor fmul_int]. eexists. split; [reflexivity|].
  set (t := ((x - lo) / r)%Q).
  assert (0 <= t)%Q as T0 by (unfold t; apply Qle_shift_div_l; lra).
  assert (t <= 1)%Q as T1 by (unfold t; apply Qle_shift_div_r; lra).
  assert (0 <= inject_Z height)%Q as H0.
  { change 0%Q with (inject_Z 0). rewrite <- Zle_Qle. exact Hh. }
  set (hq := inject_Z height) in *.
  pose proof (Qfloor_le (t * hq)) as Fle.
  assert (0 <= Qfloor (t * hq)) as F0.
  { rewrite <- (Qfloor_Z 0). apply Qfloor_resp_le. change (inject_Z 0) with 0%Q. nra. }
  assert (0 <= inject_Z (Qfloor (t * hq)))%Q as F0q.
  { change 0%Q with (inject_Z 0). rewrite <- Zle_Qle. exact F0. }
  split; [split; nra|]. split.
  - intros Hxl. assert (t == 0)%Q as Ht.
    { unfold t. rewrite Hxl. field. lra. }
    assert (Qfloor (t * hq) = 0) as ->.
    { rewrite <- (Qfloor_Z 0). apply Qfloor_comp. rewrite Ht. change (inject_Z 0) with 0%Q. ring. }
    change (inject_Z 0) with 0%Q. ring.
  - intros Hxh. assert (t == 1)%Q as Ht.
    { unfold t. rewrite Hxh. field. lra. }
    assert (Qfloor (t * hq) = height) as ->.
    { rewrite <- (Qfloor_Z height). apply Qfloor_comp. rewrite Ht. fold hq. ring. }
    fold hq. ring.
Qed.

Lemma plot_height_within_witness :
  exists y,
    plot_height 200 (scale_value (Fin (-10)) (Fin 60) (Fin 20)) = Fin y
    /\ (0 <= y <= inject_Z 200)%Q
    /\ ((20 == -10)%Q -> (y == inject_Z 200)%Q)
    /\ ((20 == -10 + 60)%Q -> (y == 0)%Q).
Proof.
  apply (plot_height_within 200 (-10) 60 20).
  - lia.
  - reflexivity.
  - split; discriminate.
Defined.

Lemma plot_lines_from_ext (height : Z) (f1 f2 : list fval) (ylast : fval)
    (indices : list Z) :
  Forall (fun i => py_getitem f1 (i - 1) = py_getitem f2 (i - 1)) indices ->
  plot_lines_from height f1 ylast indices = plot_lines_from height f2 ylast indices.
Proof.
  intros Hall. revert ylast. induction Hall as [|i rest Hi _ IH]; intros ylast; simpl.
  - reflexivity.
  - rewrite Hi. destruct (py_getitem f2 (i - 1)) as [y|e]; [|reflexivity].
    cbn. rewrite IH. reflexivity.
Qed.

Lemma py_getitem_insert_ne {A} (l : list A) (k : nat) (x : A) (j : Z) :
  0 <= j -> j <> Z.of_nat k ->
  py_getitem (<[k := x]> l) j = py_getitem l j.
Proof.
  intros Hj Hne. unfold py_getitem. rewrite length_insert.
  destruct (py_index (length l) j) as [p|e] eqn:E; [|reflexivity].
  assert (p = Z.to_nat j) as ->.
  { unfold py_index in E. destruct (j <? 0) eqn:E0; [apply Z.ltb_lt in E0; lia|].
    destruct ((0 <=? j) && (j <? Z.of_nat (length l))); [|discriminate].
    injection E as <-. reflexivity. }
  rewrite list_lookup_insert_ne by lia. reflexivity.
Qed.

Lemma plot_lines_from_returns (height : Z) (freqs : list fval) (ylast : fval)
    (start count : nat) :
  (start + count <= S (length freqs))%nat -> (1 <= start)%nat ->
  exists lines,
    plot_lines_from height freqs ylast (map Z.of_nat (seq start count)) = Ok lines
    /\ length lines = (2 * count)%nat.
Proof.
  revert ylast start. induction count as [|count IH]; intros ylast start Hb Hs; simpl.
  - exists []. split; reflexivity.
  - destruct (lookup_lt_is_Some_2 freqs (start - 1)) as [y Hy]; [lia|].
    replace (Z.of_nat start - 1) with (Z.of_nat (start - 1)) by lia.
    rewrite (py_getitem_nat _ _ _ Hy). cbn [mbind result_bind rbind].
    destruct (IH y (S start)) as (lines & -> & Hlen); [lia|lia|].
    cbn [mbind result_bind rbind]. eexists. split; [reflexivity|]. simpl. lia.
Qed.

(** X22. The loop that joins the bins of [InstantSpectrogram.render_spectrogram]
    draws two segments for each of the [width - 1] steps and reads
    [freqs[i-1]] only: the last bin of the frame is never read, so changing it
    changes nothing that is drawn. *)
Theorem plot_never_draws_last_bin (height width : Z) (freqs : list fval) (x : fval) :
  1 <= width -> Z.of_nat (length freqs) = width ->
  (exists lines,
     plot_lines height width freqs = Ok lines
     /\ Z.of_nat (length lines) = 2 * (width - 1))
  /\ (2 <= width ->
      plot_lines height width (<[Z.to_nat (width - 1) := x]> freqs)
      = plot_lines height width freqs).
Proof.
  intros Hw Hlen. split.
  - unfold plot_lines.
    destruct (lookup_lt_is_Some_2 freqs 0) as [y0 Hy0]; [lia|].
    rewrite (py_getitem_nat freqs 0 y0 Hy0 : py_getitem freqs 0 = Ok y0).
    cbn [mbind result_bind rbind].
    assert (py_range 1 width = map Z.of_nat (seq 1 (Z.to_nat (width - 1)))) as ->.
    { rewrite <- (py_range_from_1 (width - 1)). f_equal. lia. }
    destruct (plot_lines_from_returns height freqs y0 1 (Z.to_nat (width - 1)))
      as (lines & E & Hl); [lia|lia|].
    exists lines. split; [exact E|]. lia.
  - intros Hw2. unfold plot_lines.
    rewrite (py_getitem_insert_ne freqs _ x 0) by lia.
    destruct (py_getitem freqs 0) as [y0|e]; [|reflexivity].
    cbn [mbind result_bind rbind].
    apply plot_lines_from_ext. apply Forall_forall. intros i Hi.
    unfold py_range in Hi. apply list_elem_of_fmap in Hi as (k & -> & Hk).
    apply elem_of_seq in Hk.
    apply py_getitem_insert_ne; lia.
Qed.

Lemma plot_never_draws_last_bin_witness :
  (exists lines,
     plot_lines 100 3 [Fin 10; Fin 20; Fin 30] = Ok lines
     /\ Z.of_nat (length lines) = 2 * (3 - 1))
  /\ (2 <= 3 ->
      plot_lines 100 3 (<[Z.to_nat (3 - 1) := Fin 99]> [Fin 10; Fin 20; Fin 30])
      = plot_lines 100 3 [Fin 10; Fin 20; Fin 30]).
Proof.
  apply (plot_never_draws_last_bin 100 3 [Fin 10; Fin 20; Fin 30] (Fin 99)).
  - lia.
  - reflexivity.
Defined.
Lemma waterfall_end_colours_witness :
  small_model_after 2 db0 db6 = small_model_after 2 db0 db6
  /\ Z.of_nat (length (replicate 4 ((255, 0, 0) : Gradient.color))) = Z.max 0 4
  /\ forall i x (c : Gradient.color),
       replicate 4 (Fin db6) !! i = Some (Fin x) ->
       replicate 4 ((255, 0, 0) : Gradient.color) !! i = Some c ->
       ((x <= db0)%Q -> c = (0, 0, 255))
       /\ ((db6 <= x)%Q -> c = (255, 0, 0))
       /\ channels_within 0 255 c.
Proof.
  apply (@waterfall_end_colours BenchLib 4 (small_model_after 1 db0 db0)
           (small_model_after 2 db0 db6) (small_model_after 2 db0 db6)
           (replicate 4 (Fin db6)) (replicate 4 (255, 0, 0)) db0 db6).
  - reflexivity.
  - reflexivity.
  - reflexivity.
  - vm_compute. reflexivity.
  - reflexivity.
Defined.

Lemma flat_scale_breaks_waterfall_witness :
  waterfall_row 4 small_model = Raise ValueError.
Proof.
  apply (@flat_scale_breaks_waterfall BenchLib 4 small_model (small_model_after 1 db0 db0)
           (replicate 4 (Fin db0)) db0 (db0 - db0) db0 0).
  - reflexivity.
  - reflexivity.
  - reflexivity.
  - vm_compute. reflexivity.
  - lia.
  - reflexivity.
  - reflexivity.
Defined.

(** ** Where [set_center_freq] tunes the tuner *)

Section TuningFacts.
Context `{SignalLib}.

Lemma clear_intensity_keeps_tuning (m : FreqShowModel) :
  exists m', _clear_intensity m = Ok (tt, m')
    /\ sdr m' = sdr m /\ center_freq m' = center_freq m
    /\ lo_offset m' = lo_offset m /\ zoom_fac m' = zoom_fac m.
Proof.
  unfold _clear_intensity. run_m.
  destruct (min_auto_scale m) eqn:Ea; destruct (max_auto_scale m) eqn:Eb;
    cbn; rewrite ?Ea, ?Eb; cbn; eexists; split; try reflexivity;
    repeat split; reflexivity.
Qed.

(** X23. With a zoom span that is not zero and a driver that accepts the
    call, [set_center_freq] returns and stores the requested centre; it
    leaves the LO offset, the zoom span and the sample rate as they are, and
    the only thing it changes on the tuner is the frequency, which it sets to
    the requested centre plus the LO offset or to the requested centre
    itself, in hertz, and to nothing else. *)
Theorem set_center_freq_tunes (value : Q) (m : FreqShowModel) :
  ~ (zoom_fac m == 0)%Q ->
  exists m',
    set_center_freq value IoOk m = Ok (tt, m')
    /\ center_freq m' = value
    /\ lo_offset m' = lo_offset m
    /\ zoom_fac m' = zoom_fac m
    /\ sdr_sample_rate (sdr m') = sdr_sample_rate (sdr m)
    /\ sdr_gain (sdr m') = sdr_gain (sdr m)
    /\ sdr_reads (sdr m') = sdr_reads (sdr m)
    /\ (sdr_center_freq (sdr m') = ((value + lo_offset m) * 1000000)%Q
        \/ sdr_center_freq (sdr m') = (value * 1000000)%Q).
Proof.
  intros Hz0.
  unfold set_center_freq. run_m.
  cbn [with_center_freq zoom_fac sdr lo_offset center_freq].
  rewrite !py_div_ok by exact Hz0.
  unfold sdr_set_center_freq. run_m.
  cbn [with_sdr with_center_freq sdr center_freq sdr_sample_rate sdr_center_freq
       lo_offset zoom_fac].
  match goal with
  | |- context [_clear_intensity ?s] =>
      destruct (clear_intensity_keeps_tuning s) as (m' & -> & Hs & Hc & Hl & Hzf)
  end.
  exists m'. split; [reflexivity|]. rewrite Hs, Hc, Hl, Hzf.
  cbn [with_sdr with_center_freq sdr center_freq sdr_sample_rate sdr_center_freq
       sdr_gain sdr_reads lo_offset zoom_fac].
  repeat (split; [reflexivity|]).
  match goal with
  | |- context [Qltb ?a ?b] => destruct (Qltb a b)
  end; [left|right]; reflexivity.
Qed.

End TuningFacts.

Lemma set_center_freq_tunes_witness :
  exists m',
    set_center_freq (705 # 10) IoOk bench_model = Ok (tt, m')
    /\ center_freq m' = (705 # 10)%Q
    /\ lo_offset m' = lo_offset bench_model
    /\ zoom_fac m' = zoom_fac bench_model
    /\ sdr_sample_rate (sdr m') = sdr_sample_rate (sdr bench_model)
    /\ sdr_gain (sdr m') = sdr_gain (sdr bench_model)
    /\ sdr_reads (sdr m') = sdr_reads (sdr bench_model)
    /\ (sdr_center_freq (sdr m') = (((705 # 10) + lo_offset bench_model) * 1000000)%Q
        \/ sdr_center_freq (sdr m') = ((705 # 10) * 1000000)%Q).
Proof.
  apply (@set_center_freq_tunes BenchLib (705 # 10) bench_model).
  discriminate.
Defined.
